(** * Buildable AI backend: provider routing, retrying execution and the
      generation pipeline

    A shallow embedding of the TypeScript backend sources
    ([services/ai/models.ts], [services/ai/buildable-ai.ts],
    [services/ai/pipeline.ts], [services/ai/architect.ts],
    [services/ai/coder.ts], [services/ai/validator.ts],
    [middleware/credits.ts], [api/generate.ts]).

    Asynchronous code is modelled sequentially (every [await] is a plain
    call) in a state-and-exception monad that also produces the trace of
    calls issued to the collaborators (providers, timers, the database and
    the logger).  Provider replies, database failures and the clock are given
    by an environment ([Env]) indexed by the number of calls made so far, so a
    statement quantified over [Env] covers every behaviour of the outside
    world.  Prompt texts are not built: the provider oracle is indexed by the
    call number, which determines the request in a deterministic run. *)

From Stdlib Require Import ZArith QArith Qround List String Ascii Bool Lia Arith.
From Stdlib Require Import Sorted Permutation.
From Stdlib Require Import DecimalString.
Import ListNotations.

Local Open Scope string_scope.
Local Open Scope list_scope.
Local Open Scope nat_scope.

(* ===================================================================== *)
(** ** JavaScript values, exceptions and the effect monad                  *)
(* ===================================================================== *)

(** A thrown value: an [Error] instance with its message, or anything else
    (of which only the truthiness is ever inspected). *)
Inductive JsValue : Type :=
| ErrorObj (message : string)
| NonError (truthy : bool).

Inductive Result (A : Type) : Type :=
| Ok (a : A)
| Throw (e : JsValue).
Arguments Ok {A} a.
Arguments Throw {A} e.

Definition isOk {A} (r : Result A) : bool :=
  match r with Ok _ => true | Throw _ => false end.

(** [error instanceof Error ? error.message : 'Unknown error'] *)
Definition errorMessageOf (e : JsValue) : string :=
  match e with
  | ErrorObj m => m
  | NonError _ => "Unknown error"
  end.

(* ---------------------------- models.ts ------------------------------ *)

Inductive AIProvider : Type := GROK | OPENAI | GEMINI.

Inductive TaskType : Type :=
| PLANNING | CODING | DEBUGGING | REASONING | MULTIMODAL | VALIDATION | REFINEMENT.

Definition AIProvider_eqb (a b : AIProvider) : bool :=
  match a, b with
  | GROK, GROK | OPENAI, OPENAI | GEMINI, GEMINI => true
  | _, _ => false
  end.

Definition providerName (p : AIProvider) : string :=
  match p with GROK => "grok" | OPENAI => "openai" | GEMINI => "gemini" end.

Definition taskName (t : TaskType) : string :=
  match t with
  | PLANNING => "planning" | CODING => "coding" | DEBUGGING => "debugging"
  | REASONING => "reasoning" | MULTIMODAL => "multimodal"
  | VALIDATION => "validation" | REFINEMENT => "refinement"
  end.

Record Candidate : Type := mkCandidate {
  cProvider : AIProvider;
  cModel : string
}.

(** An entry of [ModelRouting]: [{ provider, model, fallback? }]. *)
Record Routing : Type := mkRouting {
  provider : AIProvider;
  model : string;
  fallback : option Candidate
}.

Module GrokModels.
Definition GROK_4_1_FAST := "grok-4.1-fast".
Definition GROK_CODE_FAST_1 := "grok-code-fast-1".
Definition GROK_VISION := "grok-vision-beta".
End GrokModels.

Module OpenAIModels.
Definition GPT_5 := "gpt-5".
Definition GPT_5_MINI := "gpt-5-mini".
Definition GPT_5_NANO := "gpt-5-nano".
Definition GPT_5_2 := "gpt-5.2".
End OpenAIModels.

Module GeminiModels.
Definition GEMINI_2_5_FLASH := "gemini-2.5-flash".
Definition GEMINI_2_5_PRO := "gemini-2.5-pro".
Definition GEMINI_3_FLASH_PREVIEW := "gemini-3-flash-preview".
Definition GEMINI_3_PRO_PREVIEW := "gemini-3-pro-preview".
End GeminiModels.

Definition ModelRouting (task : TaskType) : Routing :=
  match task with
  | PLANNING =>
      mkRouting GEMINI GeminiModels.GEMINI_2_5_PRO
                (Some (mkCandidate OPENAI OpenAIModels.GPT_5_MINI))
  | CODING =>
      mkRouting GROK GrokModels.GROK_CODE_FAST_1
                (Some (mkCandidate OPENAI OpenAIModels.GPT_5))
  | DEBUGGING =>
      mkRouting GROK GrokModels.GROK_CODE_FAST_1
                (Some (mkCandidate OPENAI OpenAIModels.GPT_5_MINI))
  | REASONING =>
      mkRouting OPENAI OpenAIModels.GPT_5_2
                (Some (mkCandidate GEMINI GeminiModels.GEMINI_2_5_PRO))
  | MULTIMODAL =>
      mkRouting GEMINI GeminiModels.GEMINI_3_PRO_PREVIEW
                (Some (mkCandidate GROK GrokModels.GROK_VISION))
  | VALIDATION =>
      mkRouting GROK GrokModels.GROK_4_1_FAST
                (Some (mkCandidate OPENAI OpenAIModels.GPT_5_NANO))
  | REFINEMENT =>
      mkRouting OPENAI OpenAIModels.GPT_5
                (Some (mkCandidate GROK GrokModels.GROK_CODE_FAST_1))
  end.

(* ------------------------- requests and replies ---------------------- *)

Record BuildableAIRequest : Type := mkRequest {
  task : TaskType;
  jsonMode : bool;
  maxTokens : option Z
}.

(** What a provider SDK call hands back: the text and the usage counters
    (already defaulted to 0 where the SDK omits them). *)
Record ProviderReply : Type := mkReply {
  replyContent : string;
  replyInputTokens : nat;
  replyOutputTokens : nat;
  replyTotalTokens : nat
}.

Record Usage : Type := mkUsage {
  inputTokens : nat;
  outputTokens : nat;
  totalTokens : nat
}.

Record BuildableAIResponse : Type := mkResponse {
  content : string;
  respProvider : AIProvider;
  respModel : string;
  usage : Usage;
  cost : Q;
  latencyMs : Z
}.

(* ------------------------------ logging ------------------------------ *)

Inductive LogLevel : Type := Info | Warn | Error.

(** The fields of a structured log record that the development looks at. *)
Record LogData : Type := mkLogData {
  logSession : option string;
  logFile : option string;
  logAttempt : option nat;
  logIssues : option (list string)
}.

Definition noData : LogData := mkLogData None None None None.
Definition fileData (path : string) : LogData := mkLogData None (Some path) None None.
Definition sessionData (sessionId : string) : LogData :=
  mkLogData (Some sessionId) None None None.
Definition sessionFileData (sessionId path : string) : LogData :=
  mkLogData (Some sessionId) (Some path) None None.

(* --------------------------- pipeline data --------------------------- *)

Inductive SessionStatus : Type :=
| pending | planning | scaffolding | generating | validating | completed | failed.

Record FileSpec : Type := mkFileSpec {
  path : string;
  purpose : string;
  dependencies : list string;
  priority : option Z
}.

Record ProjectPlan : Type := mkPlan {
  projectType : string;
  description : string;
  files : list FileSpec;
  planDependencies : list string
}.

Record GeneratedFile : Type := mkGeneratedFile {
  gPath : string;
  gContent : string;
  validated : bool;
  errors : option (list string)
}.

Record WorkspaceFile : Type := mkWorkspaceFile {
  file_path : string;
  wContent : string
}.

(** The object passed to [db.updateSession]. *)
Record SessionUpdate : Type := mkSessionUpdate {
  status : SessionStatus;
  plan : option ProjectPlan;
  files_planned : option nat;
  files_generated : option nat;
  error_message : option string;
  tokens_used : option nat;
  credits_used : option Z;
  completed_at : option Z
}.

Inductive FileOperation : Type := opCreate | opUpdate.

Inductive DbOp : Type :=
| UpdateSession (sessionId : string) (payload : SessionUpdate)
| GetWorkspaceFiles (workspaceId : string)
| RecordFileOperation (workspaceId userId sessionId : string)
                      (op : FileOperation) (filePath newContent : string)
| UpsertFile (workspaceId userId filePath fileContent : string)
| UpdateWorkspaceStatus (workspaceId wsStatus : string).

(** Calls issued to the outside world, in the order they are made. *)
Inductive Event : Type :=
| EvProviderCall (p : AIProvider) (m : string) (t : TaskType)
| EvDelay (ms : nat)
| EvDb (op : DbOp)
| EvLog (level : LogLevel) (msg : string) (data : LogData).

(* ------------------------ environment and state ---------------------- *)

Record ValidationJson : Type := mkValidationJson {
  jValid : bool;
  jIssues : list string;
  jSuggestions : list string
}.

Record Suggestion : Type := mkSuggestion {
  sTitle : string;
  sDescription : string;
  sPriority : string
}.

Record FileToModify : Type := mkFileToModify {
  mPath : string;
  mChanges : string
}.

Record NewFile : Type := mkNewFile {
  nPath : string;
  nPurpose : string
}.

Record RefinementAnalysis : Type := mkAnalysis {
  filesToModify : list FileToModify;
  newFiles : list NewFile
}.

(** The outside world.  [providerReply n p m req] is the outcome of the
    [n]-th provider SDK call of the run when it is made to provider [p] with
    model [m]; [dbThrows n] says whether the [n]-th database call throws;
    [fl] is the rounding of IEEE double arithmetic (an operation returns [fl]
    of the exact result); the parsers stand for [JSON.parse] followed by the
    schema check or field access that the caller performs. *)
Record Env : Type := mkEnv {
  GROK_API_KEY : option string;
  OPENAI_API_KEY : option string;
  GEMINI_API_KEY : option string;
  CREDITS_COST_MULTIPLIER : Q;
  providerReply : nat -> AIProvider -> string -> BuildableAIRequest -> Result ProviderReply;
  dbThrows : nat -> option JsValue;
  dbFiles : nat -> list WorkspaceFile;
  clock : nat -> Z;
  fl : Q -> Q;
  parsePlan : string -> Result ProjectPlan;
  parseValidation : string -> Result ValidationJson;
  parseSuggestions : string -> Result (list Suggestion);
  parseAnalysis : string -> Result RefinementAnalysis;
  stripCodeFence : string -> string
}.

(** Mutable state of one run: the call counters that index the oracles of
    [Env], and the local variables of [GenerationPipeline.run] that its
    [catch] block reads. *)
Record World : Type := mkWorld {
  nProvider : nat;
  nDb : nat;
  totalTokens_ : nat;
  totalCost : Q;
  generatedFiles : list GeneratedFile
}.

Definition initialWorld : World := mkWorld 0 0 0 0%Q [].

Definition M (A : Type) : Type := World -> Result A * World * list Event.

Definition ret {A} (a : A) : M A := fun w => (Ok a, w, []).

Definition throw {A} (e : JsValue) : M A := fun w => (Throw e, w, []).

Definition bind {A B} (m : M A) (f : A -> M B) : M B :=
  fun w =>
    match m w with
    | (Ok a, w1, t1) =>
        match f a w1 with
        | (r, w2, t2) => (r, w2, t1 ++ t2)
        end
    | (Throw e, w1, t1) => (Throw e, w1, t1)
    end.

(** [try { m } catch (e) { h e }] *)
Definition tryCatch {A} (m : M A) (h : JsValue -> M A) : M A :=
  fun w =>
    match m w with
    | (Ok a, w1, t1) => (Ok a, w1, t1)
    | (Throw e, w1, t1) =>
        match h e w1 with
        | (r, w2, t2) => (r, w2, t1 ++ t2)
        end
    end.

Definition emit (e : Event) : M unit := fun w => (Ok tt, w, [e]).

Definition getWorld : M World := fun w => (Ok w, w, []).

Definition modifyWorld (f : World -> World) : M unit := fun w => (Ok tt, f w, []).

Definition liftResult {A} (r : Result A) : M A := fun w => (r, w, []).

Declare Scope js_scope.
Delimit Scope js_scope with js.
Notation "x <- m ;; k" := (bind m (fun x => k))
  (at level 61, m at next level, right associativity) : js_scope.
Notation "m ;; k" := (bind m (fun _ => k))
  (at level 61, right associativity) : js_scope.
Local Open Scope js_scope.

Definition resultOf {A} (x : Result A * World * list Event) : Result A := fst (fst x).
Definition worldOf {A} (x : Result A * World * list Event) : World := snd (fst x).
Definition traceOf {A} (x : Result A * World * list Event) : list Event := snd x.

Definition logger (level : LogLevel) (msg : string) (data : LogData) : M unit :=
  emit (EvLog level msg data).

(* ===================================================================== *)
(** ** models.ts: credentials, costs                                       *)
(* ===================================================================== *)

(** Truthiness of an optional string ([!!env.KEY]): present and non-empty. *)
Definition truthyKey (k : option string) : bool :=
  match k with
  | Some s => negb (String.eqb s "")
  | None => false
  end.

Section Models.
Variable env : Env.

Definition isProviderAvailable (p : AIProvider) : bool :=
  match p with
  | GROK => truthyKey (GROK_API_KEY env)
  | OPENAI => truthyKey (OPENAI_API_KEY env)
  | GEMINI => truthyKey (GEMINI_API_KEY env)
  end.

(** The client getters throw when the key is missing (the client cache
    itself is not modelled). *)
Definition getGrokClient : M unit :=
  if truthyKey (GROK_API_KEY env) then ret tt
  else throw (ErrorObj "GROK_API_KEY is not configured").

Definition getOpenAIClient : M unit :=
  if truthyKey (OPENAI_API_KEY env) then ret tt
  else throw (ErrorObj "OPENAI_API_KEY is not configured").

Definition getGeminiClient : M unit :=
  if truthyKey (GEMINI_API_KEY env) then ret tt
  else throw (ErrorObj "GEMINI_API_KEY is not configured").

(** Double arithmetic: the exact result, rounded. *)
Definition fmul (x y : Q) : Q := fl env (x * y).
Definition fdiv (x y : Q) : Q := fl env (x / y).
Definition fadd (x y : Q) : Q := fl env (x + y).
Definition ofNat (n : nat) : Q := inject_Z (Z.of_nat n).

(** [TokenCosts]: cost per 1K tokens, [(input, output)]. *)
Definition TokenCosts (p : AIProvider) : Q * Q :=
  match p with
  | GROK => (fl env (1 # 1000), fl env (2 # 1000))
  | OPENAI => (fl env (3 # 1000), fl env (6 # 1000))
  | GEMINI => (fl env (5 # 10000), fl env (1 # 1000))
  end.

Definition estimateCost (p : AIProvider) (inTok outTok : nat) : Q :=
  let costs := TokenCosts p in
  fadd (fmul (fdiv (ofNat inTok) 1000) (fst costs))
       (fmul (fdiv (ofNat outTok) 1000) (snd costs)).

(** [Date.now()] *)
Definition Date_now : M Z :=
  fun w => (Ok (clock env (nProvider w + nDb w)), w, []).
End Models.

(* ===================================================================== *)
(** ** buildable-ai.ts: the execution engine                               *)
(* ===================================================================== *)

Definition lowerChar (c : ascii) : ascii :=
  let n := nat_of_ascii c in
  if (65 <=? n) && (n <=? 90) then ascii_of_nat (n + 32) else c.

(** [String.prototype.toLowerCase], on ASCII text. *)
Fixpoint toLowerCase (s : string) : string :=
  match s with
  | EmptyString => EmptyString
  | String c s' => String (lowerChar c) (toLowerCase s')
  end.

(** [haystack.includes(needle)] *)
Fixpoint includes (needle haystack : string) : bool :=
  String.prefix needle haystack ||
  match haystack with
  | EmptyString => false
  | String _ rest => includes needle rest
  end.

Definition isRateLimitError (error : JsValue) : bool :=
  match error with
  | ErrorObj msg =>
      let message := toLowerCase msg in
      includes "rate limit" message ||
      includes "429" message ||
      includes "too many requests" message
  | NonError _ => false
  end.

Record BuildableAI : Type := mkBuildableAI {
  retryCount : nat;
  retryDelayMs : nat
}.

Record BuildableAIOptions : Type := mkOptions {
  optRetryCount : option nat;
  optRetryDelayMs : option nat
}.

Definition orDefault {A} (o : option A) (d : A) : A :=
  match o with Some a => a | None => d end.

(** [constructor(options?)] *)
Definition newBuildableAI (options : option BuildableAIOptions) : BuildableAI :=
  mkBuildableAI
    (orDefault (match options with Some o => optRetryCount o | None => None end) 2)
    (orDefault (match options with Some o => optRetryDelayMs o | None => None end) 1000).

(** [getBuildableAI()]: the singleton is built with no options. *)
Definition getBuildableAI : BuildableAI := newBuildableAI None.

Section Engine.
Variable env : Env.
Variable ai : BuildableAI.

(** The SDK call itself: consults the oracle at the current call number. *)
Definition sdkCall (p : AIProvider) (m : string) (request : BuildableAIRequest)
  : M ProviderReply :=
  fun w =>
    (providerReply env (nProvider w) p m request,
     mkWorld (S (nProvider w)) (nDb w) (totalTokens_ w) (totalCost w) (generatedFiles w),
     [EvProviderCall p m (task request)]).

Definition responseOf (p : AIProvider) (m : string) (r : ProviderReply)
  : BuildableAIResponse :=
  mkResponse (replyContent r) p m
             (mkUsage (replyInputTokens r) (replyOutputTokens r) (replyTotalTokens r))
             (estimateCost env p (replyInputTokens r) (replyOutputTokens r))
             0%Z.

Definition executeGrok (m : string) (request : BuildableAIRequest)
  : M BuildableAIResponse :=
  getGrokClient env ;;
  response <- sdkCall GROK m request ;;
  ret (responseOf GROK m response).

Definition executeOpenAI (m : string) (request : BuildableAIRequest)
  : M BuildableAIResponse :=
  getOpenAIClient env ;;
  response <- sdkCall OPENAI m request ;;
  ret (responseOf OPENAI m response).

Definition executeGemini (m : string) (request : BuildableAIRequest)
  : M BuildableAIResponse :=
  getGeminiClient env ;;
  response <- sdkCall GEMINI m request ;;
  ret (responseOf GEMINI m response).

(** The [switch (provider)] of [executeWithProvider]. *)
Definition providerSwitch (p : AIProvider) (m : string)
           (request : BuildableAIRequest) : M BuildableAIResponse :=
  match p with
  | GROK => executeGrok m request
  | OPENAI => executeOpenAI m request
  | GEMINI => executeGemini m request
  end.

Definition delay (ms : nat) : M unit := emit (EvDelay ms).

Definition attemptData (attempt : nat) : LogData :=
  mkLogData None None (Some attempt) None.

(** The body of [executeWithProvider]: the [for] loop with [remaining]
    iterations left, i.e. [remaining = retryCount + 1 - attempt]. *)
Fixpoint retryLoop (p : AIProvider) (m : string) (request : BuildableAIRequest)
         (remaining attempt : nat) (lastError : option JsValue)
  : M BuildableAIResponse :=
  match remaining with
  | 0 =>
      throw (match lastError with
             | Some (NonError false) | None => ErrorObj "Unknown execution error"
             | Some e => e
             end)
  | S remaining' =>
      tryCatch
        (providerSwitch p m request)
        (fun error =>
           if isRateLimitError error then
             logger Warn "Rate limited, will retry" (attemptData attempt) ;;
             delay (retryDelayMs ai * (attempt + 1)) ;;
             retryLoop p m request remaining' (attempt + 1) (Some error)
           else throw error)
  end.

Definition executeWithProvider (p : AIProvider) (m : string)
           (request : BuildableAIRequest) : M BuildableAIResponse :=
  retryLoop p m request (retryCount ai + 1) 0 None.

Definition withLatency (r : BuildableAIResponse) (ms : Z) : BuildableAIResponse :=
  mkResponse (content r) (respProvider r) (respModel r) (usage r) (cost r) ms.

Definition noProviders (request : BuildableAIRequest) : JsValue :=
  ErrorObj ("No available providers for task: " ++ taskName (task request)).

Definition execute (request : BuildableAIRequest) : M BuildableAIResponse :=
  startTime <- Date_now env ;;
  let routing := ModelRouting (task request) in
  primaryResult <-
    (if isProviderAvailable env (provider routing) then
       tryCatch
         (result <- executeWithProvider (provider routing) (model routing) request ;;
          now <- Date_now env ;;
          ret (Some (withLatency result (now - startTime))))
         (fun error =>
            logger Warn "Primary provider failed, attempting fallback" noData ;;
            ret None)
     else ret None) ;;
  match primaryResult with
  | Some response => ret response
  | None =>
      match fallback routing with
      | Some fb =>
          if isProviderAvailable env (cProvider fb) then
            tryCatch
              (result <- executeWithProvider (cProvider fb) (cModel fb) request ;;
               now <- Date_now env ;;
               ret (withLatency result (now - startTime)))
              (fun error =>
                 logger Error "Fallback provider also failed" noData ;;
                 throw error)
          else throw (noProviders request)
      | None => throw (noProviders request)
      end
  end.
End Engine.

(* ===================================================================== *)
(** ** credits.ts: credit estimation                                       *)
(* ===================================================================== *)

Inductive Complexity : Type := low | medium | high.

Record CreditEstimate : Type := mkEstimate {
  estimatedTokens : Z;
  estimatedCredits : Z;
  complexity : Complexity
}.

Definition multipliers (c : Complexity) : Q :=
  match c with
  | low => 1
  | medium => 3 # 2
  | high => 2
  end.

Section Credits.
Variable env : Env.

(** [estimateCredits(prompt, filesCount = 0)].  Counts are integers and
    their sums and products are exact; the division and the two
    multiplications by non-integers are double operations. *)
Definition estimateCredits (prompt : string) (filesCount : nat) : CreditEstimate :=
  let promptTokens := Qceiling (fdiv env (ofNat (String.length prompt)) 4) in
  let outputTokensPerFile := 1500%Z in
  let contextTokens := (Z.of_nat filesCount * 500)%Z in
  let estimatedTokens :=
    (promptTokens + contextTokens
     + Z.of_nat (if Nat.eqb filesCount 0 then 5%nat else filesCount) * outputTokensPerFile)%Z in
  let complexity :=
    if (estimatedTokens <? 5000)%Z then low
    else if (estimatedTokens >? 20000)%Z then high
    else medium in
  let estimatedCredits :=
    Qceiling (fmul env (fmul env (inject_Z estimatedTokens) (CREDITS_COST_MULTIPLIER env))
                       (multipliers complexity)) in
  mkEstimate estimatedTokens estimatedCredits complexity.

(** [calculateCredits(inputTokens, outputTokens, complexity = 'medium')] *)
Definition calculateCredits (inTok outTok : nat) (c : Complexity) : Z :=
  let totalTokens := inTok + outTok in
  Qceiling (fmul env (fmul env (ofNat totalTokens) (CREDITS_COST_MULTIPLIER env))
                     (multipliers c)).
End Credits.

(* ===================================================================== *)
(** ** pipeline.ts: ordering of the planned files                          *)
(* ===================================================================== *)

(** The comparator passed to [sort] in [sortFilesByDependency]. *)
Definition compareFiles (a b : FileSpec) : Z :=
  match priority a, priority b with
  | Some pa, Some pb => (pa - pb)%Z
  | _, _ => (Z.of_nat (List.length (dependencies a)) - Z.of_nat (List.length (dependencies b)))%Z
  end.

(** [Array.prototype.sort(cmp)] is a stable sort; it is modelled by the
    stable insertion sort (an element goes in front of the first element of
    the sorted tail that it does not compare greater than). *)
Fixpoint insertBy {A} (cmp : A -> A -> Z) (x : A) (l : list A) : list A :=
  match l with
  | [] => [x]
  | y :: l' => if (cmp x y <=? 0)%Z then x :: y :: l' else y :: insertBy cmp x l'
  end.

Fixpoint sortBy {A} (cmp : A -> A -> Z) (l : list A) : list A :=
  match l with
  | [] => []
  | x :: l' => insertBy cmp x (sortBy cmp l')
  end.

Definition sortFilesByDependency (fs : list FileSpec) : list FileSpec :=
  sortBy compareFiles fs.

(** The ordering key of the specification: [priority ?? dependencies.length]. *)
Definition orderKey (f : FileSpec) : Z :=
  match priority f with
  | Some p => p
  | None => Z.of_nat (List.length (dependencies f))
  end.

(* ===================================================================== *)
(** ** Database collaborator and session updates                           *)
(* ===================================================================== *)

Definition setDb (w : World) (n : nat) : World :=
  mkWorld (nProvider w) n (totalTokens_ w) (totalCost w) (generatedFiles w).

Definition setUsage (w : World) (tokens : nat) (c : Q) : World :=
  mkWorld (nProvider w) (nDb w) tokens c (generatedFiles w).

Definition setFiles (w : World) (fs : list GeneratedFile) : World :=
  mkWorld (nProvider w) (nDb w) (totalTokens_ w) (totalCost w) fs.

(** The optional third argument of [updateSessionStatus]. *)
Record SessionData : Type := mkSessionData {
  d_plan : option ProjectPlan;
  d_files_planned : option nat;
  d_files_generated : option nat;
  d_error_message : option string;
  d_tokens_used : option nat;
  d_credits_used : option Z
}.

Definition noSessionData : SessionData :=
  mkSessionData None None None None None None.

Definition isTerminal (s : SessionStatus) : bool :=
  match s with
  | completed | failed => true
  | _ => false
  end.

Section Database.
Variable env : Env.

(** A database call that returns nothing: it is issued (and traced), and
    throws when the oracle says so. *)
Definition dbCall (op : DbOp) : M unit :=
  fun w =>
    (match dbThrows env (nDb w) with
     | Some e => Throw e
     | None => Ok tt
     end,
     setDb w (S (nDb w)),
     [EvDb op]).

Definition getWorkspaceFiles (workspaceId : string) : M (list WorkspaceFile) :=
  fun w =>
    (match dbThrows env (nDb w) with
     | Some e => Throw e
     | None => Ok (dbFiles env (nDb w))
     end,
     setDb w (S (nDb w)),
     [EvDb (GetWorkspaceFiles workspaceId)]).

(** The payload that [updateSessionStatus] builds:
    [{ status, ...data, ...(terminal ? { completed_at } : {}) }]. *)
Definition sessionPayload (s : SessionStatus) (data : SessionData) (now : Z)
  : SessionUpdate :=
  mkSessionUpdate s (d_plan data) (d_files_planned data) (d_files_generated data)
                  (d_error_message data) (d_tokens_used data) (d_credits_used data)
                  (if isTerminal s then Some now else None).

Definition updateSessionStatus (sessionId : string) (s : SessionStatus)
           (data : option SessionData) : M unit :=
  now <- Date_now env ;;
  dbCall (UpdateSession sessionId (sessionPayload s (orDefault data noSessionData) now)).

(** The cancel route of [api/generate.ts]. *)
Definition cancelPayload (now : Z) : SessionUpdate :=
  mkSessionUpdate failed None None None (Some "Cancelled by user") None None (Some now).

Definition cancelSession (sessionId : string) : M unit :=
  now <- Date_now env ;;
  dbCall (UpdateSession sessionId (cancelPayload now)).
End Database.

(* ===================================================================== *)
(** ** architect.ts, coder.ts, validator.ts, suggest                       *)
(* ===================================================================== *)

Record ArchitectResult : Type := mkArchitectResult {
  aPlan : ProjectPlan;
  aTokensUsed : nat;
  aCost : Q
}.

Record CoderResult : Type := mkCoderResult {
  cContent : string;
  cTokensUsed : nat;
  cCost : Q;
  cModelUsed : string
}.

Record ValidationResult : Type := mkValidationResult {
  valid : bool;
  issues : list string;
  suggestions : list string;
  vTokensUsed : nat;
  vCost : Q
}.

Record FixResult : Type := mkFixResult {
  fContent : string;
  changesApplied : list string;
  fTokensUsed : nat;
  fCost : Q
}.

Section Agents.
Variable env : Env.

Let ai : BuildableAI := getBuildableAI.

(** [Architect.createPlan] *)
Definition createPlan (prompt : string) (existingFiles : list WorkspaceFile)
  : M ArchitectResult :=
  logger Info "Creating project plan" noData ;;
  response <- execute env ai (mkRequest PLANNING true (Some 4000%Z)) ;;
  validated <- liftResult (parsePlan env (content response)) ;;
  logger Info "Plan created successfully" noData ;;
  ret (mkArchitectResult validated (totalTokens (usage response)) (cost response)).

(** [Coder.generateFile] *)
Definition generateFile (fileSpec : FileSpec) (p : ProjectPlan)
           (existingFiles : list WorkspaceFile) (originalPrompt : string)
  : M CoderResult :=
  logger Info "Generating file" (fileData (path fileSpec)) ;;
  response <- execute env ai (mkRequest CODING false (Some 8000%Z)) ;;
  let cleanContent := stripCodeFence env (content response) in
  logger Info "File generated" (fileData (path fileSpec)) ;;
  ret (mkCoderResult cleanContent (totalTokens (usage response)) (cost response)
                     (respModel response)).

(** [Validator.validateFile] *)
Definition validateFile (filePath fileContent : string) : M ValidationResult :=
  logger Info "Validating file with AI" (fileData filePath) ;;
  response <- execute env ai (mkRequest VALIDATION true (Some 2000%Z)) ;;
  result <- liftResult (parseValidation env (content response)) ;;
  logger Info "AI validation complete" (fileData filePath) ;;
  ret (mkValidationResult (jValid result) (jIssues result) (jSuggestions result)
                          (totalTokens (usage response)) (cost response)).

(** [Validator.fix] *)
Definition fix_ (filePath fileContent : string) (issueList : list string)
  : M FixResult :=
  logger Info "Fixing issues with AI" (fileData filePath) ;;
  response <- execute env ai (mkRequest DEBUGGING false (Some 8000%Z)) ;;
  let cleanContent := stripCodeFence env (content response) in
  logger Info "Issues fixed" (fileData filePath) ;;
  ret (mkFixResult cleanContent issueList (totalTokens (usage response)) (cost response)).

(** [suggest] of buildable-ai.ts *)
Definition suggest (generatedPaths : list string) (projType : string)
  : M BuildableAIResponse :=
  execute env ai (mkRequest REASONING true None).
End Agents.

(* ===================================================================== *)
(** ** pipeline.ts: GenerationPipeline                                     *)
(* ===================================================================== *)

Record PipelineOptions : Type := mkPipelineOptions {
  o_workspaceId : string;
  o_userId : string;
  o_sessionId : string;
  o_prompt : string;
  o_template : option string;
  o_maxValidationRetries : option nat
}.

Record GenerationPipeline : Type := mkGenerationPipeline {
  workspaceId : string;
  userId : string;
  sessionId : string;
  prompt : string;
  template : option string;
  maxValidationRetries : nat
}.

(** [constructor(config)] *)
Definition newGenerationPipeline (config : PipelineOptions) : GenerationPipeline :=
  mkGenerationPipeline (o_workspaceId config) (o_userId config) (o_sessionId config)
                       (o_prompt config) (o_template config)
                       (orDefault (o_maxValidationRetries config) 3).

Record PipelineResult : Type := mkPipelineResult {
  success : bool;
  resultPlan : option ProjectPlan;
  resultFiles : list GeneratedFile;
  resultTokens : nat;
  resultCost : Q;
  resultSuggestions : list Suggestion;
  resultError : option string
}.

Definition dummyFile : GeneratedFile := mkGeneratedFile "" "" false None.

(** [l[i] = x] for an index within the list. *)
Fixpoint setNth {A} (i : nat) (x : A) (l : list A) : list A :=
  match l, i with
  | [], _ => []
  | _ :: l', 0 => x :: l'
  | y :: l', S i' => y :: setNth i' x l'
  end.

Section Run.
Variable env : Env.
Variable self : GenerationPipeline.

(** [totalTokens += tokens; totalCost += cost] *)
Definition addUsage (tokens : nat) (c : Q) : M unit :=
  modifyWorld (fun w => setUsage w (totalTokens_ w + tokens) (fadd env (totalCost w) c)).

Definition pushFile (f : GeneratedFile) : M unit :=
  modifyWorld (fun w => setFiles w (generatedFiles w ++ [f])).

Definition getFile (i : nat) : M GeneratedFile :=
  fun w => (Ok (nth i (generatedFiles w) dummyFile), w, []).

Definition setFile (i : nat) (f : GeneratedFile) : M unit :=
  modifyWorld (fun w => setFiles w (setNth i f (generatedFiles w))).

Definition applyTemplate (templateName : string) : M unit :=
  logger Info "Applying template" (sessionData (sessionId self)).

(** [Math.ceil(totalCost * 100)] *)
Definition creditsOf (c : Q) : Z := Qceiling (fmul env c 100).

(** One iteration of the [for (const fileSpec of sortedFiles)] loop. *)
Definition generateOne (p : ProjectPlan) (fileSpec : FileSpec) : M unit :=
  tryCatch
    (logger Info "Generating file" (sessionFileData (sessionId self) (path fileSpec)) ;;
     currentFiles <- getWorkspaceFiles env (workspaceId self) ;;
     result <- generateFile env fileSpec p currentFiles (prompt self) ;;
     addUsage (cTokensUsed result) (cCost result) ;;
     let existingFile :=
       find (fun f => String.eqb (file_path f) (path fileSpec)) currentFiles in
     dbCall env (RecordFileOperation (workspaceId self) (userId self) (sessionId self)
                   (match existingFile with Some _ => opUpdate | None => opCreate end)
                   (path fileSpec) (cContent result)) ;;
     dbCall env (UpsertFile (workspaceId self) (userId self) (path fileSpec)
                            (cContent result)) ;;
     pushFile (mkGeneratedFile (path fileSpec) (cContent result) false None) ;;
     w <- getWorld ;;
     updateSessionStatus env (sessionId self) generating
       (Some (mkSessionData None None (Some (List.length (generatedFiles w)))
                            None None None)) ;;
     logger Info "File generated" (sessionFileData (sessionId self) (path fileSpec)))
    (fun fileError =>
       logger Error "Failed to generate file"
              (sessionFileData (sessionId self) (path fileSpec))).

Fixpoint generateLoop (p : ProjectPlan) (sortedFiles : list FileSpec) : M unit :=
  match sortedFiles with
  | [] => ret tt
  | fileSpec :: rest => generateOne p fileSpec ;; generateLoop p rest
  end.

(** The [while (!isValid && validationAttempts < maxValidationRetries)]
    loop for the file at index [i], with
    [remaining = maxValidationRetries - validationAttempts] iterations
    left; returns the final [(isValid, validationAttempts)]. *)
Fixpoint validationLoop (i remaining validationAttempts : nat) : M (bool * nat) :=
  match remaining with
  | 0 => ret (false, validationAttempts)
  | S remaining' =>
      let validationAttempts := validationAttempts + 1 in
      file <- getFile i ;;
      validation <- validateFile env (gPath file) (gContent file) ;;
      addUsage (vTokensUsed validation) (vCost validation) ;;
      if valid validation then
        setFile i (mkGeneratedFile (gPath file) (gContent file) true (errors file)) ;;
        logger Info "File validated successfully" (fileData (gPath file)) ;;
        ret (true, validationAttempts)
      else
        logger Warn "Validation failed, attempting fix"
               (mkLogData None (Some (gPath file)) (Some validationAttempts)
                          (Some (issues validation))) ;;
        fixResult <- fix_ env (gPath file) (gContent file) (issues validation) ;;
        addUsage (fTokensUsed fixResult) (fCost fixResult) ;;
        setFile i (mkGeneratedFile (gPath file) (fContent fixResult) (validated file)
                                   (Some (issues validation))) ;;
        dbCall env (UpsertFile (workspaceId self) (userId self) (gPath file)
                               (fContent fixResult)) ;;
        validationLoop i remaining' validationAttempts
  end.

(** The body of [for (const file of generatedFiles)] for index [i]. *)
Definition validateOne (i : nat) : M unit :=
  r <- validationLoop i (maxValidationRetries self) 0 ;;
  if fst r then ret tt
  else
    file <- getFile i ;;
    logger Error "File validation failed after max retries"
           (mkLogData None (Some (gPath file)) (Some (snd r)) None).

Fixpoint forIndices (body : nat -> M unit) (i count : nat) : M unit :=
  match count with
  | 0 => ret tt
  | S count' => body i ;; forIndices body (S i) count'
  end.

Definition validatePhase : M unit :=
  w <- getWorld ;;
  forIndices validateOne 0 (List.length (generatedFiles w)).

Definition suggestPhase (p : ProjectPlan) : M (list Suggestion) :=
  tryCatch
    (w <- getWorld ;;
     suggestResult <- suggest env (map gPath (generatedFiles w)) (projectType p) ;;
     parsed <- liftResult (parseSuggestions env (content suggestResult)) ;;
     addUsage (totalTokens (usage suggestResult)) (cost suggestResult) ;;
     ret parsed)
    (fun error =>
       logger Warn "Failed to generate suggestions" noData ;;
       ret []).

Definition planPhase : M ProjectPlan :=
  logger Info "Phase 1: Architect - Planning" (sessionData (sessionId self)) ;;
  updateSessionStatus env (sessionId self) planning None ;;
  existingFiles <- getWorkspaceFiles env (workspaceId self) ;;
  planResult <- createPlan env (prompt self) existingFiles ;;
  addUsage (aTokensUsed planResult) (aCost planResult) ;;
  let p := aPlan planResult in
  updateSessionStatus env (sessionId self) scaffolding
    (Some (mkSessionData (Some p) (Some (List.length (files p))) None None None None)) ;;
  logger Info "Plan created" (sessionData (sessionId self)) ;;
  ret p.

Definition scaffoldPhase : M unit :=
  logger Info "Phase 2: Scaffolding" (sessionData (sessionId self)) ;;
  if truthyKey (template self) then applyTemplate (orDefault (template self) "")
  else ret tt.

Definition generatePhase (p : ProjectPlan) : M unit :=
  logger Info "Phase 3: Generating files" (sessionData (sessionId self)) ;;
  updateSessionStatus env (sessionId self) generating None ;;
  let sortedFiles := sortFilesByDependency (files p) in
  generateLoop p sortedFiles.

Definition completePhase (p : ProjectPlan) (sugg : list Suggestion)
  : M PipelineResult :=
  w <- getWorld ;;
  updateSessionStatus env (sessionId self) completed
    (Some (mkSessionData None None (Some (List.length (generatedFiles w))) None
                         (Some (totalTokens_ w)) (Some (creditsOf (totalCost w))))) ;;
  dbCall env (UpdateWorkspaceStatus (workspaceId self) "ready") ;;
  logger Info "Pipeline completed successfully" (sessionData (sessionId self)) ;;
  ret (mkPipelineResult true (Some p) (generatedFiles w) (totalTokens_ w)
                        (totalCost w) sugg None).

(** The [try] block of [run]. *)
Definition runBody : M PipelineResult :=
  p <- planPhase ;;
  scaffoldPhase ;;
  generatePhase p ;;
  logger Info "Phase 4: Validating" (sessionData (sessionId self)) ;;
  updateSessionStatus env (sessionId self) validating None ;;
  validatePhase ;;
  sugg <- suggestPhase p ;;
  completePhase p sugg.

(** The [catch] block of [run]. *)
Definition runCatch (error : JsValue) : M PipelineResult :=
  let errorMessage := errorMessageOf error in
  logger Error "Pipeline failed" (sessionData (sessionId self)) ;;
  w <- getWorld ;;
  updateSessionStatus env (sessionId self) failed
    (Some (mkSessionData None None None (Some errorMessage)
                         (Some (totalTokens_ w)) (Some (creditsOf (totalCost w))))) ;;
  dbCall env (UpdateWorkspaceStatus (workspaceId self) "error") ;;
  ret (mkPipelineResult false None (generatedFiles w) (totalTokens_ w)
                        (totalCost w) [] (Some errorMessage)).

Definition run : M PipelineResult :=
  modifyWorld (fun w => setFiles (setUsage w 0 0) []) ;;
  logger Info "Pipeline starting" (sessionData (sessionId self)) ;;
  tryCatch runBody runCatch.
End Run.

(* ===================================================================== *)
(** ** pipeline.ts: RefinementPipeline                                     *)
(* ===================================================================== *)

Section Refine.
Variable env : Env.

Let ai : BuildableAI := getBuildableAI.

Definition modifyOne (workspaceId userId : string)
           (existingFiles : list WorkspaceFile) (fileToModify : FileToModify)
  : M unit :=
  match find (fun f => String.eqb (file_path f) (mPath fileToModify)) existingFiles with
  | None => ret tt
  | Some existingFile =>
      modifyResult <- execute env ai (mkRequest CODING false None) ;;
      addUsage env (totalTokens (usage modifyResult)) (cost modifyResult) ;;
      pushFile (mkGeneratedFile (mPath fileToModify) (content modifyResult) false None) ;;
      dbCall env (UpsertFile workspaceId userId (mPath fileToModify)
                             (content modifyResult))
  end.

Definition createOne (workspaceId userId : string) (newFile : NewFile) : M unit :=
  createResult <- execute env ai (mkRequest CODING false None) ;;
  addUsage env (totalTokens (usage createResult)) (cost createResult) ;;
  pushFile (mkGeneratedFile (nPath newFile) (content createResult) false None) ;;
  dbCall env (UpsertFile workspaceId userId (nPath newFile) (content createResult)).

Fixpoint forEach {A} (body : A -> M unit) (l : list A) : M unit :=
  match l with
  | [] => ret tt
  | x :: rest => body x ;; forEach body rest
  end.

Definition refineCompleted (tokens : nat) (credits now : Z) : SessionUpdate :=
  mkSessionUpdate completed None None None None (Some tokens) (Some credits) (Some now).

Definition refineFailed (errorMessage : string) (now : Z) : SessionUpdate :=
  mkSessionUpdate failed None None None (Some errorMessage) None None (Some now).

Definition refineBody (sessionId workspaceId userId : string) : M PipelineResult :=
  existingFiles <- getWorkspaceFiles env workspaceId ;;
  analysisResult <- execute env ai (mkRequest REASONING true None) ;;
  addUsage env (totalTokens (usage analysisResult)) (cost analysisResult) ;;
  analysis <- liftResult (parseAnalysis env (content analysisResult)) ;;
  forEach (modifyOne workspaceId userId existingFiles) (filesToModify analysis) ;;
  forEach (createOne workspaceId userId) (newFiles analysis) ;;
  w <- getWorld ;;
  now <- Date_now env ;;
  dbCall env (UpdateSession sessionId
                (refineCompleted (totalTokens_ w) (creditsOf env (totalCost w)) now)) ;;
  ret (mkPipelineResult true None (generatedFiles w) (totalTokens_ w) (totalCost w)
                        [] None).

Definition refineCatch (sessionId : string) (error : JsValue) : M PipelineResult :=
  let errorMessage := errorMessageOf error in
  logger Error "Refinement failed" (sessionData sessionId) ;;
  now <- Date_now env ;;
  dbCall env (UpdateSession sessionId (refineFailed errorMessage now)) ;;
  w <- getWorld ;;
  ret (mkPipelineResult false None [] (totalTokens_ w) (totalCost w) []
                        (Some errorMessage)).

(** [RefinementPipeline.refine] *)
Definition refine (sessionId workspaceId userId : string) : M PipelineResult :=
  modifyWorld (fun w => setFiles (setUsage w 0 0) []) ;;
  tryCatch (refineBody sessionId workspaceId userId) (refineCatch sessionId).
End Refine.

(* ===================================================================== *)
(** ** models.ts: available providers and the model registry              *)
(* ===================================================================== *)

(** [Object.values(AIProvider)]: the members in declaration order. *)
Definition allProviders : list AIProvider := [GROK; OPENAI; GEMINI].

(** [getAvailableProviders()] *)
Definition getAvailableProviders (env : Env) : list AIProvider :=
  filter (isProviderAvailable env) allProviders.

Record ModelInfo : Type := mkModelInfo {
  miProvider : AIProvider;
  miModel : string;
  contextWindow : Z;
  supportsStreaming : bool;
  supportsImages : bool
}.

(** [ModelRegistry]: the entries of the object literal, in source order
    (the keys are pairwise different). *)
Definition ModelRegistry : list (string * ModelInfo) :=
  [(GrokModels.GROK_4_1_FAST,
    mkModelInfo GROK GrokModels.GROK_4_1_FAST 2000000 true false);
   (GrokModels.GROK_CODE_FAST_1,
    mkModelInfo GROK GrokModels.GROK_CODE_FAST_1 2000000 true false);
   (GrokModels.GROK_VISION,
    mkModelInfo GROK GrokModels.GROK_VISION 128000 true true);
   (OpenAIModels.GPT_5,
    mkModelInfo OPENAI OpenAIModels.GPT_5 256000 true true);
   (OpenAIModels.GPT_5_MINI,
    mkModelInfo OPENAI OpenAIModels.GPT_5_MINI 128000 true true);
   (OpenAIModels.GPT_5_NANO,
    mkModelInfo OPENAI OpenAIModels.GPT_5_NANO 64000 true false);
   (OpenAIModels.GPT_5_2,
    mkModelInfo OPENAI OpenAIModels.GPT_5_2 256000 true true);
   (GeminiModels.GEMINI_2_5_FLASH,
    mkModelInfo GEMINI GeminiModels.GEMINI_2_5_FLASH 1000000 true true);
   (GeminiModels.GEMINI_2_5_PRO,
    mkModelInfo GEMINI GeminiModels.GEMINI_2_5_PRO 2000000 true true);
   (GeminiModels.GEMINI_3_FLASH_PREVIEW,
    mkModelInfo GEMINI GeminiModels.GEMINI_3_FLASH_PREVIEW 1000000 true true);
   (GeminiModels.GEMINI_3_PRO_PREVIEW,
    mkModelInfo GEMINI GeminiModels.GEMINI_3_PRO_PREVIEW 2000000 true true)]%Z.

(** The value stored under an own key of an object literal given by its
    entries. *)
Fixpoint assoc {A} (key : string) (entries : list (string * A)) : option A :=
  match entries with
  | [] => None
  | (k, v) :: rest => if String.eqb key k then Some v else assoc key rest
  end.

(* ===================================================================== *)
(** ** String helpers                                                      *)
(* ===================================================================== *)

(** Strings are ASCII text; the characters that the sources single out. *)
Definition dot : ascii := ascii_of_nat 46.
Definition newline : ascii := ascii_of_nat 10.
Definition carriageReturn : ascii := ascii_of_nat 13.
Definition doubleQuote : ascii := ascii_of_nat 34.
Definition nl : string := String newline EmptyString.

(** [s.startsWith(p)] *)
Definition startsWith (p s : string) : bool := String.prefix p s.

(** [s.endsWith(suffix)] *)
Fixpoint endsWith (suffix s : string) : bool :=
  String.eqb suffix s ||
  match s with
  | EmptyString => false
  | String _ rest => endsWith suffix rest
  end.

(** [s.slice(n)] for [0 <= n] *)
Fixpoint slice (n : nat) (s : string) : string :=
  match n, s with
  | 0, _ => s
  | S n', String _ rest => slice n' rest
  | S _, EmptyString => EmptyString
  end.

(** [(s.match(/c/g) || []).length] for a single character [c] *)
Fixpoint countChar (c : ascii) (s : string) : nat :=
  match s with
  | EmptyString => 0
  | String a rest => (if Ascii.eqb a c then 1 else 0) + countChar c rest
  end.

(** White space and line terminators of ASCII: tab, line feed, vertical
    tab, form feed, carriage return, space. *)
Definition isWhiteSpace (c : ascii) : bool :=
  let n := nat_of_ascii c in
  ((9 <=? n) && (n <=? 13)) || (n =? 32).

(** [\w] of a regular expression: letters, digits and the underscore. *)
Definition isWordChar (c : ascii) : bool :=
  let n := nat_of_ascii c in
  ((48 <=? n) && (n <=? 57)) || ((65 <=? n) && (n <=? 90)) ||
  ((97 <=? n) && (n <=? 122)) || (n =? 95).

Fixpoint trimStart (s : string) : string :=
  match s with
  | EmptyString => EmptyString
  | String c rest => if isWhiteSpace c then trimStart rest else s
  end.

Fixpoint trimEnd (s : string) : string :=
  match s with
  | EmptyString => EmptyString
  | String c rest =>
      match trimEnd rest with
      | EmptyString => if isWhiteSpace c then EmptyString else String c EmptyString
      | kept => String c kept
      end
  end.

(** [s.trim()] *)
Definition trim (s : string) : string := trimEnd (trimStart s).

(** [path.split('.').pop()]: the text after the last dot; the whole string
    when it has no dot. *)
Fixpoint afterLastDot (s : string) : option string :=
  match s with
  | EmptyString => None
  | String c rest =>
      match afterLastDot rest with
      | Some t => Some t
      | None => if Ascii.eqb c dot then Some rest else None
      end
  end.

Definition lastSegment (s : string) : string :=
  match afterLastDot s with
  | Some t => t
  | None => s
  end.

(** What reading a property of an object literal with string values gives:
    the string stored under an own key, or the member inherited from
    [Object.prototype] when the key names one ([undefined] is [None]). *)
Inductive PropertyValue : Type :=
| OwnString (value : string)
| PrototypeMember (key : string).

(** The property names of [Object.prototype]. *)
Definition objectPrototypeKeys : list string :=
  ["constructor"; "__defineGetter__"; "__defineSetter__"; "hasOwnProperty";
   "__lookupGetter__"; "__lookupSetter__"; "isPrototypeOf";
   "propertyIsEnumerable"; "toString"; "valueOf"; "__proto__"; "toLocaleString"].

(** [literal[key]] for an object literal with the given own entries. *)
Definition getProperty (entries : list (string * string)) (key : string)
  : option PropertyValue :=
  match assoc key entries with
  | Some v => Some (OwnString v)
  | None =>
      if existsb (String.eqb key) objectPrototypeKeys then Some (PrototypeMember key)
      else None
  end.

(** [literal[key] || 'text']: the own values of the two type maps are
    non-empty strings and the inherited members are objects, so whatever
    is found is truthy. *)
Definition typeOrText (entries : list (string * string)) (key : string)
  : PropertyValue :=
  match getProperty entries key with
  | Some v => v
  | None => OwnString "text"
  end.

(* ===================================================================== *)
(** ** pipeline.ts: file types                                             *)
(* ===================================================================== *)

(** The [typeMap] literal of [GenerationPipeline.getFileType]. *)
Definition typeMap : list (string * string) :=
  [("ts", "typescript"); ("tsx", "typescript-react"); ("js", "javascript");
   ("jsx", "javascript-react"); ("css", "css"); ("scss", "scss");
   ("html", "html"); ("json", "json"); ("md", "markdown"); ("py", "python");
   ("vue", "vue"); ("svelte", "svelte")].

(** [GenerationPipeline.getFileType(path)] *)
Definition getFileType (filePath : string) : PropertyValue :=
  let ext := toLowerCase (lastSegment filePath) in
  typeOrText typeMap ext.

(* ===================================================================== *)
(** ** coder.ts, validator.ts: cleaning up the generated text              *)
(* ===================================================================== *)

Definition fence : string := "```".

Fixpoint dropWordChars (s : string) : string :=
  match s with
  | EmptyString => EmptyString
  | String c rest => if isWordChar c then dropWordChars rest else s
  end.

Definition dropOneNewline (s : string) : string :=
  match s with
  | String c rest => if Ascii.eqb c newline then rest else s
  | EmptyString => EmptyString
  end.

(** [s.replace(/^```\w*\n?/, '')] *)
Definition dropOpeningFence (s : string) : string :=
  if startsWith fence s then dropOneNewline (dropWordChars (slice 3 s)) else s.

(** [s.replace(/\n?```$/, '')]: the match is the text from the first
    position at which the rest of the string is the fence, with or without
    a line feed in front of it. *)
Fixpoint dropClosingFence (s : string) : string :=
  if String.eqb s (nl ++ fence) || String.eqb s fence then EmptyString
  else match s with
       | EmptyString => EmptyString
       | String c rest => String c (dropClosingFence rest)
       end.

(** The clean-up of [Coder.generateFile], [Coder.generateDiff] (first
    version of coder.ts) and [Validator.fix]:
    [let c = content.trim(); if (c.startsWith('```')) c = c.replace(..).replace(..)]. *)
Definition stripMarkdownFence (text : string) : string :=
  let cleanContent := trim text in
  if startsWith fence cleanContent then
    dropClosingFence (dropOpeningFence cleanContent)
  else cleanContent.

(** The alternatives of the regular expression of [cleanCodeOutput]. *)
Definition codeStarters : list string :=
  ["import "; "//"; "/*"; "'use "; String doubleQuote "use "; "const "; "let ";
   "var "; "function "; "export "; "interface "; "type "; "enum "; "class "].

Definition isLineTerminator (c : ascii) : bool :=
  Ascii.eqb c newline || Ascii.eqb c carriageReturn.

(** [s.search(/^(?:import |...)/m)] from position [i], where
    [atLineStart] says whether [^] matches at [i]; [None] is [-1]. *)
Fixpoint searchCodeStartFrom (atLineStart : bool) (i : nat) (s : string)
  : option nat :=
  if atLineStart && existsb (fun k => startsWith k s) codeStarters then Some i
  else match s with
       | EmptyString => None
       | String c rest => searchCodeStartFrom (isLineTerminator c) (S i) rest
       end.

Definition searchCodeStart (s : string) : option nat :=
  searchCodeStartFrom true 0 s.

(** [Coder.cleanCodeOutput(content)] (second version of coder.ts) *)
Definition cleanCodeOutput (text : string) : string :=
  let cleaned := trim text in
  let cleaned :=
    if startsWith fence cleaned then dropClosingFence (dropOpeningFence cleaned)
    else cleaned in
  let cleaned :=
    match searchCodeStart cleaned with
    | Some (S i) => slice (S i) cleaned
    | _ => cleaned
    end in
  trim cleaned.

(* ===================================================================== *)
(** ** coder.ts: batch generation                                          *)
(* ===================================================================== *)

(** The comparator of [generateBatch]:
    [(a.priority ?? 99) - (b.priority ?? 99)]. *)
Definition compareBatch (a b : FileSpec) : Z :=
  (orDefault (priority a) 99 - orDefault (priority b) 99)%Z.

(** [map.set(key, value)] on a [Map] given by its entries in insertion
    order: an existing key keeps its place. *)
Fixpoint mapSet {A} (key : string) (value : A) (entries : list (string * A))
  : list (string * A) :=
  match entries with
  | [] => [(key, value)]
  | (k, v) :: rest =>
      if String.eqb key k then (k, value) :: rest else (k, v) :: mapSet key value rest
  end.

Section Batch.
Variable env : Env.

(** The [for] loop of [Coder.generateBatch]: besides the outcome it returns
    the [existingFiles] array, which the loop extends in place and which
    belongs to the caller. *)
Fixpoint batchLoop (p : ProjectPlan) (originalPrompt : string)
         (sortedFiles : list FileSpec) (results : list (string * CoderResult))
         (existingFiles : list WorkspaceFile) (w : World)
  : Result (list (string * CoderResult)) * list WorkspaceFile * World * list Event :=
  match sortedFiles with
  | [] => (Ok results, existingFiles, w, [])
  | fileSpec :: rest =>
      match generateFile env fileSpec p existingFiles originalPrompt w with
      | (Throw e, w1, t1) => (Throw e, existingFiles, w1, t1)
      | (Ok result, w1, t1) =>
          let '(r, existing2, w2, t2) :=
            batchLoop p originalPrompt rest
                      (mapSet (path fileSpec) result results)
                      (existingFiles ++ [mkWorkspaceFile (path fileSpec) (cContent result)])
                      w1 in
          (r, existing2, w2, t1 ++ t2)
      end
  end.

(** [Coder.generateBatch(files, plan, existingFiles, originalPrompt)] *)
Definition generateBatch (fileSpecs : list FileSpec) (p : ProjectPlan)
           (existingFiles : list WorkspaceFile) (originalPrompt : string) (w : World)
  : Result (list (string * CoderResult)) * list WorkspaceFile * World * list Event :=
  let sortedFiles := sortBy compareBatch fileSpecs in
  batchLoop p originalPrompt sortedFiles [] existingFiles w.
End Batch.

(* ===================================================================== *)
(** ** validator.ts                                                        *)
(* ===================================================================== *)

Inductive Severity : Type := SevError | SevWarning.

Record ValidationError : Type := mkValidationError {
  veFile : string;
  veMessage : string;
  veSeverity : Severity
}.

Record Repair : Type := mkRepair {
  repairPath : string;
  repairContent : string;
  repairReason : string
}.

Record LegacyValidationResult : Type := mkLegacyResult {
  legacyValid : bool;
  legacyErrors : list ValidationError;
  legacyWarnings : list ValidationError;
  legacyRepairs : list Repair
}.

Record BatchValidationResult : Type := mkBatchResult {
  batchErrors : list (string * list string);
  batchRepairs : list (string * string);
  batchTokensUsed : nat;
  batchCost : Q
}.

Record QuickCheckResult : Type := mkQuickCheck {
  quickValid : bool;
  quickError : option string
}.

Definition isSevError (e : ValidationError) : bool :=
  match veSeverity e with SevError => true | SevWarning => false end.

Definition isSevWarning (e : ValidationError) : bool :=
  match veSeverity e with SevWarning => true | SevError => false end.

(** The decimal numeral that a template literal prints for a count. *)
Definition showNat (n : nat) : string := NilEmpty.string_of_uint (Nat.to_uint n).

Module Validator.

Module ValidationRules.
Definition typescript : list string :=
  ["Check for TypeScript syntax errors";
   "Verify all imports are valid and accessible";
   "Ensure proper type annotations";
   "Check for unused variables and imports";
   "Verify async/await usage is correct"].

Definition react : list string :=
  ["Verify JSX syntax is valid";
   "Check hook rules (no conditionals around hooks)";
   "Ensure proper component naming (PascalCase)";
   "Verify key props in lists";
   "Check for proper event handler types"].

Definition security : list string :=
  ["No hardcoded API keys or secrets";
   "No dangerouslySetInnerHTML without sanitization";
   "No eval() or Function() with user input";
   "Proper input validation";
   "No exposed sensitive endpoints"].

Definition bestPractices : list string :=
  ["Components should be under 200 lines";
   "Proper error handling with try/catch";
   "Loading and error states handled";
   "Accessible components (ARIA labels where needed)";
   "Semantic HTML elements used appropriately"].
End ValidationRules.

(** The [typeMap] literal of [Validator.getFileType]. *)
Definition typeMap : list (string * string) :=
  [("ts", "typescript"); ("tsx", "typescript-react"); ("js", "javascript");
   ("jsx", "javascript-react"); ("css", "css"); ("scss", "scss");
   ("vue", "vue"); ("svelte", "svelte"); ("py", "python"); ("dart", "dart")].

(** [Validator.getFileType(path)] *)
Definition getFileType (filePath : string) : PropertyValue :=
  let ext := toLowerCase (lastSegment filePath) in
  typeOrText typeMap ext.

(** [Validator.getRulesForFileType(fileType)].  The argument is what
    [getFileType] returned; calling [includes] on an inherited member (a
    function or an object, not a string) is a [TypeError]. *)
Definition getRulesForFileType (fileType : PropertyValue) : Result (list string) :=
  match fileType with
  | PrototypeMember _ => Throw (ErrorObj "fileType.includes is not a function")
  | OwnString t =>
      Ok (ValidationRules.security ++ ValidationRules.bestPractices ++
          (if includes "typescript" t then ValidationRules.typescript else []) ++
          (if includes "react" t || String.eqb t "tsx" || String.eqb t "jsx"
           then ValidationRules.react else []))
  end.

(** [Validator.isCodeFile(filePath)]:
    [/\.(ts|tsx|js|jsx|css|json)$/.test(filePath)] *)
Definition isCodeFile (filePath : string) : bool :=
  existsb (fun ext => endsWith (String dot ext) filePath)
          ["ts"; "tsx"; "js"; "jsx"; "css"; "json"].

(** [Validator.validateFileSync(file)] *)
Definition validateFileSync (file : WorkspaceFile) : list ValidationError :=
  if endsWith ".tsx" (file_path file) || endsWith ".ts" (file_path file) then
    let openBrackets := countChar "{" (wContent file) in
    let closeBrackets := countChar "}" (wContent file) in
    (if Nat.eqb openBrackets closeBrackets then []
     else [mkValidationError
             (file_path file)
             ("Unmatched brackets: " ++ showNat openBrackets ++ " open, " ++
              showNat closeBrackets ++ " close")
             SevError]) ++
    (if includes "console.log" (wContent file) then
       [mkValidationError (file_path file) "Contains console.log statements" SevWarning]
     else []) ++
    (if includes ": any" (wContent file) then
       [mkValidationError (file_path file) "Contains explicit any type" SevWarning]
     else []) ++
    (if includes "/components/" (file_path file) && negb (includes "export" (wContent file))
     then [mkValidationError (file_path file) "Component file has no exports" SevError]
     else [])
  else [].

Definition reactImport : string := "import React from 'react';" ++ nl.

(** [Validator.attemptRepair(file, errors, allFiles)] *)
Definition attemptRepair (file : WorkspaceFile) (fileErrors : list ValidationError)
           (allFiles : list WorkspaceFile) : option Repair :=
  if Nat.eqb (List.length fileErrors) 0 then None
  else if endsWith ".tsx" (file_path file) && negb (includes "from 'react'" (wContent file))
       then Some (mkRepair (file_path file) (reactImport ++ wContent file)
                           "Added missing React import")
       else None.

Section Legacy.
(** [importPaths content] is the list of the module paths that the
    successive matches of the import regular expression of
    [validateImports] capture in [content] (the quoted text after [from]):
    the regular expression search itself is not modelled. *)
Variable importPaths : string -> list string.

(** [Validator.validateImports(file, allFiles)] *)
Definition validateImports (file : WorkspaceFile) (allFiles : list WorkspaceFile)
  : list ValidationError :=
  flat_map
    (fun importPath =>
       if negb (startsWith "." importPath) && negb (startsWith "@/" importPath) then []
       else if startsWith "@/" importPath then
         let relativePath := ("src/" ++ slice 2 importPath)%string in
         let found :=
           existsb (fun f =>
                      String.eqb (file_path f) relativePath ||
                      String.eqb (file_path f) (relativePath ++ ".ts") ||
                      String.eqb (file_path f) (relativePath ++ ".tsx") ||
                      String.eqb (file_path f) (relativePath ++ "/index.ts") ||
                      String.eqb (file_path f) (relativePath ++ "/index.tsx"))
                   allFiles in
         if found then []
         else [mkValidationError (file_path file) ("Import not found: " ++ importPath)
                                 SevWarning]
       else [])
    (importPaths (wContent file)).

(** The body of the [for] loop of [Validator.validate], on the three
    arrays that it fills. *)
Definition validateStep (files : list WorkspaceFile)
           (acc : list ValidationError * list ValidationError * list Repair)
           (file : WorkspaceFile)
  : list ValidationError * list ValidationError * list Repair :=
  let '(errs, warns, reps) := acc in
  if negb (isCodeFile (file_path file)) then acc
  else
    let fileErrors := validateFileSync file in
    let errs := errs ++ filter isSevError fileErrors in
    let warns := warns ++ filter isSevWarning fileErrors in
    let importIssues := validateImports file files in
    let errs := errs ++ importIssues in
    match attemptRepair file fileErrors files with
    | Some repair => (errs, warns, reps ++ [repair])
    | None => (errs, warns, reps)
    end.

(** [Validator.validate(files)], the legacy method *)
Definition validate (files : list WorkspaceFile) : M LegacyValidationResult :=
  let '(errs, warns, reps) := fold_left (validateStep files) files ([], [], []) in
  logger Info "Validation complete" noData ;;
  ret (mkLegacyResult (Nat.eqb (List.length errs) 0) errs warns reps).
End Legacy.

Section Ai.
Variable env : Env.

Let ai : BuildableAI := getBuildableAI.

(** [Validator.validateFile(filePath, content, rules?)], with the choice
    of the rules that precedes the provider call. *)
Definition validateFile (filePath fileContent : string) (rules : option (list string))
  : M ValidationResult :=
  let fileType := getFileType filePath in
  applicableRules <-
    liftResult (match rules with
                | Some given => Ok given
                | None => getRulesForFileType fileType
                end) ;;
  logger Info "Validating file with AI" (fileData filePath) ;;
  response <- execute env ai (mkRequest VALIDATION true (Some 2000%Z)) ;;
  result <- liftResult (parseValidation env (content response)) ;;
  logger Info "AI validation complete" (fileData filePath) ;;
  ret (mkValidationResult (jValid result) (jIssues result) (jSuggestions result)
                          (totalTokens (usage response)) (cost response)).

(** The [for] loop of [Validator.validateAll], on its four accumulators. *)
Fixpoint validateAllLoop (files : list WorkspaceFile) (acc : BatchValidationResult)
  : M BatchValidationResult :=
  match files with
  | [] => ret acc
  | file :: rest =>
      if negb (isCodeFile (file_path file)) then validateAllLoop rest acc
      else
        result <- validateFile (file_path file) (wContent file) None ;;
        let totalTokens := batchTokensUsed acc + vTokensUsed result in
        let totalCost := fadd env (batchCost acc) (vCost result) in
        if negb (valid result) && (0 <? List.length (issues result)) then
          fixResult <- fix_ env (file_path file) (wContent file) (issues result) ;;
          validateAllLoop rest
            (mkBatchResult
               (batchErrors acc ++ [(file_path file, issues result)])
               (batchRepairs acc ++ [(file_path file, fContent fixResult)])
               (totalTokens + fTokensUsed fixResult)
               (fadd env totalCost (fCost fixResult)))
        else
          validateAllLoop rest
            (mkBatchResult (batchErrors acc) (batchRepairs acc) totalTokens totalCost)
  end.

(** [Validator.validateAll(files)] *)
Definition validateAll (files : list WorkspaceFile) : M BatchValidationResult :=
  validateAllLoop files (mkBatchResult [] [] 0 0).
End Ai.

(** [Validator.quickCheck(filePath, content)]: nothing in the [try] block
    throws on strings, so the [catch] block is never entered. *)
Definition quickCheck (filePath fileContent : string) : QuickCheckResult :=
  let fileType := getFileType filePath in
  let isType (name : string) :=
    match fileType with
    | OwnString t => String.eqb t name
    | PrototypeMember _ => false
    end in
  if isType "typescript" || isType "javascript" then
    if includes "import" fileContent && negb (includes "from" fileContent) then
      mkQuickCheck false (Some "Incomplete import statement")
    else if negb (Nat.eqb (countChar "{" fileContent) (countChar "}" fileContent)) then
      mkQuickCheck false (Some "Mismatched braces")
    else if negb (Nat.eqb (countChar "(" fileContent) (countChar ")" fileContent)) then
      mkQuickCheck false (Some "Mismatched parentheses")
    else mkQuickCheck true None
  else mkQuickCheck true None.

End Validator.

(* ===================================================================== *)
(** ** credits.ts: request rate limiting                                   *)
(* ===================================================================== *)

Record RateWindow : Type := mkRateWindow {
  requestCount : nat;
  windowStart : Z
}.

(** The module-level [requestCounts] map. *)
Definition RateMap : Type := string -> option RateWindow.

Definition emptyRateMap : RateMap := fun _ => None.

(** [requestCounts.set(key, entry)] *)
Definition rateSet (key : string) (entry : RateWindow) (m : RateMap) : RateMap :=
  fun k => if String.eqb k key then Some entry else m k.

Definition rateLimitWindow : Z := 60 * 1000.
Definition maxRequestsPerWindow : nat := 30.

(** What the middleware does with the request: it goes on to [next()], or
    it answers 429 with [retryAfter]. *)
Inductive RateOutcome : Type :=
| CallsNext
| TooManyRequests (retryAfter : Z).

(** [c.get('userId') || c.req.header('x-forwarded-for') || 'anonymous'] *)
Definition rateKey (userId forwardedFor : option string) : string :=
  if truthyKey userId then orDefault userId ""
  else if truthyKey forwardedFor then orDefault forwardedFor ""
  else "anonymous".

Section RateLimit.
Variable env : Env.

(** [rateLimitMiddleware(c, next)], as a transition of the [requestCounts]
    map: [now] is what [Date.now()] returns.  The warning that is logged
    with the 429 answer is left out. *)
Definition rateLimitMiddleware (userId forwardedFor : option string) (now : Z)
           (requestCounts : RateMap) : RateOutcome * RateMap :=
  let key := rateKey userId forwardedFor in
  match requestCounts key with
  | None => (CallsNext, rateSet key (mkRateWindow 1 now) requestCounts)
  | Some userLimit =>
      if (now - windowStart userLimit >? rateLimitWindow)%Z then
        (CallsNext, rateSet key (mkRateWindow 1 now) requestCounts)
      else if maxRequestsPerWindow <=? requestCount userLimit then
        let resetIn :=
          Qceiling (fdiv env (inject_Z (windowStart userLimit + rateLimitWindow - now))
                         1000) in
        (TooManyRequests resetIn, requestCounts)
      else
        (CallsNext,
         rateSet key (mkRateWindow (requestCount userLimit + 1) (windowStart userLimit))
                 requestCounts)
  end.
End RateLimit.

(* ===================================================================== *)
(** ** buildable-ai.ts: streaming                                          *)
(* ===================================================================== *)

Record BuildableAIStreamChunk : Type := mkChunk {
  chunkContent : string;
  chunkDone : bool
}.

(** A chunk of an OpenAI-compatible stream, as far as it is read:
    [choices[0]?.delta?.content] and [choices[0]?.finish_reason]. *)
Record CompletionChunk : Type := mkCompletionChunk {
  deltaContent : option string;
  finishReason : option string
}.

(** What iterating an SDK stream delivers: the chunks, and the error that
    ends the iteration if it does not end normally. *)
Record SdkStream (A : Type) : Type := mkSdkStream {
  delivered : list A;
  failure : option JsValue
}.
Arguments mkSdkStream {A} delivered failure.
Arguments delivered {A} s.
Arguments failure {A} s.

(** The streaming endpoints of the provider SDKs:
    [openStream n p m req] is the outcome of the [n]-th SDK call of the run
    when it is [chat.completions.create({ ..., stream: true })] on the client
    of provider [p]; [geminiStreamOf n m req] is the outcome of
    [generateContentStream], each chunk being the outcome of its [text()]. *)
Record StreamSdk : Type := mkStreamSdk {
  openStream : nat -> AIProvider -> string -> BuildableAIRequest
               -> Result (SdkStream CompletionChunk);
  geminiStreamOf : nat -> string -> BuildableAIRequest
                   -> Result (SdkStream (Result string))
}.

(** An async generator, run until it returns or throws: the chunks that it
    yields, how it ends, the state and the trace. *)
Definition Gen (A : Type) : Type :=
  World -> list A * Result unit * World * list Event.

Definition yielded {A} (x : list A * Result unit * World * list Event) : list A :=
  fst (fst (fst x)).
Definition endOf {A} (x : list A * Result unit * World * list Event) : Result unit :=
  snd (fst (fst x)).
Definition genTrace {A} (x : list A * Result unit * World * list Event) : list Event :=
  snd x.

Definition genThrow {A} (e : JsValue) : Gen A := fun w => ([], Throw e, w, []).

(** The generator that first runs [m] and goes on with [g] if [m] returns. *)
Definition genAfter {A B} (m : M B) (g : B -> Gen A) : Gen A :=
  fun w =>
    match m w with
    | (Throw e, w1, t1) => ([], Throw e, w1, t1)
    | (Ok b, w1, t1) =>
        let '(ys, r, w2, t2) := g b w1 in (ys, r, w2, t1 ++ t2)
    end.

(** [{ content: chunk.choices[0]?.delta?.content || '',
       done: chunk.choices[0]?.finish_reason === 'stop' }] *)
Definition chunkOfCompletion (chunk : CompletionChunk) : BuildableAIStreamChunk :=
  mkChunk (orDefault (deltaContent chunk) "")
          (match finishReason chunk with
           | Some reason => String.eqb reason "stop"
           | None => false
           end).

(** The [for await] loop of [streamGemini] and the final chunk: a chunk
    whose [text()] throws ends the generator. *)
Fixpoint geminiChunks (chunks : list (Result string)) (ending : option JsValue)
  : list BuildableAIStreamChunk * Result unit :=
  match chunks with
  | [] =>
      match ending with
      | Some e => ([], Throw e)
      | None => ([mkChunk "" true], Ok tt)
      end
  | Ok text :: rest =>
      let '(ys, r) := geminiChunks rest ending in (mkChunk text false :: ys, r)
  | Throw e :: _ => ([], Throw e)
  end.

Section Streaming.
Variable env : Env.
Variable sdk : StreamSdk.

(** The streaming SDK call: it consults the oracle at the current call
    number and counts as a provider call. *)
Definition sdkStreamCall {A} (oracle : nat -> Result (SdkStream A))
           (p : AIProvider) (m : string) (request : BuildableAIRequest)
  : M (SdkStream A) :=
  fun w =>
    (oracle (nProvider w),
     mkWorld (S (nProvider w)) (nDb w) (totalTokens_ w) (totalCost w) (generatedFiles w),
     [EvProviderCall p m (task request)]).

(** [streamOpenAICompatible(client, model, request)], [client] being the
    client of provider [p] *)
Definition streamOpenAICompatible (p : AIProvider) (m : string)
           (request : BuildableAIRequest) : Gen BuildableAIStreamChunk :=
  genAfter (sdkStreamCall (fun n => openStream sdk n p m request) p m request)
           (fun s w =>
              (map chunkOfCompletion (delivered s),
               match failure s with Some e => Throw e | None => Ok tt end,
               w, [])).

(** [streamGemini(model, request)] *)
Definition streamGemini (m : string) (request : BuildableAIRequest)
  : Gen BuildableAIStreamChunk :=
  genAfter (getGeminiClient env ;;
            sdkStreamCall (fun n => geminiStreamOf sdk n m request) GEMINI m request)
           (fun s w =>
              let '(ys, r) := geminiChunks (delivered s) (failure s) in (ys, r, w, [])).

(** [streamWithProvider(provider, model, request)] *)
Definition streamWithProvider (p : AIProvider) (m : string)
           (request : BuildableAIRequest) : Gen BuildableAIStreamChunk :=
  match p with
  | GROK => genAfter (getGrokClient env) (fun _ => streamOpenAICompatible GROK m request)
  | OPENAI => genAfter (getOpenAIClient env) (fun _ => streamOpenAICompatible OPENAI m request)
  | GEMINI => streamGemini m request
  end.

(** [BuildableAI.stream(request)] *)
Definition stream (request : BuildableAIRequest) : Gen BuildableAIStreamChunk :=
  let routing := ModelRouting (task request) in
  let chosen :=
    if isProviderAvailable env (provider routing) then Some (provider routing)
    else option_map cProvider (fallback routing) in
  match chosen with
  | None => genThrow (noProviders request)
  | Some p =>
      if negb (isProviderAvailable env p) then genThrow (noProviders request)
      else if AIProvider_eqb p (provider routing) then
        streamWithProvider p (model routing) request
      else
        match fallback routing with
        | Some fb => streamWithProvider p (cModel fb) request
        | None =>
            genThrow (ErrorObj "Cannot read properties of undefined (reading 'model')")
        end
  end.
End Streaming.

(* ===================================================================== *)
(** ** Observations on traces                                             *)
(* ===================================================================== *)

(** The (provider, model) pairs of the provider calls of a trace, in order. *)
Definition providerCallsOf (t : list Event) : list Candidate :=
  flat_map (fun e => match e with
                     | EvProviderCall p m _ => [mkCandidate p m]
                     | _ => []
                     end) t.

Definition isCallOrDelay (e : Event) : bool :=
  match e with
  | EvProviderCall _ _ _ | EvDelay _ => true
  | _ => false
  end.

Definition callsAndDelays (t : list Event) : list Event := filter isCallOrDelay t.

Definition primaryOf (request : BuildableAIRequest) : Candidate :=
  mkCandidate (provider (ModelRouting (task request)))
              (model (ModelRouting (task request))).

Definition primaryFailedLog : Event :=
  EvLog Warn "Primary provider failed, attempting fallback" noData.

Definition fallbackFailedLog : Event :=
  EvLog Error "Fallback provider also failed" noData.

Definition rateLimitedLog (attempt : nat) : Event :=
  EvLog Warn "Rate limited, will retry" (attemptData attempt).

(** The shape of the calls and delays of [n] attempts on one candidate of
    which the first [d] were followed by a back-off delay. *)
Definition attemptsShapeFrom (p : AIProvider) (m : string) (t : TaskType)
           (base from n d : nat) : list Event :=
  flat_map (fun k => EvProviderCall p m t ::
                     if k <? d then [EvDelay (base * (k + 1))] else [])
           (seq from n).

Definition attemptsShape (p : AIProvider) (m : string) (t : TaskType)
           (base n d : nat) : list Event :=
  attemptsShapeFrom p m t base 0 n d.

(** The payloads handed to [db.updateSession], in order. *)
Definition sessionUpdatesOf (t : list Event) : list SessionUpdate :=
  flat_map (fun e => match e with
                     | EvDb (UpdateSession _ u) => [u]
                     | _ => []
                     end) t.

Definition statusWrites (t : list Event) : list SessionStatus :=
  map status (sessionUpdatesOf t).

(** The last status handed to [db.updateSession] in a trace. *)
Definition finalStatus (t : list Event) : option SessionStatus :=
  last (map Some (statusWrites t)) None.

Definition SessionStatus_eqb (a b : SessionStatus) : bool :=
  match a, b with
  | pending, pending | planning, planning | scaffolding, scaffolding
  | generating, generating | validating, validating
  | completed, completed | failed, failed => true
  | _, _ => false
  end.

(** The sequence of states gone through: consecutive rewrites of the same
    status count once. *)
Fixpoint collapse (l : list SessionStatus) : list SessionStatus :=
  match l with
  | [] => []
  | a :: l' =>
      match l' with
      | [] => [a]
      | b :: _ => if SessionStatus_eqb a b then collapse l' else a :: collapse l'
      end
  end.

(** Modelled from the spec: the status of a session when the run starts.
    The session row is inserted by [createSession] of [db/queries.ts], which
    is not among the sources; the specification's state machine starts in
    [pending]. *)
Definition initialStatus : SessionStatus := pending.

(** The status writes of a run that generated [k] files and completed. *)
Definition successfulWrites (k : nat) : list SessionStatus :=
  [planning; scaffolding; generating] ++ repeat generating k ++ [validating; completed].

(** The paths announced by the generate loop ("Generating file", with the
    session id), in order: one per loop iteration. *)
Definition attemptedPaths (t : list Event) : list string :=
  flat_map (fun e =>
              match e with
              | EvLog Info msg d =>
                  if String.eqb msg "Generating file" then
                    match logSession d, logFile d with
                    | Some _, Some p => [p]
                    | _, _ => []
                    end
                  else []
              | _ => []
              end) t.

(** Number of [validateFile] calls in a trace: each one starts by logging
    "Validating file with AI". *)
Definition isValidationStart (e : Event) : bool :=
  match e with
  | EvLog Info msg _ => String.eqb msg "Validating file with AI"
  | _ => false
  end.

Definition validationsOf (t : list Event) : nat :=
  List.length (filter isValidationStart t).

(** The issue lists reported by the failed validations of a trace, in order
    (the [errors] field of the "Validation failed, attempting fix" records). *)
Definition loggedIssues (t : list Event) : list (list string) :=
  flat_map (fun e =>
              match e with
              | EvLog Warn msg d =>
                  if String.eqb msg "Validation failed, attempting fix" then
                    match logIssues d with Some l => [l] | None => [] end
                  else []
              | _ => []
              end) t.

Definition validatedLog (filePath : string) : Event :=
  EvLog Info "File validated successfully" (fileData filePath).

Definition exhaustedLog (filePath : string) (attempts : nat) : Event :=
  EvLog Error "File validation failed after max retries"
        (mkLogData None (Some filePath) (Some attempts) None).

(** The run returned normally with [success: true]. *)
Definition runSucceeded (r : Result PipelineResult) : bool :=
  match r with
  | Ok res => success res
  | Throw _ => false
  end.

Definition filesOf (r : Result PipelineResult) : list GeneratedFile :=
  match r with
  | Ok res => resultFiles res
  | Throw _ => []
  end.

Definition fileAt (i : nat) (w : World) : GeneratedFile :=
  nth i (generatedFiles w) dummyFile.

(* ===================================================================== *)
(** ** Auxiliary views of the code                                        *)
(* ===================================================================== *)

Definition keyMissing (p : AIProvider) : JsValue :=
  match p with
  | GROK => ErrorObj "GROK_API_KEY is not configured"
  | OPENAI => ErrorObj "OPENAI_API_KEY is not configured"
  | GEMINI => ErrorObj "GEMINI_API_KEY is not configured"
  end.

Definition bumpProvider (w : World) : World :=
  mkWorld (S (nProvider w)) (nDb w) (totalTokens_ w) (totalCost w) (generatedFiles w).

Definition timeAt (env : Env) (w : World) : Z := clock env (nProvider w + nDb w).

(** The part of [execute] after the primary candidate was skipped or gave up,
    with [startTime] already read. *)
Definition fallbackPart (env : Env) (ai : BuildableAI) (request : BuildableAIRequest)
           (startTime : Z) : M BuildableAIResponse :=
  match fallback (ModelRouting (task request)) with
  | Some fb =>
      if isProviderAvailable env (cProvider fb) then
        tryCatch
          (result <- executeWithProvider env ai (cProvider fb) (cModel fb) request ;;
           now <- Date_now env ;;
           ret (withLatency result (now - startTime)))
          (fun error =>
             logger Error "Fallback provider also failed" noData ;;
             throw error)
      else throw (noProviders request)
  | None => throw (noProviders request)
  end.

(** The complexity class that [estimateCredits] derives from a token
    estimate. *)
Definition complexityOf (t : Z) : Complexity :=
  if (t <? 5000)%Z then low else if (t >? 20000)%Z then high else medium.

(** The requests that the architect, the validator and the fixer hand to
    [execute]. *)
Definition planningRequest : BuildableAIRequest := mkRequest PLANNING true (Some 4000%Z).
Definition validationRequest : BuildableAIRequest :=
  mkRequest VALIDATION true (Some 2000%Z).
Definition debuggingRequest : BuildableAIRequest :=
  mkRequest DEBUGGING false (Some 8000%Z).

Definition codingRequest : BuildableAIRequest := mkRequest CODING false (Some 8000%Z).

(** The state in which the [try] block of [run] starts. *)
Definition resetLocals (w : World) : World := setFiles (setUsage w 0 0) [].

(* ===================================================================== *)
(** ** Event classes and properties of computations                       *)
(* ===================================================================== *)

(** Events that a candidate's retry loop can issue. *)
Definition isAttemptEvent (e : Event) : bool :=
  match e with
  | EvProviderCall _ _ _ | EvDelay _ => true
  | EvLog Warn msg _ => String.eqb msg "Rate limited, will retry"
  | _ => false
  end.

(** Events of the execution engine. *)
Definition isEngineLog (l : LogLevel) (msg : string) : bool :=
  match l with
  | Warn => String.eqb msg "Rate limited, will retry" ||
            String.eqb msg "Primary provider failed, attempting fallback"
  | Error => String.eqb msg "Fallback provider also failed"
  | Info => false
  end.

Definition isEngineEvent (e : Event) : bool :=
  match e with
  | EvProviderCall _ _ _ | EvDelay _ => true
  | EvLog l msg d =>
      match logSession d, logFile d with
      | None, None => isEngineLog l msg
      | _, _ => false
      end
  | EvDb _ => false
  end.

(** Events of the architect, coder, validator and [suggest]: provider calls,
    delays and log records that carry no session id; no database call. *)
Definition isAgentEvent (e : Event) : bool :=
  match e with
  | EvProviderCall _ _ _ | EvDelay _ => true
  | EvLog _ _ d => match logSession d with None => true | Some _ => false end
  | EvDb _ => false
  end.

(** Events that are neither the start of a validation nor the report of a
    failed one. *)
Definition isQuietEvent (e : Event) : bool :=
  match e with
  | EvLog Info msg _ => negb (String.eqb msg "Validating file with AI")
  | EvLog Warn msg _ => negb (String.eqb msg "Validation failed, attempting fix")
  | _ => true
  end.

(** Everything but a [db.updateSession] call. *)
Definition isNoUpdate (e : Event) : bool :=
  match e with
  | EvDb (UpdateSession _ _) => false
  | _ => true
  end.

(** The completion timestamp is present exactly in the updates that write
    [completed] or [failed]. *)
Definition timestampOk (u : SessionUpdate) : bool :=
  Bool.eqb (match completed_at u with Some _ => true | None => false end)
           (isTerminal (status u)).

Definition isStampedEvent (e : Event) : bool :=
  match e with
  | EvDb (UpdateSession _ u) => timestampOk u
  | _ => true
  end.

(** [m] only ever issues events of class [k], whatever the state. *)
Definition emitsOnly {A} (k : Event -> bool) (m : M A) : Prop :=
  forall w, Forall (fun e => k e = true) (traceOf (m w)).

(** [m], run from [w], ends in an outcome, state and trace that satisfy [Q]. *)
Definition post {A} (m : M A) (w : World)
           (Q : Result A -> World -> list Event -> Prop) : Prop :=
  Q (resultOf (m w)) (worldOf (m w)) (traceOf (m w)).

Definition sameLocals (w w' : World) : Prop :=
  generatedFiles w' = generatedFiles w /\
  totalTokens_ w' = totalTokens_ w /\
  totalCost w' = totalCost w /\
  nDb w' = nDb w.

(** [m] leaves the local variables of [run] alone and makes no database
    call. *)
Definition keepsLocals {A} (m : M A) : Prop :=
  forall w,
    generatedFiles (worldOf (m w)) = generatedFiles w /\
    totalTokens_ (worldOf (m w)) = totalTokens_ w /\
    totalCost (worldOf (m w)) = totalCost w /\
    nDb (worldOf (m w)) = nDb w.

(** [m] neither adds nor removes a generated file. *)
Definition keepsFileCount {A} (m : M A) : Prop :=
  forall w,
    List.length (generatedFiles (worldOf (m w))) = List.length (generatedFiles w).

(** [m] never throws. *)
Definition succeeds {A} (m : M A) : Prop :=
  forall w, isOk (resultOf (m w)) = true.

(* ===================================================================== *)
(** ** Orders on planned files                                            *)
(* ===================================================================== *)

(** Order by an integer key. *)
Definition leBy {A} (key : A -> Z) (a b : A) : Prop := (key a <= key b)%Z.

(** Order of two planned files by the specification's key. *)
Definition keyLe (a b : FileSpec) : Prop := leBy orderKey a b.

Definition hasPriority (f : FileSpec) : bool :=
  match priority f with Some _ => true | None => false end.

(** Either every file of the plan carries an explicit priority, or none
    does. *)
Definition uniformPriority (fs : list FileSpec) : Prop :=
  Forall (fun f => hasPriority f = true) fs \/
  Forall (fun f => hasPriority f = false) fs.

(** [l1] is [l2] with some elements left out. *)
Inductive Subseq {A : Type} : list A -> list A -> Prop :=
| Subseq_nil : Subseq [] []
| Subseq_keep (x : A) (l1 l2 : list A) : Subseq l1 l2 -> Subseq (x :: l1) (x :: l2)
| Subseq_drop (x : A) (l1 l2 : list A) : Subseq l1 l2 -> Subseq l1 (x :: l2).

(* ===================================================================== *)
(** ** Assumptions on the outside world                                   *)
(* ===================================================================== *)

(** What the development assumes of double rounding: it is monotone and
    does not send 0 below 0 (round-to-nearest satisfies both). *)
Definition monotoneRounding (f : Q -> Q) : Prop :=
  (forall x y : Q, (x <= y)%Q -> (f x <= f y)%Q) /\ (0 <= f 0)%Q.

(** An outside world in which nothing fails: every provider has a key,
    every provider call returns, the database never throws, and the plan and
    the validation verdicts parse. *)
Definition healthy (env : Env) : Prop :=
  (forall p, isProviderAvailable env p = true) /\
  (forall n p m req, isOk (providerReply env n p m req) = true) /\
  (forall n, dbThrows env n = None) /\
  (forall s, isOk (parsePlan env s) = true) /\
  (forall s, isOk (parseValidation env s) = true).

(* ===================================================================== *)
(** ** Sample data                                                        *)
(* ===================================================================== *)

(** Sample data for the examples: every provider has a key, every provider
    call succeeds with [sampleReply], the database never throws, arithmetic is
    exact, and the parsers accept everything. *)
Definition sampleReply : ProviderReply := mkReply "ok" 10 20 30.

Definition samplePlan : ProjectPlan :=
  mkPlan "landing-page" "A landing page"
         [mkFileSpec "src/App.tsx" "entry" ["src/Hero.tsx"] None;
          mkFileSpec "src/Hero.tsx" "hero" [] None]
         [].

Definition sampleEnv : Env :=
  mkEnv (Some "xai-key") (Some "sk-key") (Some "g-key") (1 # 1000)
        (fun _ _ _ _ => Ok sampleReply)
        (fun _ => None)
        (fun _ => [])
        (fun n => Z.of_nat n)
        (fun q => q)
        (fun _ => Ok samplePlan)
        (fun _ => Ok (mkValidationJson true [] []))
        (fun _ => Ok [])
        (fun _ => Ok (mkAnalysis [] []))
        (fun s => s).

Definition samplePipeline : GenerationPipeline :=
  newGenerationPipeline (mkPipelineOptions "ws-1" "user-1" "session-1"
                                           "Create a landing page" None None).

Definition withReplies (env : Env)
           (f : nat -> AIProvider -> string -> BuildableAIRequest -> Result ProviderReply)
  : Env :=
  mkEnv (GROK_API_KEY env) (OPENAI_API_KEY env) (GEMINI_API_KEY env)
        (CREDITS_COST_MULTIPLIER env) f (dbThrows env) (dbFiles env) (clock env)
        (fl env) (parsePlan env) (parseValidation env) (parseSuggestions env)
        (parseAnalysis env) (stripCodeFence env).

(** Every validation verdict is "invalid", with one issue. *)
Definition withValidation (env : Env) (f : string -> Result ValidationJson) : Env :=
  mkEnv (GROK_API_KEY env) (OPENAI_API_KEY env) (GEMINI_API_KEY env)
        (CREDITS_COST_MULTIPLIER env) (providerReply env) (dbThrows env) (dbFiles env)
        (clock env) (fl env) (parsePlan env) f (parseSuggestions env)
        (parseAnalysis env) (stripCodeFence env).

Definition tooManyRequests : JsValue := ErrorObj "429 Too Many Requests".

Definition serverError : JsValue := ErrorObj "500 Internal Server Error".

(** Two throttled replies, then success. *)
Definition throttledTwice : Env :=
  withReplies sampleEnv
    (fun n _ _ _ => if n <? 2 then Throw tooManyRequests else Ok sampleReply).

(** The provider calls number 1 and 2 of the run (the coder's calls for the
    first file, to the primary and then to the fallback) fail with a server
    error; every other call succeeds. *)
Definition flakyEnv : Env :=
  withReplies sampleEnv
    (fun n _ _ _ => if (n =? 1) || (n =? 2) then Throw serverError else Ok sampleReply).

(** Every provider call fails with a server error. *)
Definition downEnv : Env :=
  withReplies sampleEnv (fun _ _ _ _ => Throw serverError).

(** No key for Grok. *)
Definition noGrokEnv : Env :=
  mkEnv None (OPENAI_API_KEY sampleEnv) (GEMINI_API_KEY sampleEnv)
        (CREDITS_COST_MULTIPLIER sampleEnv) (providerReply sampleEnv)
        (dbThrows sampleEnv) (dbFiles sampleEnv) (clock sampleEnv) (fl sampleEnv)
        (parsePlan sampleEnv) (parseValidation sampleEnv) (parseSuggestions sampleEnv)
        (parseAnalysis sampleEnv) (stripCodeFence sampleEnv).

Definition neverValidEnv : Env :=
  withValidation sampleEnv (fun _ => Ok (mkValidationJson false ["missing export"] [])).

(** A plan that mixes the two: a file with priority 5 and no dependency, and
    a file without priority and with one dependency. *)
Definition mixedFiles : list FileSpec :=
  [mkFileSpec "src/a.ts" "first" [] (Some 5%Z);
   mkFileSpec "src/b.ts" "second" ["src/a.ts"] None].

Definition mixedPlan : ProjectPlan := mkPlan "app" "mixed priorities" mixedFiles [].

Definition oneFileWorld : World :=
  mkWorld 0 0 0 0%Q [mkGeneratedFile "src/App.tsx" "export default 1" false None].

(* ===================================================================== *)
(** ** Further observations, assumptions and sample data                  *)
(* ===================================================================== *)

(** Every character of [s] is a word character. *)
Fixpoint allWordChars (s : string) : bool :=
  match s with
  | EmptyString => true
  | String c rest => isWordChar c && allWordChars rest
  end.

(** The type names that the [typeMap] of [GenerationPipeline.getFileType]
    can give, and the default. *)
Definition pipelineTypeNames : list string :=
  map snd typeMap ++ ["text"].

Definition validatorTypeNames : list string :=
  map snd Validator.typeMap ++ ["text"].

(** The two property names of [Object.prototype] written in lower case
    only. *)
Definition lowerCasePrototypeKeys : list string := ["constructor"; "__proto__"].

(** What one file adds to the three arrays of [Validator.validate]. *)
Definition legacyFindings (importPaths : string -> list string)
           (files : list WorkspaceFile) (file : WorkspaceFile)
  : list ValidationError * list ValidationError * list Repair :=
  Validator.validateStep importPaths files ([], [], []) file.

(** The data of the log records of a trace that carry the message [msg],
    in order. *)
Definition logsOf (msg : string) (t : list Event) : list LogData :=
  flat_map (fun e =>
              match e with
              | EvLog _ m d => if String.eqb m msg then [d] else []
              | _ => []
              end) t.

(** Everything but a log record with the message [msg]. *)
Definition isNotLog (msg : string) (e : Event) : bool :=
  match e with
  | EvLog _ m _ => negb (String.eqb m msg)
  | _ => true
  end.

(** The message with which [Validator.fix] starts. *)
Definition fixStartMessage : string := "Fixing issues with AI".

(** The files that [Validator.validate] and [validateAll] look at. *)
Definition codeFilesOf (files : list WorkspaceFile) : list WorkspaceFile :=
  filter (fun f => Validator.isCodeFile (file_path f)) files.

(** The ordering key of [generateBatch]: [priority ?? 99]. *)
Definition batchKey (f : FileSpec) : Z := orDefault (priority f) 99%Z.

(** The outcome of [generateBatch], the [existingFiles] array as it leaves
    it, and its trace. *)
Definition batchOutcome {A}
           (x : Result A * list WorkspaceFile * World * list Event) : Result A :=
  fst (fst (fst x)).
Definition batchExisting {A}
           (x : Result A * list WorkspaceFile * World * list Event)
  : list WorkspaceFile := snd (fst (fst x)).
Definition batchTrace {A}
           (x : Result A * list WorkspaceFile * World * list Event) : list Event :=
  snd x.

(** The message with which [Coder.generateFile] starts. *)
Definition coderStartMessage : string := "Generating file".

(** The back-off delays of a trace, in milliseconds, and their sum. *)
Definition delaysOf (t : list Event) : list nat :=
  flat_map (fun e => match e with EvDelay ms => [ms] | _ => [] end) t.

Definition totalDelay (t : list Event) : nat := list_sum (delaysOf t).

(** The candidate that a response names. *)
Definition answeredBy (r : BuildableAIResponse) : Candidate :=
  mkCandidate (respProvider r) (respModel r).

(** The routing has a fallback, and its provider has no key. *)
Definition fallbackUnavailable (env : Env) (req : BuildableAIRequest) : Prop :=
  forall fb, fallback (ModelRouting (task req)) = Some fb ->
             isProviderAvailable env (cProvider fb) = false.

(** The messages that classify an error as a rate limit. *)
Definition rateLimitMarkers : list string :=
  ["rate limit"; "429"; "too many requests"].

(** The candidate that [execute] calls first and that [stream] uses: the
    primary when its provider has a key, else the fallback when its provider
    has one. *)
Definition firstCandidate (env : Env) (req : BuildableAIRequest) : option Candidate :=
  let routing := ModelRouting (task req) in
  if isProviderAvailable env (provider routing) then Some (primaryOf req)
  else match fallback routing with
       | Some fb => if isProviderAvailable env (cProvider fb) then Some fb else None
       | None => None
       end.

(** A streaming SDK whose streams deliver two chunks and end normally. *)
Definition sampleStreamSdk : StreamSdk :=
  mkStreamSdk
    (fun _ _ _ _ =>
       Ok (mkSdkStream [mkCompletionChunk (Some "Hel") None;
                        mkCompletionChunk (Some "lo") (Some "stop")] None))
    (fun _ _ _ => Ok (mkSdkStream [Ok "Hel"; Ok "lo"] None)).

(** The statuses handed to [db.updateWorkspaceStatus], the paths handed to
    [db.upsertFile], and the number of [db.recordFileOperation] calls of a
    trace. *)
Definition workspaceWritesOf (t : list Event) : list string :=
  flat_map (fun e => match e with
                     | EvDb (UpdateWorkspaceStatus _ s) => [s]
                     | _ => []
                     end) t.

Definition upsertsOf (t : list Event) : list string :=
  flat_map (fun e => match e with
                     | EvDb (UpsertFile _ _ filePath _) => [filePath]
                     | _ => []
                     end) t.

Definition recordedOperationsOf (t : list Event) : nat :=
  List.length (filter (fun e => match e with
                                | EvDb (RecordFileOperation _ _ _ _ _ _) => true
                                | _ => false
                                end) t).

(** Everything but a [db.updateWorkspaceStatus] call. *)
Definition isNoWorkspaceWrite (e : Event) : bool :=
  match e with
  | EvDb (UpdateWorkspaceStatus _ _) => false
  | _ => true
  end.

(** Everything but a [db.updateWorkspaceStatus] or a
    [db.recordFileOperation] call. *)
Definition isRefineEvent (e : Event) : bool :=
  match e with
  | EvDb (UpdateWorkspaceStatus _ _) | EvDb (RecordFileOperation _ _ _ _ _ _) => false
  | _ => true
  end.

(** No generated file is marked as validated. *)
Definition unvalidated (fs : list GeneratedFile) : Prop :=
  Forall (fun g => validated g = false) fs.

(** The message with which the run reports a file that is still invalid
    after the last validation attempt. *)
Definition exhaustedMessage : string := "File validation failed after max retries".

(** A pipeline that validates nothing. *)
Definition noValidationPipeline : GenerationPipeline :=
  newGenerationPipeline (mkPipelineOptions "ws-1" "user-1" "session-1"
                                           "Create a landing page" None (Some 0)).

(** The run [x] consists of events of class [K] followed either by a throw
    or by the whole of [tail b] for some [b]. *)
Definition endsIn {A B} (K : Event -> bool) (tail : B -> M A)
           (x : Result A * World * list Event) : Prop :=
  exists t0,
    Forall (fun e => K e = true) t0 /\
    ((exists e, resultOf x = Throw e /\ traceOf x = t0) \/
     (exists b w1,
         resultOf x = resultOf (tail b w1) /\
         worldOf x = worldOf (tail b w1) /\
         traceOf x = t0 ++ traceOf (tail b w1))).

(** The last step of the [try] block of [run], as a function of the plan and
    the suggestions. *)
Definition completeTail (env : Env) (self : GenerationPipeline)
  : ProjectPlan * list Suggestion -> M PipelineResult :=
  fun ps => completePhase env self (fst ps) (snd ps).

(** The session update [u] records the outcome [res] of a run. *)
Definition recordsOutcome (env : Env) (u : SessionUpdate) (res : PipelineResult) : Prop :=
  status u = (if success res then completed else failed) /\
  tokens_used u = Some (resultTokens res) /\
  credits_used u = Some (creditsOf env (resultCost res)) /\
  error_message u = resultError res /\
  (success res = true -> files_generated u = Some (List.length (resultFiles res))).

(** When [m] returns, the files it has added to the array of generated
    files are unvalidated and are the files it has handed to
    [db.upsertFile], in order; [P] holds of its result and the array. *)
Definition grows {A} (P : A -> list GeneratedFile -> Prop) (m : M A) : Prop :=
  forall w,
    match resultOf (m w) with
    | Ok a =>
        exists fs,
          generatedFiles (worldOf (m w)) = generatedFiles w ++ fs /\
          map gPath fs = upsertsOf (traceOf (m w)) /\
          unvalidated fs /\
          P a (generatedFiles (worldOf (m w)))
    | Throw _ => True
    end.

Definition anyResult {A} : A -> list GeneratedFile -> Prop := fun _ _ => True.

(** A request as the rate limiter sees it: the [userId] of the context, the
    [x-forwarded-for] header, and the time at which it reads the clock. *)
Record RateRequest : Type := mkRateRequest {
  rqUser : option string;
  rqForwarded : option string;
  rqTime : Z
}.

Definition rqKey (r : RateRequest) : string := rateKey (rqUser r) (rqForwarded r).

(** The middleware serving a sequence of requests, one after the other. *)
Fixpoint serveAll (env : Env) (reqs : list RateRequest) (m : RateMap)
  : list RateOutcome * RateMap :=
  match reqs with
  | [] => ([], m)
  | r :: rest =>
      let step := rateLimitMiddleware env (rqUser r) (rqForwarded r) (rqTime r) m in
      let after := serveAll env rest (snd step) in
      (fst step :: fst after, snd after)
  end.

Definition isPass (o : RateOutcome) : bool :=
  match o with
  | CallsNext => true
  | TooManyRequests _ => false
  end.

(** The requests of the client [key], and how many of them went on to
    [next()]. *)
Definition requestsOf (key : string) (reqs : list RateRequest) : list RateRequest :=
  filter (fun r => String.eqb (rqKey r) key) reqs.

Definition passedOf (key : string) (reqs : list RateRequest) (outs : list RateOutcome)
  : nat :=
  List.length (filter (fun ro => String.eqb (rqKey (fst ro)) key && isPass (snd ro))
                      (combine reqs outs)).

(** One client has an open window with 29 requests counted; requests of
    two other clients arrive in between. *)
Definition sampleRateMap : RateMap :=
  rateSet "user-1" (mkRateWindow 29 0) emptyRateMap.

Definition sampleRateRequests : list RateRequest :=
  [mkRateRequest (Some "user-1") None 10;
   mkRateRequest (Some "user-2") None 20;
   mkRateRequest (Some "user-1") None 30;
   mkRateRequest None None 40].

(** Events of a run that validates nothing, outside its validation phase:
    no start of a validation, no report of a failed one, no start of a fix,
    and no report of exhausted attempts. *)
Definition isZeroRetryEvent (e : Event) : bool :=
  isQuietEvent e && isNotLog fixStartMessage e && isNotLog exhaustedMessage e.

(** What the run logs, with [exhaustedMessage], for a file that was never
    validated. *)
Definition unvalidatedReport (g : GeneratedFile) : LogData :=
  mkLogData None (Some (gPath g)) (Some 0) None.

(** [s] begins with one of the alternatives of the regular expression of
    [cleanCodeOutput]. *)
Definition startsCode (s : string) : bool :=
  existsb (fun k => startsWith k s) codeStarters.

Fixpoint hasNoNewline (s : string) : bool :=
  match s with
  | EmptyString => true
  | String c rest => negb (Ascii.eqb c newline) && hasNoNewline rest
  end.

(* ===================================================================== *)
(** * Properties                                                           *)
(* ===================================================================== *)

(** ** The effect monad *)

Ltac conjs := repeat match goal with |- _ /\ _ => split end.

Lemma traceOf_bind {A B} (m : M A) (f : A -> M B) (w : World) :
  traceOf (bind m f w) =
  traceOf (m w) ++
  match resultOf (m w) with
  | Ok a => traceOf (f a (worldOf (m w)))
  | Throw _ => []
  end.
Proof.
  unfold bind, traceOf, resultOf, worldOf.
  destruct (m w) as [[[a | e] w1] t1]; simpl.
  - destruct (f a w1) as [[r w2] t2]; reflexivity.
  - now rewrite app_nil_r.
Qed.

Lemma bind_eq_ok {A B} (m : M A) (f : A -> M B) w a w1 t1 :
  m w = (Ok a, w1, t1) ->
  bind m f w = (resultOf (f a w1), worldOf (f a w1), t1 ++ traceOf (f a w1)).
Proof.
  intros H. unfold bind, resultOf, worldOf, traceOf. rewrite H.
  now destruct (f a w1) as [[r w2] t2].
Qed.

Lemma bind_eq_throw {A B} (m : M A) (f : A -> M B) w e w1 t1 :
  m w = (Throw e, w1, t1) -> bind m f w = (Throw e, w1, t1).
Proof. intros H. unfold bind. now rewrite H. Qed.

Lemma tryCatch_eq_ok {A} (m : M A) (h : JsValue -> M A) w a w1 t1 :
  m w = (Ok a, w1, t1) -> tryCatch m h w = (Ok a, w1, t1).
Proof. intros H. unfold tryCatch. now rewrite H. Qed.

Lemma tryCatch_eq_throw {A} (m : M A) (h : JsValue -> M A) w e w1 t1 :
  m w = (Throw e, w1, t1) ->
  tryCatch m h w = (resultOf (h e w1), worldOf (h e w1), t1 ++ traceOf (h e w1)).
Proof.
  intros H. unfold tryCatch, resultOf, worldOf, traceOf. rewrite H.
  now destruct (h e w1) as [[r w2] t2].
Qed.

Lemma bind_throws_after {A B} (m : M A) (f : A -> M B) w a w1 t1 e w2 t2 :
  m w = (Ok a, w1, t1) -> f a w1 = (Throw e, w2, t2) ->
  bind m f w = (Throw e, w2, t1 ++ t2).
Proof. intros Hm Hf. unfold bind. now rewrite Hm, Hf. Qed.

Lemma emitsOnly_ret {A} k (a : A) : emitsOnly k (ret a).
Proof. intros w. constructor. Qed.

Lemma emitsOnly_throw {A} k e : emitsOnly k (@throw A e).
Proof. intros w. constructor. Qed.

Lemma emitsOnly_liftResult {A} k (r : Result A) : emitsOnly k (liftResult r).
Proof. intros w. constructor. Qed.

Lemma emitsOnly_getWorld k : emitsOnly k getWorld.
Proof. intros w. constructor. Qed.

Lemma emitsOnly_modifyWorld k f : emitsOnly k (modifyWorld f).
Proof. intros w. constructor. Qed.

Lemma emitsOnly_emit k e : k e = true -> emitsOnly k (emit e).
Proof. intros H w. repeat constructor. exact H. Qed.

Lemma emitsOnly_logger k l msg d : k (EvLog l msg d) = true -> emitsOnly k (logger l msg d).
Proof. apply emitsOnly_emit. Qed.

Lemma emitsOnly_bind {A B} k (m : M A) (f : A -> M B) :
  emitsOnly k m -> (forall a, emitsOnly k (f a)) -> emitsOnly k (bind m f).
Proof.
  intros Hm Hf w. rewrite traceOf_bind. apply Forall_app. split; [apply Hm |].
  destruct (resultOf (m w)); [apply Hf | constructor].
Qed.

Lemma emitsOnly_tryCatch {A} k (m : M A) (h : JsValue -> M A) :
  emitsOnly k m -> (forall e, emitsOnly k (h e)) -> emitsOnly k (tryCatch m h).
Proof.
  intros Hm Hh w. unfold tryCatch. specialize (Hm w).
  destruct (m w) as [[[a | e] w1] t1]; [exact Hm |].
  specialize (Hh e w1). destruct (h e w1) as [[r w2] t2].
  unfold traceOf in *. cbn [snd] in *. apply Forall_app. now split.
Qed.

Lemma emitsOnly_impl {A} (k k' : Event -> bool) (m : M A) :
  (forall e, k e = true -> k' e = true) -> emitsOnly k m -> emitsOnly k' m.
Proof. intros Hk Hm w. eapply Forall_impl; [| apply Hm]. exact Hk. Qed.

Create HintDb emits.
#[local] Hint Resolve emitsOnly_ret emitsOnly_throw emitsOnly_liftResult
  emitsOnly_getWorld emitsOnly_modifyWorld emitsOnly_bind emitsOnly_tryCatch : emits.
#[local] Hint Extern 1 (emitsOnly _ (logger _ _ _)) =>
  apply emitsOnly_logger; reflexivity : emits.
#[local] Hint Extern 1 (emitsOnly _ (emit _)) =>
  apply emitsOnly_emit; reflexivity : emits.

Lemma providerCallsOf_app (t1 t2 : list Event) :
  providerCallsOf (t1 ++ t2) = providerCallsOf t1 ++ providerCallsOf t2.
Proof. unfold providerCallsOf. apply flat_map_app. Qed.

Lemma callsAndDelays_app (t1 t2 : list Event) :
  callsAndDelays (t1 ++ t2) = callsAndDelays t1 ++ callsAndDelays t2.
Proof. unfold callsAndDelays. apply filter_app. Qed.

Lemma sessionUpdatesOf_app (t1 t2 : list Event) :
  sessionUpdatesOf (t1 ++ t2) = sessionUpdatesOf t1 ++ sessionUpdatesOf t2.
Proof. unfold sessionUpdatesOf. apply flat_map_app. Qed.

Lemma statusWrites_app (t1 t2 : list Event) :
  statusWrites (t1 ++ t2) = statusWrites t1 ++ statusWrites t2.
Proof. unfold statusWrites. now rewrite sessionUpdatesOf_app, map_app. Qed.

(** ** The execution engine *)

Section EngineFacts.
Variable env : Env.
Variable ai : BuildableAI.

(** One attempt: no call when the key is missing, else exactly one call
    whose outcome is the oracle's. *)
Lemma providerSwitch_spec p m req w :
  providerSwitch env p m req w =
  if isProviderAvailable env p then
    (match providerReply env (nProvider w) p m req with
     | Ok r => Ok (responseOf env p m r)
     | Throw e => Throw e
     end, bumpProvider w, [EvProviderCall p m (task req)])
  else (Throw (keyMissing p), w, []).
Proof.
  destruct p; unfold providerSwitch, executeGrok, executeOpenAI, executeGemini,
    getGrokClient, getOpenAIClient, getGeminiClient, isProviderAvailable, bind,
    sdkCall, ret, throw, bumpProvider; simpl;
  match goal with |- context [truthyKey ?k] => destruct (truthyKey k) end;
  try reflexivity;
  match goal with |- context [providerReply ?e ?n ?p ?m ?r] =>
    destruct (providerReply e n p m r) end; reflexivity.
Qed.

Lemma retryLoop_S p m req r a lastError w :
  retryLoop env ai p m req (S r) a lastError w =
  if isProviderAvailable env p then
    match providerReply env (nProvider w) p m req with
    | Ok x => (Ok (responseOf env p m x), bumpProvider w, [EvProviderCall p m (task req)])
    | Throw e =>
        if isRateLimitError e then
          match retryLoop env ai p m req r (a + 1) (Some e) (bumpProvider w) with
          | (r', w', t') =>
              (r', w', EvProviderCall p m (task req) :: rateLimitedLog a ::
                       EvDelay (retryDelayMs ai * (a + 1)) :: t')
          end
        else (Throw e, bumpProvider w, [EvProviderCall p m (task req)])
    end
  else (Throw (keyMissing p), w, []).
Proof.
  cbn [retryLoop]. unfold tryCatch. rewrite providerSwitch_spec.
  destruct (isProviderAvailable env p) eqn:Hav.
  - destruct (providerReply env (nProvider w) p m req) as [x | e]; [reflexivity |].
    destruct (isRateLimitError e); [| reflexivity].
    unfold bind, logger, delay, emit.
    destruct (retryLoop env ai p m req r (a + 1) (Some e) (bumpProvider w))
      as [[r' w'] t']; reflexivity.
  - assert (Hk : isRateLimitError (keyMissing p) = false) by (destruct p; reflexivity).
    rewrite Hk. reflexivity.
Qed.

Lemma calls_rateLimited p m t a ms (t' : list Event) :
  providerCallsOf (EvProviderCall p m t :: rateLimitedLog a :: EvDelay ms :: t') =
  mkCandidate p m :: providerCallsOf t'.
Proof. reflexivity. Qed.

Lemma shape_rateLimited p m t a ms (t' : list Event) :
  callsAndDelays (EvProviderCall p m t :: rateLimitedLog a :: EvDelay ms :: t') =
  EvProviderCall p m t :: EvDelay ms :: callsAndDelays t'.
Proof. reflexivity. Qed.

(** What one candidate's retry loop does, by induction on the iterations
    left. *)
Lemma retryLoop_spec p m req :
  forall remaining a lastError w,
    let out := retryLoop env ai p m req remaining a lastError w in
    let n := List.length (providerCallsOf (traceOf out)) in
    n <= remaining /\
    providerCallsOf (traceOf out) = repeat (mkCandidate p m) n /\
    nProvider (worldOf out) = nProvider w + n /\
    (forall k, S k < n ->
       exists e, providerReply env (nProvider w + k) p m req = Throw e /\
                 isRateLimitError e = true) /\
    (exists d, d <= a + n /\ a + n <= S d /\
       callsAndDelays (traceOf out) =
       attemptsShapeFrom p m (task req) (retryDelayMs ai) a n d) /\
    (forall k e, k < n ->
       providerReply env (nProvider w + k) p m req = Throw e ->
       isRateLimitError e = false ->
       S k = n /\ resultOf out = Throw e) /\
    (forall x, resultOf out = Ok x ->
       exists y, 0 < n /\ providerReply env (nProvider w + (n - 1)) p m req = Ok y /\
                 x = responseOf env p m y).
Proof.
  induction remaining as [| r IH]; intros a lastError w.
  - cbn. conjs; try reflexivity; try lia; try (intros; lia); try (intros; discriminate).
    exists a. conjs; try reflexivity; lia.
  - cbv zeta. rewrite retryLoop_S.
    destruct (isProviderAvailable env p).
    2:{ cbn. conjs; try reflexivity; try lia; try (intros; lia);
          try (intros; discriminate).
        exists a. conjs; try reflexivity; lia. }
    destruct (providerReply env (nProvider w) p m req) as [x | e] eqn:Hrep.
    + cbn. conjs; try lia.
      * reflexivity.
      * exists a. conjs; try lia.
        replace (match a with 0 => false | S m' => a <=? m' end) with false;
          [reflexivity |].
        destruct a; [reflexivity |]. symmetry. apply Nat.leb_gt. lia.
      * intros k e Hk He _. assert (k = 0) by lia. subst k.
        rewrite Nat.add_0_r in He. congruence.
      * intros x0 Hx0. exists x. rewrite Nat.add_0_r.
        conjs; [lia | assumption | congruence].
    + destruct (isRateLimitError e) eqn:Hrl.
      * specialize (IH (a + 1) (Some e) (bumpProvider w)).
        destruct (retryLoop env ai p m req r (a + 1) (Some e) (bumpProvider w))
          as [[r' w'] t'] eqn:Hloop.
        cbv zeta in IH. unfold traceOf, worldOf, resultOf in *. cbn [fst snd] in IH |- *.
        destruct IH as (Hle & Hcalls & Hw & Hretry & (d & Hd1 & Hd2 & Hshape) & Hstop & Hok).
        rewrite calls_rateLimited, shape_rateLimited.
        cbn [List.length repeat]. cbn [bumpProvider nProvider] in *.
        conjs.
        -- lia.
        -- f_equal. exact Hcalls.
        -- lia.
        -- intros [| k] Hk.
           ++ exists e. rewrite Nat.add_0_r. now split.
           ++ destruct (Hretry k ltac:(lia)) as (e' & He' & Hrl').
              exists e'. split; [| assumption].
              rewrite <- He'. f_equal. lia.
        -- unfold attemptsShapeFrom in *.
           destruct (List.length (providerCallsOf t')) as [| n'] eqn:Hn'.
           ++ exists (a + 1). conjs; try lia.
              cbn [seq flat_map]. cbn [seq flat_map] in Hshape.
              replace (a <? a + 1) with true by (symmetry; apply Nat.ltb_lt; lia).
              cbn [app]. now rewrite Hshape.
           ++ exists d. conjs; try lia.
              cbn [seq flat_map].
              replace (a <? d) with true by (symmetry; apply Nat.ltb_lt; lia).
              cbn [app]. rewrite Hshape.
              replace (S a) with (a + 1) by lia. reflexivity.
        -- intros k e0 Hk He0 Hrl0. destruct k as [| k].
           ++ rewrite Nat.add_0_r in He0. congruence.
           ++ destruct (Hstop k e0 ltac:(lia)) as [Hk' Hr]; [| assumption | split; [lia | exact Hr]].
              rewrite <- He0. f_equal. lia.
        -- intros x Hx. destruct (Hok x Hx) as (y & Hn & Hy & Hxy).
           exists y. conjs; [lia | | assumption].
           rewrite <- Hy. f_equal. lia.
      * cbn. conjs; try lia.
        -- reflexivity.
        -- exists a. conjs; try lia.
           replace (match a with 0 => false | S m' => a <=? m' end) with false;
             [reflexivity |].
           destruct a; [reflexivity |]. symmetry. apply Nat.leb_gt. lia.
        -- intros k e0 Hk He0 _. assert (k = 0) by lia. subst k.
           rewrite Nat.add_0_r in He0. split; [lia | congruence].
        -- intros x Hx. discriminate.
Qed.

Lemma retryLoop_events p m req :
  forall remaining a lastError w,
    Forall (fun e => isAttemptEvent e = true)
           (traceOf (retryLoop env ai p m req remaining a lastError w)).
Proof.
  induction remaining as [| r IH]; intros a lastError w.
  - cbn. constructor.
  - rewrite retryLoop_S.
    destruct (isProviderAvailable env p); [| constructor].
    destruct (providerReply env (nProvider w) p m req) as [x | e].
    + repeat constructor.
    + destruct (isRateLimitError e).
      * specialize (IH (a + 1) (Some e) (bumpProvider w)).
        destruct (retryLoop env ai p m req r (a + 1) (Some e) (bumpProvider w))
          as [[r' w'] t'].
        unfold traceOf in *. cbn [snd] in *. repeat constructor. exact IH.
      * repeat constructor.
Qed.

Lemma fallbackPart_eq req start w :
  fallbackPart env ai req start w =
  match fallback (ModelRouting (task req)) with
  | Some fb =>
      if isProviderAvailable env (cProvider fb) then
        match executeWithProvider env ai (cProvider fb) (cModel fb) req w with
        | (Ok r, w2, t2) => (Ok (withLatency r (timeAt env w2 - start)), w2, t2)
        | (Throw e, w2, t2) => (Throw e, w2, t2 ++ [fallbackFailedLog])
        end
      else (Throw (noProviders req), w, [])
  | None => (Throw (noProviders req), w, [])
  end.
Proof.
  unfold fallbackPart.
  destruct (fallback (ModelRouting (task req))) as [fb |]; [| reflexivity].
  destruct (isProviderAvailable env (cProvider fb)); [| reflexivity].
  unfold tryCatch, bind, Date_now, ret, logger, emit, throw, timeAt.
  destruct (executeWithProvider env ai (cProvider fb) (cModel fb) req w)
    as [[[r | e] w2] t2]; cbn; [now rewrite !app_nil_r | reflexivity].
Qed.

Lemma execute_eq req w :
  execute env ai req w =
  let routing := ModelRouting (task req) in
  if isProviderAvailable env (provider routing) then
    match executeWithProvider env ai (provider routing) (model routing) req w with
    | (Ok r, w1, t1) => (Ok (withLatency r (timeAt env w1 - timeAt env w)), w1, t1)
    | (Throw e, w1, t1) =>
        match fallbackPart env ai req (timeAt env w) w1 with
        | (r2, w2, t2) => (r2, w2, t1 ++ primaryFailedLog :: t2)
        end
    end
  else fallbackPart env ai req (timeAt env w) w.
Proof.
  cbv zeta.
  change (execute env ai req w) with
    ((startTime <- Date_now env ;;
      primaryResult <-
        (if isProviderAvailable env (provider (ModelRouting (task req))) then
           tryCatch
             (result <- executeWithProvider env ai (provider (ModelRouting (task req)))
                          (model (ModelRouting (task req))) req ;;
              now <- Date_now env ;;
              ret (Some (withLatency result (now - startTime))))
             (fun error =>
                logger Warn "Primary provider failed, attempting fallback" noData ;;
                ret None)
         else ret None) ;;
      match primaryResult with
      | Some response => ret response
      | None => fallbackPart env ai req startTime
      end) w).
  generalize (fallbackPart env ai req). intros F.
  unfold bind at 1. unfold Date_now at 1. cbn [fst snd].
  fold (timeAt env w).
  destruct (isProviderAvailable env (provider (ModelRouting (task req)))).
  - unfold bind at 1. unfold tryCatch, bind, Date_now, ret, logger, emit.
    destruct (executeWithProvider env ai _ _ req w) as [[[r | e] w1] t1]; cbn.
    + fold (timeAt env w1). now rewrite !app_nil_r.
    + destruct (F (timeAt env w) w1) as [[r2 w2] t2].
      cbn. now rewrite <- app_assoc.
  - unfold bind, ret. cbn.
    destruct (F (timeAt env w) w) as [[r2 w2] t2].
    reflexivity.
Qed.
End EngineFacts.

Lemma executeWithProvider_calls_once env ai p m req w :
  isProviderAvailable env p = true ->
  1 <= List.length (providerCallsOf (traceOf (executeWithProvider env ai p m req w))).
Proof.
  intros Hav. unfold executeWithProvider.
  replace (retryCount ai + 1) with (S (retryCount ai)) by lia.
  rewrite retryLoop_S, Hav.
  destruct (providerReply env (nProvider w) p m req) as [x | e]; [cbn; lia |].
  destruct (isRateLimitError e); [| cbn; lia].
  destruct (retryLoop env ai p m req (retryCount ai) (0 + 1) (Some e) (bumpProvider w))
    as [[r' w'] t'].
  unfold traceOf. cbn [snd]. rewrite calls_rateLimited. cbn. lia.
Qed.

Lemma providerCallsOf_fallbackFailed (t : list Event) :
  providerCallsOf (t ++ [fallbackFailedLog]) = providerCallsOf t.
Proof. rewrite providerCallsOf_app. cbn. apply app_nil_r. Qed.

(** The provider calls of the fallback part are those of the fallback
    candidate's retry loop, when there is a credentialed fallback. *)
Lemma fallbackPart_calls env ai req start w :
  providerCallsOf (traceOf (fallbackPart env ai req start w)) =
  match fallback (ModelRouting (task req)) with
  | Some fb =>
      if isProviderAvailable env (cProvider fb) then
        providerCallsOf
          (traceOf (executeWithProvider env ai (cProvider fb) (cModel fb) req w))
      else []
  | None => []
  end.
Proof.
  rewrite fallbackPart_eq.
  destruct (fallback (ModelRouting (task req))) as [fb |]; [| reflexivity].
  destruct (isProviderAvailable env (cProvider fb)); [| reflexivity].
  destruct (executeWithProvider env ai (cProvider fb) (cModel fb) req w)
    as [[[r | e] w2] t2]; unfold traceOf; cbn [snd]; [reflexivity |].
  apply providerCallsOf_fallbackFailed.
Qed.

(** C1: on every candidate the provider call is attempted at most
    [retryCount + 1] times (2 + 1 by default); an attempt is followed by
    another one only when it failed with a rate-limit-class error; the delay
    that follows the k-th attempt (counting from 1) is [retryDelayMs * k]; a
    failure of any other class is the last attempt on the candidate, whose
    loop rethrows it; and when the primary candidate gives up, the next
    provider calls go to the fallback candidate. *)
Theorem C1_retry_policy (env : Env) (ai : BuildableAI) (req : BuildableAIRequest) :
  retryCount (newBuildableAI None) = 2 /\
  (forall p m w,
     let out := executeWithProvider env ai p m req w in
     let n := List.length (providerCallsOf (traceOf out)) in
     n <= retryCount ai + 1 /\
     providerCallsOf (traceOf out) = repeat (mkCandidate p m) n /\
     (forall k, S k < n ->
        exists e, providerReply env (nProvider w + k) p m req = Throw e /\
                  isRateLimitError e = true) /\
     (exists d, d <= n /\ n <= S d /\
        callsAndDelays (traceOf out) =
        attemptsShape p m (task req) (retryDelayMs ai) n d) /\
     (forall k e, k < n ->
        providerReply env (nProvider w + k) p m req = Throw e ->
        isRateLimitError e = false ->
        S k = n /\ resultOf out = Throw e)) /\
  (forall w fb,
     let routing := ModelRouting (task req) in
     isProviderAvailable env (provider routing) = true ->
     fallback routing = Some fb ->
     isProviderAvailable env (cProvider fb) = true ->
     isOk (resultOf (executeWithProvider env ai (provider routing) (model routing) req w))
       = false ->
     exists n1 n2,
       n1 <= retryCount ai + 1 /\ 1 <= n2 /\ n2 <= retryCount ai + 1 /\
       providerCallsOf (traceOf (execute env ai req w)) =
       repeat (primaryOf req) n1 ++ repeat fb n2).
Proof.
  split; [reflexivity |]. split.
  - intros p m w. cbv zeta. unfold executeWithProvider.
    destruct (retryLoop_spec env ai p m req (retryCount ai + 1) 0 None w)
      as (Hle & Hcalls & _ & Hretry & (d & Hd1 & Hd2 & Hshape) & Hstop & _).
    conjs; try assumption.
    exists d. conjs; try lia. exact Hshape.
  - intros w fb routing Hav Hfb Hfbav Hfail.
    rewrite execute_eq. cbv zeta. fold routing. rewrite Hav.
    pose proof (retryLoop_spec env ai (provider routing) (model routing) req
                  (retryCount ai + 1) 0 None w) as Hp.
    cbv zeta in Hp. fold (executeWithProvider env ai (provider routing) (model routing) req w) in Hp.
    destruct Hp as (Hle & Hcalls & _).
    destruct (executeWithProvider env ai (provider routing) (model routing) req w)
      as [[[r | e] w1] t1] eqn:Hprim; [discriminate Hfail |].
    pose proof (fallbackPart_calls env ai req (timeAt env w) w1) as Hf.
    fold routing in Hf. rewrite Hfb, Hfbav in Hf.
    pose proof (retryLoop_spec env ai (cProvider fb) (cModel fb) req
                  (retryCount ai + 1) 0 None w1) as Hq.
    cbv zeta in Hq. fold (executeWithProvider env ai (cProvider fb) (cModel fb) req w1) in Hq.
    destruct Hq as (Hle2 & Hcalls2 & _).
    pose proof (executeWithProvider_calls_once env ai (cProvider fb) (cModel fb) req w1 Hfbav)
      as Hone.
    destruct (fallbackPart env ai req (timeAt env w) w1) as [[r2 w2] t2].
    unfold traceOf in *. cbn [snd] in *.
    exists (List.length (providerCallsOf t1)),
           (List.length (providerCallsOf
              (snd (executeWithProvider env ai (cProvider fb) (cModel fb) req w1)))).
    conjs; try lia.
    rewrite providerCallsOf_app.
    change (primaryFailedLog :: t2) with ([primaryFailedLog] ++ t2).
    rewrite providerCallsOf_app. cbn [providerCallsOf flat_map primaryFailedLog app].
    rewrite Hf, Hcalls2 at 1. rewrite Hcalls at 1.
    destruct fb; reflexivity.
Qed.

Lemma C1_witness :
  List.length
    (providerCallsOf
       (traceOf (executeWithProvider throttledTwice getBuildableAI
                   GROK GrokModels.GROK_CODE_FAST_1 codingRequest initialWorld))) <= 3 /\
  exists n1 n2,
    n1 <= 3 /\ 1 <= n2 /\ n2 <= 3 /\
    providerCallsOf (traceOf (execute downEnv getBuildableAI codingRequest initialWorld)) =
    repeat (primaryOf codingRequest) n1 ++
    repeat (mkCandidate OPENAI OpenAIModels.GPT_5) n2.
Proof.
  split.
  - destruct (C1_retry_policy throttledTwice getBuildableAI codingRequest) as (_ & H & _).
    apply (H GROK GrokModels.GROK_CODE_FAST_1 initialWorld).
  - destruct (C1_retry_policy downEnv getBuildableAI codingRequest) as (_ & _ & H).
    apply (H initialWorld (mkCandidate OPENAI OpenAIModels.GPT_5));
      vm_compute; reflexivity.
Defined.

(** C9: when the primary candidate's call fails with a rate-limit-class
    error on the first two attempts and succeeds on the third, [execute]
    returns that third reply, with the primary candidate's provider and
    model, after exactly three calls, all to the primary. *)
Theorem C9_primary_recovers_on_third_attempt
        (env : Env) (ai : BuildableAI) (req : BuildableAIRequest) (w : World)
        (e1 e2 : JsValue) (r : ProviderReply) :
  let routing := ModelRouting (task req) in
  2 <= retryCount ai ->
  isProviderAvailable env (provider routing) = true ->
  providerReply env (nProvider w) (provider routing) (model routing) req = Throw e1 ->
  isRateLimitError e1 = true ->
  providerReply env (nProvider w + 1) (provider routing) (model routing) req = Throw e2 ->
  isRateLimitError e2 = true ->
  providerReply env (nProvider w + 2) (provider routing) (model routing) req = Ok r ->
  exists resp,
    resultOf (execute env ai req w) = Ok resp /\
    respProvider resp = provider routing /\
    respModel resp = model routing /\
    content resp = replyContent r /\
    providerCallsOf (traceOf (execute env ai req w)) = repeat (primaryOf req) 3.
Proof.
  intros routing Hrc Hav H1 Hrl1 H2 Hrl2 H3.
  rewrite execute_eq. cbv zeta. fold routing. rewrite Hav.
  unfold executeWithProvider.
  destruct (retryCount ai) as [| [| rc]]; try lia.
  replace (S (S rc) + 1) with (S (S (S rc))) by lia.
  rewrite retryLoop_S, Hav, H1, Hrl1.
  rewrite retryLoop_S, Hav.
  replace (nProvider (bumpProvider w)) with (nProvider w + 1) by (cbn; lia).
  rewrite H2, Hrl2.
  rewrite retryLoop_S, Hav.
  replace (nProvider (bumpProvider (bumpProvider w))) with (nProvider w + 2) by (cbn; lia).
  rewrite H3.
  eexists. unfold resultOf, traceOf. cbn [fst snd].
  conjs; reflexivity.
Qed.

(** C10: the provider calls of [execute] are a block of calls to the
    statically configured primary followed by a block of calls to the one
    configured fallback, and to nothing else; a primary without credentials
    gets no call and leaves no trace, a fallback without credentials gets no
    call, and the fallback is called only if the primary was skipped or gave
    up. *)
Theorem C10_at_most_two_candidates
        (env : Env) (ai : BuildableAI) (req : BuildableAIRequest) (w : World) :
  let routing := ModelRouting (task req) in
  let out := execute env ai req w in
  exists tp tf,
    providerCallsOf (traceOf out) = tp ++ tf /\
    Forall (fun c => c = primaryOf req) tp /\
    Forall (fun c => fallback routing = Some c) tf /\
    List.length tp <= retryCount ai + 1 /\
    List.length tf <= retryCount ai + 1 /\
    (isProviderAvailable env (provider routing) = false ->
       tp = [] /\ ~ In primaryFailedLog (traceOf out)) /\
    (forall fb, fallback routing = Some fb ->
       isProviderAvailable env (cProvider fb) = false -> tf = []) /\
    (tf <> [] ->
       isProviderAvailable env (provider routing) = false \/
       isOk (resultOf (executeWithProvider env ai (provider routing) (model routing) req w))
         = false).
Proof.
  intros routing out. subst out. rewrite execute_eq. cbv zeta. fold routing.
  assert (Hfb : forall start w1,
             let tf := providerCallsOf (traceOf (fallbackPart env ai req start w1)) in
             Forall (fun c => fallback routing = Some c) tf /\
             List.length tf <= retryCount ai + 1 /\
             (forall fb, fallback routing = Some fb ->
                isProviderAvailable env (cProvider fb) = false -> tf = []) /\
             ~ In primaryFailedLog (traceOf (fallbackPart env ai req start w1))).
  { intros start w1. cbv zeta. rewrite fallbackPart_calls. fold routing.
    rewrite fallbackPart_eq. fold routing.
    destruct (fallback routing) as [fb |];
      [| conjs; [constructor | cbn; lia | reflexivity | intros []]].
    destruct (isProviderAvailable env (cProvider fb)) eqn:Hav;
      [| conjs; [constructor | cbn; lia | reflexivity | intros []]].
    pose proof (retryLoop_spec env ai (cProvider fb) (cModel fb) req
                  (retryCount ai + 1) 0 None w1) as Hq.
    pose proof (retryLoop_events env ai (cProvider fb) (cModel fb) req
                  (retryCount ai + 1) 0 None w1) as Hev.
    cbv zeta in Hq.
    fold (executeWithProvider env ai (cProvider fb) (cModel fb) req w1) in Hq, Hev.
    destruct Hq as (Hle & Hcalls & _).
    conjs.
    - rewrite Hcalls. apply Forall_forall. intros c Hc.
      apply repeat_spec in Hc. subst c. now destruct fb.
    - exact Hle.
    - intros fb' Heq Hna. injection Heq as <-. congruence.
    - destruct (executeWithProvider env ai (cProvider fb) (cModel fb) req w1)
        as [[[r | e] w2] t2]; unfold traceOf in *; cbn [snd] in *; intros Hin.
      + rewrite Forall_forall in Hev. specialize (Hev _ Hin). discriminate.
      + apply in_app_or in Hin. destruct Hin as [Hin | [Hin | []]].
        * rewrite Forall_forall in Hev. specialize (Hev _ Hin). discriminate.
        * discriminate. }
  destruct (isProviderAvailable env (provider routing)) eqn:Hav.
  - pose proof (retryLoop_spec env ai (provider routing) (model routing) req
                  (retryCount ai + 1) 0 None w) as Hp.
    cbv zeta in Hp.
    fold (executeWithProvider env ai (provider routing) (model routing) req w) in Hp.
    destruct Hp as (Hle & Hcalls & _).
    destruct (executeWithProvider env ai (provider routing) (model routing) req w)
      as [[[r | e] w1] t1]; unfold traceOf in *; cbn [snd] in *.
    + exists (providerCallsOf t1), []. rewrite app_nil_r.
      conjs.
      * reflexivity.
      * rewrite Hcalls. apply Forall_forall. intros c Hc.
        now apply repeat_spec in Hc.
      * constructor.
      * exact Hle.
      * cbn. lia.
      * intros; discriminate.
      * reflexivity.
      * intros Hne. now contradiction Hne.
    + destruct (Hfb (timeAt env w) w1) as (Hf1 & Hf2 & Hf3 & _).
      destruct (fallbackPart env ai req (timeAt env w) w1) as [[r2 w2] t2].
      unfold traceOf in *. cbn [snd] in *.
      exists (providerCallsOf t1), (providerCallsOf t2).
      conjs.
      * rewrite providerCallsOf_app. reflexivity.
      * rewrite Hcalls. apply Forall_forall. intros c Hc.
        now apply repeat_spec in Hc.
      * exact Hf1.
      * exact Hle.
      * exact Hf2.
      * intros; discriminate.
      * exact Hf3.
      * intros _. right. reflexivity.
  - destruct (Hfb (timeAt env w) w) as (Hf1 & Hf2 & Hf3 & Hf4).
    exists [], (providerCallsOf (traceOf (fallbackPart env ai req (timeAt env w) w))).
    conjs.
    + reflexivity.
    + constructor.
    + exact Hf1.
    + cbn. lia.
    + exact Hf2.
    + intros _. now split.
    + exact Hf3.
    + intros _. now left.
Qed.

Lemma C10_witness :
  exists tf,
    providerCallsOf (traceOf (execute noGrokEnv getBuildableAI codingRequest initialWorld))
      = [] ++ tf /\
    Forall (fun c => fallback (ModelRouting CODING) = Some c) tf /\
    ~ In primaryFailedLog
         (traceOf (execute noGrokEnv getBuildableAI codingRequest initialWorld)).
Proof.
  destruct (C10_at_most_two_candidates noGrokEnv getBuildableAI codingRequest initialWorld)
    as (tp & tf & Hcalls & _ & Hf & _ & _ & Hskip & _).
  destruct (Hskip ltac:(reflexivity)) as [Htp Hlog]. subst tp.
  exists tf. conjs; assumption.
Defined.

Lemma C9_witness :
  exists resp,
    resultOf (execute throttledTwice getBuildableAI (mkRequest CODING false None)
                      initialWorld) = Ok resp /\
    respProvider resp = GROK /\
    respModel resp = GrokModels.GROK_CODE_FAST_1 /\
    content resp = "ok" /\
    providerCallsOf
      (traceOf (execute throttledTwice getBuildableAI (mkRequest CODING false None)
                        initialWorld)) =
    repeat (mkCandidate GROK GrokModels.GROK_CODE_FAST_1) 3.
Proof.
  apply (C9_primary_recovers_on_third_attempt
           throttledTwice getBuildableAI (mkRequest CODING false None) initialWorld
           tooManyRequests tooManyRequests sampleReply).
  - cbn. lia.
  - reflexivity.
  - reflexivity.
  - reflexivity.
  - reflexivity.
  - reflexivity.
  - reflexivity.
Defined.

(** ** Credit estimation *)

Section CreditFacts.
Variable env : Env.
Hypothesis Hfl : monotoneRounding (fl env).
Hypothesis Hmult : (0 <= CREDITS_COST_MULTIPLIER env)%Q.

Lemma fl_nonneg (x : Q) : (0 <= x)%Q -> (0 <= fl env x)%Q.
Proof.
  intros Hx. destruct Hfl as [Hmono H0].
  eapply Qle_trans; [exact H0 | now apply Hmono].
Qed.

Lemma promptTokens_mono (a b : nat) :
  a <= b ->
  (Qceiling (fdiv env (ofNat a) 4) <= Qceiling (fdiv env (ofNat b) 4))%Z.
Proof.
  intros Hab. apply Qceiling_resp_le. unfold fdiv. apply (proj1 Hfl).
  unfold Qdiv. apply Qmult_le_compat_r; [| discriminate].
  unfold ofNat. rewrite <- Zle_Qle. lia.
Qed.

Lemma promptTokens_nonneg (a : nat) : (0 <= Qceiling (fdiv env (ofNat a) 4))%Z.
Proof.
  change 0%Z with (Qceiling 0). apply Qceiling_resp_le.
  unfold fdiv. apply fl_nonneg. unfold Qdiv.
  apply Qmult_le_0_compat; [| discriminate].
  unfold ofNat. change 0%Q with (inject_Z 0). rewrite <- Zle_Qle. lia.
Qed.

Lemma multipliers_mono (t1 t2 : Z) :
  (t1 <= t2)%Z ->
  (0 <= multipliers (complexityOf t1) <= multipliers (complexityOf t2))%Q.
Proof.
  intros Ht. unfold complexityOf.
  destruct (Z.ltb_spec t1 5000), (Z.ltb_spec t2 5000);
    try (destruct (Z.gtb_spec t1 20000)); try (destruct (Z.gtb_spec t2 20000));
    try lia; cbn; split; discriminate.
Qed.

(** Credits as a function of the token estimate. *)
Lemma credits_mono (t1 t2 : Z) :
  (0 <= t1 <= t2)%Z ->
  (Qceiling (fmul env (fmul env (inject_Z t1) (CREDITS_COST_MULTIPLIER env))
                      (multipliers (complexityOf t1)))
   <= Qceiling (fmul env (fmul env (inject_Z t2) (CREDITS_COST_MULTIPLIER env))
                         (multipliers (complexityOf t2))))%Z.
Proof.
  intros [H0 Ht]. apply Qceiling_resp_le. unfold fmul.
  apply (proj1 Hfl). apply Qmult_le_compat_nonneg.
  - split.
    + apply fl_nonneg. apply Qmult_le_0_compat; [| exact Hmult].
      change 0%Q with (inject_Z 0). now rewrite <- Zle_Qle.
    + apply (proj1 Hfl). apply Qmult_le_compat_r; [| exact Hmult].
      now rewrite <- Zle_Qle.
  - now apply multipliers_mono.
Qed.
End CreditFacts.




(** ** Event classes of the engine and of the agents *)

Section EventClasses.
Variable env : Env.

Lemma emitsOnly_Date_now k : emitsOnly k (Date_now env).
Proof. intros w. constructor. Qed.

Lemma emitsOnly_sdkCall p m req : emitsOnly isEngineEvent (sdkCall env p m req).
Proof. intros w. repeat constructor. Qed.

Lemma emitsOnly_providerSwitch p m req :
  emitsOnly isEngineEvent (providerSwitch env p m req).
Proof.
  intros w. rewrite providerSwitch_spec.
  destruct (isProviderAvailable env p); repeat constructor.
Qed.

Lemma emitsOnly_retryLoop ai p m req :
  forall remaining a lastError,
    emitsOnly isEngineEvent (retryLoop env ai p m req remaining a lastError).
Proof.
  induction remaining as [| r IH]; intros a lastError.
  - cbn [retryLoop]. auto with emits.
  - cbn [retryLoop]. apply emitsOnly_tryCatch; [apply emitsOnly_providerSwitch |].
    intros e. destruct (isRateLimitError e); [| auto with emits].
    unfold delay. auto 6 with emits.
Qed.

Lemma emitsOnly_executeWithProvider ai p m req :
  emitsOnly isEngineEvent (executeWithProvider env ai p m req).
Proof. apply emitsOnly_retryLoop. Qed.

Lemma emitsOnly_execute ai req : emitsOnly isEngineEvent (execute env ai req).
Proof.
  unfold execute.
  apply emitsOnly_bind; [apply emitsOnly_Date_now | intros start].
  apply emitsOnly_bind.
  - destruct (isProviderAvailable env _); [| auto with emits].
    apply emitsOnly_tryCatch; [| auto with emits].
    apply emitsOnly_bind; [apply emitsOnly_executeWithProvider | intros r].
    apply emitsOnly_bind; [apply emitsOnly_Date_now | auto with emits].
  - intros [resp |]; [auto with emits |].
    destruct (fallback _) as [fb |]; [| auto with emits].
    destruct (isProviderAvailable env _); [| auto with emits].
    apply emitsOnly_tryCatch; [| auto with emits].
    apply emitsOnly_bind; [apply emitsOnly_executeWithProvider | intros r].
    apply emitsOnly_bind; [apply emitsOnly_Date_now | auto with emits].
Qed.

Lemma engine_is_agent e : isEngineEvent e = true -> isAgentEvent e = true.
Proof.
  destruct e as [p m t | ms | op | l msg d]; cbn; try easy.
  destruct (logSession d); [discriminate | reflexivity].
Qed.

Lemma agent_execute ai req : emitsOnly isAgentEvent (execute env ai req).
Proof. eapply emitsOnly_impl; [apply engine_is_agent | apply emitsOnly_execute]. Qed.

Lemma agent_createPlan prompt0 existing :
  emitsOnly isAgentEvent (createPlan env prompt0 existing).
Proof.
  unfold createPlan. pose proof agent_execute. auto 8 with emits.
Qed.

Lemma agent_generateFile f p existing prompt0 :
  emitsOnly isAgentEvent (generateFile env f p existing prompt0).
Proof.
  unfold generateFile. pose proof agent_execute. auto 8 with emits.
Qed.

Lemma agent_validateFile filePath fileContent :
  emitsOnly isAgentEvent (validateFile env filePath fileContent).
Proof.
  unfold validateFile. pose proof agent_execute. auto 8 with emits.
Qed.

Lemma agent_fix filePath fileContent issueList :
  emitsOnly isAgentEvent (fix_ env filePath fileContent issueList).
Proof.
  unfold fix_. pose proof agent_execute. auto 8 with emits.
Qed.

Lemma agent_suggest paths projType : emitsOnly isAgentEvent (suggest env paths projType).
Proof. unfold suggest. apply agent_execute. Qed.
End EventClasses.

(** ** Ordering of the planned files *)

Section SortFacts.
Variable A : Type.
Variable cmp : A -> A -> Z.
Variable key : A -> Z.
Variable G : A -> Prop.
Hypothesis cmp_key : forall a b, G a -> G b -> cmp a b = (key a - key b)%Z.

Lemma insertBy_perm (x : A) (l : list A) : Permutation (x :: l) (insertBy cmp x l).
Proof.
  induction l as [| y l IH]; cbn; [reflexivity |].
  destruct (cmp x y <=? 0)%Z; [reflexivity |].
  rewrite perm_swap. now constructor.
Qed.

Lemma sortBy_perm (l : list A) : Permutation l (sortBy cmp l).
Proof.
  induction l as [| x l IH]; cbn; [constructor |].
  rewrite <- insertBy_perm. now constructor.
Qed.

Lemma insertBy_sorted (x : A) (l : list A) :
  G x -> Forall G l ->
StronglySorted (leBy key) l -> StronglySorted (leBy key) (insertBy cmp x l).
Proof.
  intros Gx Gl Hs. induction Hs as [| y l Hs IH Hy]; cbn.
  - repeat constructor.
  - inversion Gl as [| y' l' Gy Gl']; subst.
    destruct (Z.leb_spec (cmp x y) 0) as [Hle | Hgt]; rewrite (cmp_key x y Gx Gy) in *.
    + constructor; [now constructor |].
      constructor; [unfold leBy; lia |].
      eapply Forall_impl; [| exact Hy]. unfold leBy. intros z Hz. lia.
    + constructor; [now apply IH |].
      eapply Permutation_Forall; [apply insertBy_perm |].
      constructor; [unfold leBy; lia | exact Hy].
Qed.

Lemma sortBy_sorted (l : list A) :
Forall G l -> StronglySorted (leBy key) (sortBy cmp l).
Proof.
  induction l as [| x l IH]; intros Gl; cbn; [constructor |].
  inversion Gl as [| x' l' Gx Gl']; subst.
  apply insertBy_sorted; [assumption | | now apply IH].
  eapply Permutation_Forall; [apply sortBy_perm | assumption].
Qed.
End SortFacts.

Lemma Subseq_refl {A} (l : list A) : Subseq l l.
Proof. induction l; now constructor. Qed.

Lemma Subseq_app {A} (l1 l2 k1 k2 : list A) :
  Subseq l1 l2 -> Subseq k1 k2 -> Subseq (l1 ++ k1) (l2 ++ k2).
Proof. induction 1; intros Hk; cbn; try (constructor; auto); auto. Qed.

Lemma Subseq_length {A} (l1 l2 : list A) : Subseq l1 l2 -> List.length l1 <= List.length l2.
Proof. induction 1; cbn; lia. Qed.

Lemma Subseq_Forall {A} (P : A -> Prop) (l1 l2 : list A) :
  Subseq l1 l2 -> Forall P l2 -> Forall P l1.
Proof.
  induction 1; intros HF; [constructor | |].
  - inversion HF; subst. constructor; auto.
  - inversion HF; subst. auto.
Qed.

Lemma Subseq_sorted {A} (R : A -> A -> Prop) (l1 l2 : list A) :
  Subseq l1 l2 -> StronglySorted R l2 -> StronglySorted R l1.
Proof.
  induction 1; intros Hs; [constructor | |].
  - inversion Hs; subst. constructor; [auto |].
    eapply Subseq_Forall; eassumption.
  - inversion Hs; subst. auto.
Qed.

Lemma sortFiles_sorted (fs : list FileSpec) :
  uniformPriority fs -> StronglySorted keyLe (sortFilesByDependency fs).
Proof.
  intros [Hall | Hnone]; unfold sortFilesByDependency.
  - apply (sortBy_sorted FileSpec compareFiles orderKey (fun f => hasPriority f = true));
      [| exact Hall].
    intros a b Ha Hb. unfold compareFiles, orderKey, hasPriority in *.
    destruct (priority a), (priority b); try discriminate. reflexivity.
  - apply (sortBy_sorted FileSpec compareFiles orderKey (fun f => hasPriority f = false));
      [| exact Hnone].
    intros a b Ha Hb. unfold compareFiles, orderKey, hasPriority in *.
    destruct (priority a), (priority b); try discriminate. reflexivity.
Qed.

(** ** Reasoning rules for the effect monad *)

Lemma post_bind {A B} (m : M A) (f : A -> M B) w (Q : Result B -> World -> list Event -> Prop) :
  post m w (fun r w1 t1 =>
              match r with
              | Ok a => post (f a) w1 (fun r2 w2 t2 => Q r2 w2 (t1 ++ t2))
              | Throw e => Q (Throw e) w1 t1
              end) ->
  post (bind m f) w Q.
Proof.
  unfold post, bind, resultOf, worldOf, traceOf.
  destruct (m w) as [[[a | e] w1] t1]; cbn [fst snd]; [| auto].
  now destruct (f a w1) as [[r2 w2] t2].
Qed.

Lemma post_tryCatch {A} (m : M A) (h : JsValue -> M A) w
      (Q : Result A -> World -> list Event -> Prop) :
  post m w (fun r w1 t1 =>
              match r with
              | Ok a => Q (Ok a) w1 t1
              | Throw e => post (h e) w1 (fun r2 w2 t2 => Q r2 w2 (t1 ++ t2))
              end) ->
  post (tryCatch m h) w Q.
Proof.
  unfold post, tryCatch, resultOf, worldOf, traceOf.
  destruct (m w) as [[[a | e] w1] t1]; cbn [fst snd]; [auto |].
  now destruct (h e w1) as [[r2 w2] t2].
Qed.

Lemma post_conseq {A} (m : M A) w (Q Q' : Result A -> World -> list Event -> Prop) :
  post m w Q -> (forall r w' t, Q r w' t -> Q' r w' t) -> post m w Q'.
Proof. unfold post. auto. Qed.

Lemma post_eq {A} (m : M A) w r w' t :
  m w = (r, w', t) -> post m w (fun r0 w0 t0 => r0 = r /\ w0 = w' /\ t0 = t).
Proof. intros H. unfold post. rewrite H. now cbn. Qed.

Lemma post_agent {A} k (m : M A) w :
  emitsOnly k m -> keepsLocals m ->
  post m w (fun _ w' t => Forall (fun e => k e = true) t /\ sameLocals w w').
Proof. intros He Hk. unfold post. split; [apply He | apply Hk]. Qed.

Lemma keepsLocals_ret {A} (a : A) : keepsLocals (ret a).
Proof. intros w. now cbn. Qed.

Lemma keepsLocals_throw {A} e : keepsLocals (@throw A e).
Proof. intros w. now cbn. Qed.

Lemma keepsLocals_liftResult {A} (r : Result A) : keepsLocals (liftResult r).
Proof. intros w. now cbn. Qed.

Lemma keepsLocals_emit e : keepsLocals (emit e).
Proof. intros w. now cbn. Qed.

Lemma keepsLocals_logger l msg d : keepsLocals (logger l msg d).
Proof. intros w. now cbn. Qed.

Lemma keepsLocals_bind {A B} (m : M A) (f : A -> M B) :
  keepsLocals m -> (forall a, keepsLocals (f a)) -> keepsLocals (bind m f).
Proof.
  intros Hm Hf w. specialize (Hm w). unfold bind, worldOf in *.
  destruct (m w) as [[[a | e] w1] t1]; cbn [fst snd] in *; [| exact Hm].
  specialize (Hf a w1). unfold worldOf in Hf.
  destruct (f a w1) as [[r2 w2] t2]. cbn [fst snd] in *.
  destruct Hm as (H1 & H2 & H3 & H4), Hf as (G1 & G2 & G3 & G4).
  repeat split; congruence.
Qed.

Lemma keepsLocals_tryCatch {A} (m : M A) (h : JsValue -> M A) :
  keepsLocals m -> (forall e, keepsLocals (h e)) -> keepsLocals (tryCatch m h).
Proof.
  intros Hm Hh w. specialize (Hm w). unfold tryCatch, worldOf in *.
  destruct (m w) as [[[a | e] w1] t1]; cbn [fst snd] in *; [exact Hm |].
  specialize (Hh e w1). unfold worldOf in Hh.
  destruct (h e w1) as [[r2 w2] t2]. cbn [fst snd] in *.
  destruct Hm as (H1 & H2 & H3 & H4), Hh as (G1 & G2 & G3 & G4).
  repeat split; congruence.
Qed.

Create HintDb locals.
#[local] Hint Resolve keepsLocals_ret keepsLocals_throw keepsLocals_liftResult
  keepsLocals_emit keepsLocals_logger keepsLocals_bind keepsLocals_tryCatch : locals.

Section LocalsFacts.
Variable env : Env.

Lemma keepsLocals_Date_now : keepsLocals (Date_now env).
Proof. intros w. now cbn. Qed.

Lemma keepsLocals_providerSwitch p m req : keepsLocals (providerSwitch env p m req).
Proof.
  intros w. rewrite providerSwitch_spec.
  destruct (isProviderAvailable env p); now cbn.
Qed.

Lemma keepsLocals_retryLoop ai p m req :
  forall remaining a lastError,
    keepsLocals (retryLoop env ai p m req remaining a lastError).
Proof.
  induction remaining as [| r IH]; intros a lastError.
  - cbn [retryLoop]. auto with locals.
  - cbn [retryLoop]. apply keepsLocals_tryCatch; [apply keepsLocals_providerSwitch |].
    intros e. destruct (isRateLimitError e); [| auto with locals].
    unfold delay. auto 6 with locals.
Qed.

Lemma keepsLocals_execute ai req : keepsLocals (execute env ai req).
Proof.
  pose proof keepsLocals_Date_now as Hd.
  pose proof (keepsLocals_retryLoop ai) as Hr.
  unfold execute, executeWithProvider.
  apply keepsLocals_bind; [exact Hd | intros start].
  apply keepsLocals_bind.
  - destruct (isProviderAvailable env _); auto 8 with locals.
  - intros [resp |]; [auto with locals |].
    destruct (fallback _) as [fb |]; [| auto with locals].
    destruct (isProviderAvailable env _); auto 8 with locals.
Qed.

Lemma keepsLocals_createPlan prompt0 existing :
  keepsLocals (createPlan env prompt0 existing).
Proof. unfold createPlan. pose proof keepsLocals_execute. auto 8 with locals. Qed.

Lemma keepsLocals_generateFile f p existing prompt0 :
  keepsLocals (generateFile env f p existing prompt0).
Proof. unfold generateFile. pose proof keepsLocals_execute. auto 8 with locals. Qed.

Lemma keepsLocals_validateFile filePath fileContent :
  keepsLocals (validateFile env filePath fileContent).
Proof. unfold validateFile. pose proof keepsLocals_execute. auto 8 with locals. Qed.

Lemma keepsLocals_fix filePath fileContent issueList :
  keepsLocals (fix_ env filePath fileContent issueList).
Proof. unfold fix_. pose proof keepsLocals_execute. auto 8 with locals. Qed.

Lemma keepsLocals_suggest paths projType : keepsLocals (suggest env paths projType).
Proof. unfold suggest. apply keepsLocals_execute. Qed.
End LocalsFacts.

(** ** The generate loop *)

Lemma attemptedPaths_app (t1 t2 : list Event) :
  attemptedPaths (t1 ++ t2) = attemptedPaths t1 ++ attemptedPaths t2.
Proof. unfold attemptedPaths. apply flat_map_app. Qed.

Lemma agent_no_attempt (t : list Event) :
  Forall (fun e => isAgentEvent e = true) t -> attemptedPaths t = [].
Proof.
  induction 1 as [| e t He _ IH]; [reflexivity |].
  change (e :: t) with ([e] ++ t). rewrite attemptedPaths_app, IH, app_nil_r.
  destruct e as [? ? ? | ? | ? | l msg d]; try reflexivity.
  cbn in *. destruct l; try reflexivity.
  destruct (String.eqb msg "Generating file"); [| reflexivity].
  destruct (logSession d); [discriminate | reflexivity].
Qed.

Lemma agent_no_update (t : list Event) :
  Forall (fun e => isAgentEvent e = true) t -> sessionUpdatesOf t = [].
Proof.
  induction 1 as [| e t He _ IH]; [reflexivity |].
  change (e :: t) with ([e] ++ t). rewrite sessionUpdatesOf_app, IH, app_nil_r.
  destruct e as [? ? ? | ? | ? | l msg d]; try reflexivity. discriminate.
Qed.

Section GenerateFacts.
Variable env : Env.
Variable self : GenerationPipeline.

Lemma generateOne_spec p f w :
  post (generateOne env self p f) w
       (fun r w' t =>
          r = Ok tt /\
          attemptedPaths t = [path f] /\
          ((generatedFiles w' = generatedFiles w /\ sessionUpdatesOf t = []) \/
           (exists c now,
               generatedFiles w' =
               generatedFiles w ++ [mkGeneratedFile (path f) c false None] /\
               sessionUpdatesOf t =
               [sessionPayload generating
                  (mkSessionData None None (Some (List.length (generatedFiles w')))
                                 None None None) now]))).
Proof.
  unfold generateOne. apply post_tryCatch. apply post_bind.
  unfold post at 1. cbn [logger emit resultOf worldOf traceOf fst snd].
  apply post_bind.
  unfold post at 1. unfold getWorkspaceFiles at 1. cbn [resultOf worldOf traceOf fst snd].
  destruct (dbThrows env (nDb w)) as [e0 |].
  { unfold post. cbn. auto. }
  apply post_bind.
  eapply post_conseq;
    [apply post_agent; [apply agent_generateFile | apply keepsLocals_generateFile] |].
  intros [result | e1] w1 t1 [Hev (Hf1 & _ & _ & Hdb1)];
    pose proof (agent_no_attempt _ Hev) as Ha1;
    pose proof (agent_no_update _ Hev) as Hu1.
  2:{ unfold post. cbn -[app attemptedPaths sessionUpdatesOf].
      rewrite !attemptedPaths_app, !sessionUpdatesOf_app, Ha1, Hu1. cbn.
      rewrite Hf1. auto. }
  apply post_bind. unfold post at 1. cbn -[app attemptedPaths sessionUpdatesOf].
  apply post_bind. unfold post at 1. unfold dbCall at 1.
  cbn -[app attemptedPaths sessionUpdatesOf].
  destruct (dbThrows env (nDb w1)) as [e2 |].
  { unfold post. cbn -[app attemptedPaths sessionUpdatesOf].
    rewrite !attemptedPaths_app, !sessionUpdatesOf_app, Ha1, Hu1. cbn.
    rewrite Hf1. auto. }
  apply post_bind. unfold post at 1. unfold dbCall at 1.
  cbn -[app attemptedPaths sessionUpdatesOf].
  destruct (dbThrows env (S (nDb w1))) as [e3 |].
  { unfold post. cbn -[app attemptedPaths sessionUpdatesOf].
    rewrite !attemptedPaths_app, !sessionUpdatesOf_app, Ha1, Hu1. cbn.
    rewrite Hf1. auto. }
  apply post_bind. unfold post at 1. cbn -[app attemptedPaths sessionUpdatesOf].
  apply post_bind. unfold post at 1. cbn -[app attemptedPaths sessionUpdatesOf].
  apply post_bind. unfold post at 1. unfold updateSessionStatus, dbCall, bind, Date_now.
  cbn -[app attemptedPaths sessionUpdatesOf].
  destruct (dbThrows env (S (S (nDb w1)))) as [e4 |].
  { unfold post. cbn -[app attemptedPaths sessionUpdatesOf].
    rewrite !attemptedPaths_app, !sessionUpdatesOf_app, Ha1, Hu1. cbn.
    rewrite Hf1. conjs; try reflexivity. right. eauto. }
  unfold post. cbn -[app attemptedPaths sessionUpdatesOf].
  rewrite !attemptedPaths_app, !sessionUpdatesOf_app, Ha1, Hu1. cbn.
  rewrite Hf1. conjs; try reflexivity. right. eauto.
Qed.

(** The loop never throws, announces every planned file in order, and
    pushes a generated file (and writes one progress update) for a
    subsequence of them. *)
Lemma generateLoop_spec p specs :
  forall w,
    post (generateLoop env self p specs) w
         (fun r w' t =>
            r = Ok tt /\
            attemptedPaths t = map path specs /\
            exists done news,
              Subseq done specs /\
              generatedFiles w' = generatedFiles w ++ news /\
              map gPath news = map path done /\
              Forall (fun g => validated g = false /\ errors g = None) news /\
              statusWrites t = repeat generating (List.length done)).
Proof.
  induction specs as [| f rest IH]; intros w.
  - unfold post. cbn. conjs; try reflexivity.
    exists [], []. conjs; try reflexivity; try constructor.
    now rewrite app_nil_r.
  - cbn [generateLoop]. apply post_bind.
    eapply post_conseq; [apply generateOne_spec |].
    intros r w1 t1 (-> & Ha & Hcase).
    eapply post_conseq; [apply IH |].
    intros r2 w2 t2 (-> & Ha2 & done & news & Hsub & Hfiles & Hpaths & Hnew & Hst).
    split; [reflexivity |]. split.
    { rewrite attemptedPaths_app, Ha, Ha2. reflexivity. }
    destruct Hcase as [(Hf & Hu) | (c & now & Hf & Hu)].
    + exists done, news. conjs; try assumption.
      * now constructor.
      * now rewrite Hfiles, Hf.
      * unfold statusWrites in *. now rewrite sessionUpdatesOf_app, Hu.
    + exists (f :: done), (mkGeneratedFile (path f) c false None :: news). conjs.
      * now constructor.
      * rewrite Hfiles, Hf, <- app_assoc. reflexivity.
      * cbn. now rewrite Hpaths.
      * constructor; [now split | assumption].
      * unfold statusWrites in *. rewrite sessionUpdatesOf_app, Hu, map_app, Hst.
        reflexivity.
Qed.
End GenerateFacts.

(** ** The validate-then-fix loop *)

Lemma validationsOf_app (t1 t2 : list Event) :
  validationsOf (t1 ++ t2) = validationsOf t1 + validationsOf t2.
Proof. unfold validationsOf. now rewrite filter_app, length_app. Qed.

Lemma loggedIssues_app (t1 t2 : list Event) :
  loggedIssues (t1 ++ t2) = loggedIssues t1 ++ loggedIssues t2.
Proof. unfold loggedIssues. apply flat_map_app. Qed.

Lemma quiet_obs (t : list Event) :
  Forall (fun e => isQuietEvent e = true) t ->
  validationsOf t = 0 /\ loggedIssues t = [].
Proof.
  induction 1 as [| e t He _ [IH1 IH2]]; [now split |].
  change (e :: t) with ([e] ++ t).
  rewrite validationsOf_app, loggedIssues_app, IH1, IH2, app_nil_r, Nat.add_0_r.
  destruct e as [? ? ? | ? | ? | l msg d]; try (now split).
  unfold validationsOf. cbn in *. destruct l; try (now split).
  - destruct (String.eqb msg "Validating file with AI"); [discriminate | now split].
  - destruct (String.eqb msg "Validation failed, attempting fix");
      [discriminate | now split].
Qed.

Lemma engine_is_quiet e : isEngineEvent e = true -> isQuietEvent e = true.
Proof.
  destruct e as [p m t | ms | op | l msg d]; cbn; try easy.
  destruct (logSession d), (logFile d); try discriminate.
  destruct l; cbn; try easy.
  intros H. apply orb_true_iff in H. destruct H as [H | H];
    apply String.eqb_eq in H; subst msg; reflexivity.
Qed.

Section ValidateFacts.
Variable env : Env.
Variable self : GenerationPipeline.

Lemma quiet_execute ai req : emitsOnly isQuietEvent (execute env ai req).
Proof. eapply emitsOnly_impl; [apply engine_is_quiet | apply emitsOnly_execute]. Qed.

Lemma quiet_fix filePath fileContent issueList :
  emitsOnly isQuietEvent (fix_ env filePath fileContent issueList).
Proof. unfold fix_. pose proof quiet_execute. auto 8 with emits. Qed.

(** One [validateFile] call: one validation start, no failure report. *)
Lemma validateFile_obs filePath fileContent w :
  validationsOf (traceOf (validateFile env filePath fileContent w)) = 1 /\
  loggedIssues (traceOf (validateFile env filePath fileContent w)) = [].
Proof.
  unfold validateFile. rewrite traceOf_bind. cbn [logger emit resultOf worldOf traceOf fst snd].
  rewrite validationsOf_app, loggedIssues_app.
  assert (Hq : emitsOnly isQuietEvent
                 (response <- execute env getBuildableAI
                                (mkRequest VALIDATION true (Some 2000%Z)) ;;
                  result <- liftResult (parseValidation env (content response)) ;;
                  logger Info "AI validation complete" (fileData filePath) ;;
                  ret (mkValidationResult (jValid result) (jIssues result)
                         (jSuggestions result) (totalTokens (usage response))
                         (cost response)))).
  { pose proof quiet_execute. auto 8 with emits. }
  destruct (quiet_obs _ (Hq w)) as [H1 H2].
  rewrite H1, H2. now split.
Qed.

Lemma post_validateFile filePath fileContent w :
  post (validateFile env filePath fileContent) w
       (fun _ w1 t1 =>
          validationsOf t1 = 1 /\ loggedIssues t1 = [] /\ sameLocals w w1).
Proof.
  unfold post. destruct (validateFile_obs filePath fileContent w) as [H1 H2].
  conjs; try assumption. apply keepsLocals_validateFile.
Qed.

Lemma post_fix filePath fileContent issueList w :
  post (fix_ env filePath fileContent issueList) w
       (fun _ w1 t1 =>
          validationsOf t1 = 0 /\ loggedIssues t1 = [] /\ sameLocals w w1).
Proof.
  unfold post.
  destruct (quiet_obs _ (quiet_fix filePath fileContent issueList w)) as [H1 H2].
  conjs; try assumption. apply keepsLocals_fix.
Qed.
End ValidateFacts.

Lemma nth_setNth_same {A} (i : nat) (x d : A) (l : list A) :
  i < List.length l -> nth i (setNth i x l) d = x.
Proof.
  revert i. induction l as [| y l IH]; intros [| i] H; cbn in *; try lia; auto.
  apply IH. lia.
Qed.

Lemma nth_setNth_other {A} (i j : nat) (x d : A) (l : list A) :
  j <> i -> nth j (setNth i x l) d = nth j l d.
Proof.
  revert i j. induction l as [| y l IH]; intros [| i] [| j] H; cbn; try reflexivity;
    try lia.
  apply IH. lia.
Qed.

Lemma length_setNth {A} (i : nat) (x : A) (l : list A) :
  List.length (setNth i x l) = List.length l.
Proof.
  revert i. induction l as [| y l IH]; intros [| i]; cbn; auto.
Qed.

Lemma last_cons {A} (x d : A) (l : list A) : last (x :: l) d = last l x.
Proof.
  revert x d. induction l as [| y l IH]; intros x d; [reflexivity |].
  change (last (x :: y :: l) d) with (last (y :: l) d). now rewrite !IH.
Qed.

Lemma post_dbCall env op w (Q : Result unit -> World -> list Event -> Prop) :
  match dbThrows env (nDb w) with
  | Some e => Q (Throw e) (setDb w (S (nDb w))) [EvDb op]
  | None => Q (Ok tt) (setDb w (S (nDb w))) [EvDb op]
  end ->
  post (dbCall env op) w Q.
Proof.
  unfold post, dbCall, resultOf, worldOf, traceOf. cbn [fst snd].
  now destruct (dbThrows env (nDb w)).
Qed.

Section ValidationLoop.
Variable env : Env.
Variable self : GenerationPipeline.

(** Invariant of the validate-then-fix loop for the file at index [i]. *)
Lemma validationLoop_spec i :
  forall remaining a w,
    i < List.length (generatedFiles w) ->
    post (validationLoop env self i remaining a) w
         (fun r w' t =>
            validationsOf t <= remaining /\
            List.length (generatedFiles w') = List.length (generatedFiles w) /\
            (forall j, j <> i -> fileAt j w' = fileAt j w) /\
            gPath (fileAt i w') = gPath (fileAt i w) /\
            match r with
            | Ok (true, _) =>
                errors (fileAt i w') =
                  last (map Some (loggedIssues t)) (errors (fileAt i w)) /\
                validated (fileAt i w') = true /\
                exists t0, t = t0 ++ [validatedLog (gPath (fileAt i w))]
            | Ok (false, a') =>
                errors (fileAt i w') =
                  last (map Some (loggedIssues t)) (errors (fileAt i w)) /\
                validated (fileAt i w') = validated (fileAt i w) /\
                validationsOf t = remaining /\
                List.length (loggedIssues t) = remaining /\
                a' = a + remaining
            | Throw _ => True
            end).
Proof.
  induction remaining as [| r IH]; intros a w Hi.
  - unfold post. cbn. conjs; auto.
  - cbn [validationLoop]. apply post_bind. unfold post at 1.
    cbn [getFile resultOf worldOf traceOf fst snd]. fold (fileAt i w).
    apply post_bind. eapply post_conseq; [apply post_validateFile |].
    intros [validation | e] w1 t1 (Hv1 & Hl1 & (Hf1 & _)).
    2:{ cbn [app]. rewrite Hv1. unfold fileAt. rewrite Hf1. conjs; auto. lia. }
    apply post_bind. unfold post at 1.
    cbn [addUsage modifyWorld resultOf worldOf traceOf fst snd].
    destruct (valid validation).
    + unfold post. cbn -[app validationsOf loggedIssues fileAt last setNth].
      unfold fileAt. cbn [generatedFiles setFiles setUsage]. rewrite Hf1.
      rewrite !nth_setNth_same by exact Hi. rewrite length_setNth.
      rewrite !validationsOf_app, !loggedIssues_app, Hv1, Hl1.
      cbn -[nth setNth]. conjs; try reflexivity; try lia.
      * intros j Hj. now apply nth_setNth_other.
      * exists t1. reflexivity.
    + apply post_bind. unfold post at 1.
      cbn [logger emit resultOf worldOf traceOf fst snd].
      apply post_bind. eapply post_conseq; [apply post_fix |].
      intros [fixResult | e] w2 t2 (Hv2 & Hl2 & (Hf2 & _)).
      2:{ cbn -[app validationsOf loggedIssues fileAt last setNth] in *.
          unfold fileAt. rewrite Hf2, Hf1.
          rewrite !validationsOf_app, Hv1, Hv2.
          cbn -[nth]. conjs; auto. lia. }
      cbn [generatedFiles setFiles setUsage] in Hf2.
      apply post_bind. unfold post at 1.
      cbn [addUsage modifyWorld resultOf worldOf traceOf fst snd].
      apply post_bind. unfold post at 1.
      cbn [setFile modifyWorld resultOf worldOf traceOf fst snd].
      apply post_bind. apply post_dbCall.
      match goal with |- context [setDb ?w0 ?n] => set (w3 := setDb w0 n) end.
      assert (Hf3 : generatedFiles w3 =
                    setNth i (mkGeneratedFile (gPath (fileAt i w)) (fContent fixResult)
                                              (validated (fileAt i w))
                                              (Some (issues validation)))
                           (generatedFiles w)).
      { subst w3. cbn [generatedFiles setDb setFiles setUsage]. now rewrite Hf2, Hf1. }
      assert (Hi3 : i < List.length (generatedFiles w3)).
      { rewrite Hf3, length_setNth. exact Hi. }
      assert (Hat : fileAt i w3 =
                    mkGeneratedFile (gPath (fileAt i w)) (fContent fixResult)
                                    (validated (fileAt i w)) (Some (issues validation))).
      { unfold fileAt at 1. rewrite Hf3. now apply nth_setNth_same. }
      assert (Hother : forall j, j <> i -> fileAt j w3 = fileAt j w).
      { intros j Hj. unfold fileAt. rewrite Hf3. now apply nth_setNth_other. }
      clearbody w3.
      destruct (dbThrows env _) as [e |].
      { rewrite !validationsOf_app, Hv1, Hv2. cbn -[fileAt].
        rewrite Hat, Hf3, length_setNth. conjs; auto. lia. }
      eapply post_conseq; [apply (IH (a + 1) w3 Hi3) |].
      intros r3 w4 t4 (Hv4 & Hlen4 & Hoth4 & Hp4 & Hres).
      rewrite !validationsOf_app, !loggedIssues_app, Hv1, Hv2, Hl1, Hl2.
      cbn -[fileAt last]. rewrite Hat in *. cbn [gPath errors validated] in *.
      rewrite Hf3, length_setNth in Hlen4.
      conjs; try assumption; try lia.
      * intros j Hj. rewrite Hoth4 by exact Hj. now apply Hother.
      * destruct r3 as [[[|] a'] | e]; [| | exact I].
        -- destruct Hres as (He & Hval & t0 & Ht0). conjs.
           ++ rewrite last_cons. exact He.
           ++ exact Hval.
           ++ rewrite Ht0.
              match goal with
              | |- ex (fun _ => ?x ++ ?l :: ?y ++ ?u :: ?z ++ [?v] = _) =>
                  exists (x ++ l :: y ++ u :: z)
              end.
              rewrite <- !app_assoc. cbn [app]. rewrite <- !app_assoc. reflexivity.
        -- destruct Hres as (He & Hval & Hn & Hl & Ha). conjs.
           ++ rewrite last_cons. exact He.
           ++ exact Hval.
           ++ lia.
           ++ cbn. lia.
           ++ lia.
Qed.

(** The loop for one file followed by the exhaustion report. *)
Lemma validateOne_spec i w :
  i < List.length (generatedFiles w) ->
  post (validateOne env self i) w
       (fun r w' t =>
          validationsOf t <= maxValidationRetries self /\
          List.length (generatedFiles w') = List.length (generatedFiles w) /\
          (forall j, j <> i -> fileAt j w' = fileAt j w) /\
          gPath (fileAt i w') = gPath (fileAt i w) /\
          (r = Ok tt ->
           errors (fileAt i w') =
             last (map Some (loggedIssues t)) (errors (fileAt i w)) /\
           ((validated (fileAt i w') = true /\
             exists t0, t = t0 ++ [validatedLog (gPath (fileAt i w))]) \/
            (validated (fileAt i w') = validated (fileAt i w) /\
             validationsOf t = maxValidationRetries self /\
             List.length (loggedIssues t) = maxValidationRetries self /\
             exists t0,
               t = t0 ++ [exhaustedLog (gPath (fileAt i w))
                                       (maxValidationRetries self)])))).
Proof.
  intros Hi. unfold validateOne. apply post_bind.
  eapply post_conseq; [apply (validationLoop_spec i _ 0 w Hi) |].
  intros r w1 t1 (Hv & Hlen & Hoth & Hp & Hres).
  destruct r as [[[|] a'] | e].
  - unfold post. cbn -[app validationsOf loggedIssues fileAt last].
    rewrite app_nil_r. destruct Hres as (He & Hval & Ht0).
    conjs; try assumption. intros _. split; [assumption |]. left. now split.
  - unfold post. cbn -[app validationsOf loggedIssues fileAt last].
    destruct Hres as (He & Hval & Hn & Hl & Ha). subst a'.
    rewrite validationsOf_app, loggedIssues_app. cbn -[fileAt last].
    rewrite app_nil_r, Nat.add_0_r. fold (fileAt i w1). rewrite Hp.
    conjs; try assumption; try lia; try reflexivity.
    intros _. split; [assumption |]. right. conjs; try assumption.
    exists t1. reflexivity.
  - conjs; try assumption. intros H. discriminate H.
Qed.
End ValidationLoop.

(** ** Phases that write no status *)

Lemma keepsFileCount_of_locals {A} (m : M A) : keepsLocals m -> keepsFileCount m.
Proof. intros H w. destruct (H w) as [Hf _]. now rewrite Hf. Qed.

Lemma keepsFileCount_ret {A} (a : A) : keepsFileCount (ret a).
Proof. intros w. reflexivity. Qed.

Lemma keepsFileCount_logger l msg d : keepsFileCount (logger l msg d).
Proof. intros w. reflexivity. Qed.

Lemma keepsFileCount_getWorld : keepsFileCount getWorld.
Proof. intros w. reflexivity. Qed.

Lemma keepsFileCount_liftResult {A} (r : Result A) : keepsFileCount (liftResult r).
Proof. intros w. reflexivity. Qed.

Lemma keepsFileCount_getFile i : keepsFileCount (getFile i).
Proof. intros w. reflexivity. Qed.

Lemma keepsFileCount_setFile i f : keepsFileCount (setFile i f).
Proof. intros w. cbn. apply length_setNth. Qed.

Lemma keepsFileCount_addUsage env n c : keepsFileCount (addUsage env n c).
Proof. intros w. reflexivity. Qed.

Lemma keepsFileCount_dbCall env op : keepsFileCount (dbCall env op).
Proof. intros w. reflexivity. Qed.

Lemma keepsFileCount_bind {A B} (m : M A) (f : A -> M B) :
  keepsFileCount m -> (forall a, keepsFileCount (f a)) -> keepsFileCount (bind m f).
Proof.
  intros Hm Hf w. specialize (Hm w). unfold bind, worldOf in *.
  destruct (m w) as [[[a | e] w1] t1]; cbn [fst snd] in *; [| exact Hm].
  specialize (Hf a w1). unfold worldOf in Hf.
  destruct (f a w1) as [[r2 w2] t2]. cbn [fst snd] in *. congruence.
Qed.

Lemma keepsFileCount_tryCatch {A} (m : M A) (h : JsValue -> M A) :
  keepsFileCount m -> (forall e, keepsFileCount (h e)) -> keepsFileCount (tryCatch m h).
Proof.
  intros Hm Hh w. specialize (Hm w). unfold tryCatch, worldOf in *.
  destruct (m w) as [[[a | e] w1] t1]; cbn [fst snd] in *; [exact Hm |].
  specialize (Hh e w1). unfold worldOf in Hh.
  destruct (h e w1) as [[r2 w2] t2]. cbn [fst snd] in *. congruence.
Qed.

Create HintDb count.
#[local] Hint Resolve keepsFileCount_ret keepsFileCount_logger keepsFileCount_getWorld
  keepsFileCount_liftResult keepsFileCount_getFile keepsFileCount_setFile
  keepsFileCount_addUsage keepsFileCount_dbCall keepsFileCount_bind
  keepsFileCount_tryCatch : count.

Lemma agent_is_noUpdate e : isAgentEvent e = true -> isNoUpdate e = true.
Proof. destruct e as [? ? ? | ? | [] | ? ? ?]; cbn; easy. Qed.

Lemma noUpdate_statusWrites (t : list Event) :
  Forall (fun e => isNoUpdate e = true) t -> sessionUpdatesOf t = [].
Proof.
  induction 1 as [| e t He _ IH]; [reflexivity |].
  change (e :: t) with ([e] ++ t). rewrite sessionUpdatesOf_app, IH, app_nil_r.
  destruct e as [? ? ? | ? | [] | ? ? ?]; try reflexivity. discriminate.
Qed.

Lemma emitsOnly_dbCall env k op : k (EvDb op) = true -> emitsOnly k (dbCall env op).
Proof. intros H w. repeat constructor. exact H. Qed.

Lemma emitsOnly_getFile k i : emitsOnly k (getFile i).
Proof. intros w. constructor. Qed.

#[local] Hint Resolve emitsOnly_getFile : emits.
#[local] Hint Extern 1 (emitsOnly _ (dbCall _ _)) =>
  apply emitsOnly_dbCall; reflexivity : emits.
#[local] Hint Extern 1 (emitsOnly _ (addUsage _ _ _)) =>
  apply emitsOnly_modifyWorld : emits.
#[local] Hint Extern 1 (emitsOnly _ (setFile _ _)) =>
  apply emitsOnly_modifyWorld : emits.

Section QuietPhases.
Variable env : Env.
Variable self : GenerationPipeline.

Lemma noUpdate_validateFile filePath fileContent :
  emitsOnly isNoUpdate (validateFile env filePath fileContent).
Proof. eapply emitsOnly_impl; [apply agent_is_noUpdate | apply agent_validateFile]. Qed.

Lemma noUpdate_fix filePath fileContent issueList :
  emitsOnly isNoUpdate (fix_ env filePath fileContent issueList).
Proof. eapply emitsOnly_impl; [apply agent_is_noUpdate | apply agent_fix]. Qed.

Lemma noUpdate_suggest paths projType :
  emitsOnly isNoUpdate (suggest env paths projType).
Proof. eapply emitsOnly_impl; [apply agent_is_noUpdate | apply agent_suggest]. Qed.

Lemma noUpdate_validationLoop i :
  forall remaining a, emitsOnly isNoUpdate (validationLoop env self i remaining a).
Proof.
  pose proof noUpdate_validateFile. pose proof noUpdate_fix.
  induction remaining as [| r IH]; intros a; cbn [validationLoop];
    [auto with emits |].
  apply emitsOnly_bind; [auto with emits | intros file].
  apply emitsOnly_bind; [auto with emits | intros validation].
  apply emitsOnly_bind; [auto with emits | intros _].
  destruct (valid validation); auto 10 with emits.
Qed.

Lemma count_validationLoop i :
  forall remaining a, keepsFileCount (validationLoop env self i remaining a).
Proof.
  pose proof (fun p c => keepsFileCount_of_locals _ (keepsLocals_validateFile env p c)).
  pose proof (fun p c l => keepsFileCount_of_locals _ (keepsLocals_fix env p c l)).
  induction remaining as [| r IH]; intros a; cbn [validationLoop];
    [auto with count |].
  apply keepsFileCount_bind; [auto with count | intros file].
  apply keepsFileCount_bind; [auto with count | intros validation].
  apply keepsFileCount_bind; [auto with count | intros _].
  destruct (valid validation); auto 10 with count.
Qed.

Lemma noUpdate_validateOne i : emitsOnly isNoUpdate (validateOne env self i).
Proof.
  unfold validateOne. apply emitsOnly_bind; [apply noUpdate_validationLoop |].
  intros [[|] a]; cbn [fst]; auto with emits.
Qed.

Lemma count_validateOne i : keepsFileCount (validateOne env self i).
Proof.
  unfold validateOne. apply keepsFileCount_bind; [apply count_validationLoop |].
  intros [[|] a]; cbn [fst]; auto with count.
Qed.

Lemma noUpdate_forIndices body :
  (forall i, emitsOnly isNoUpdate (body i)) ->
  forall count i, emitsOnly isNoUpdate (forIndices body i count).
Proof.
  intros Hb. induction count as [| n IH]; intros i; cbn [forIndices];
    auto with emits.
Qed.

Lemma count_forIndices body :
  (forall i, keepsFileCount (body i)) ->
  forall count i, keepsFileCount (forIndices body i count).
Proof.
  intros Hb. induction count as [| n IH]; intros i; cbn [forIndices];
    auto with count.
Qed.

Lemma noUpdate_validatePhase : emitsOnly isNoUpdate (validatePhase env self).
Proof.
  unfold validatePhase. apply emitsOnly_bind; [auto with emits | intros w].
  apply noUpdate_forIndices. apply noUpdate_validateOne.
Qed.

Lemma count_validatePhase : keepsFileCount (validatePhase env self).
Proof.
  unfold validatePhase. apply keepsFileCount_bind; [auto with count | intros w].
  apply count_forIndices. apply count_validateOne.
Qed.

Lemma noUpdate_suggestPhase p : emitsOnly isNoUpdate (suggestPhase env p).
Proof. unfold suggestPhase. pose proof noUpdate_suggest. auto 10 with emits. Qed.

Lemma count_suggestPhase p : keepsFileCount (suggestPhase env p).
Proof.
  pose proof (fun a b => keepsFileCount_of_locals _ (keepsLocals_suggest env a b)).
  unfold suggestPhase. auto 10 with count.
Qed.

(** [suggestPhase] never throws. *)
Lemma suggestPhase_ok p w : exists l, resultOf (suggestPhase env p w) = Ok l.
Proof.
  unfold suggestPhase, tryCatch, resultOf.
  match goal with |- context [match ?x with _ => _ end] => destruct x as [[[l | e] w1] t1] end.
  - now exists l.
  - cbn. now exists [].
Qed.
End QuietPhases.

(** ** The status sequence of a run *)

Lemma post_updateSessionStatus env sid s d w
      (Q : Result unit -> World -> list Event -> Prop) :
  (forall r, Q r (setDb w (S (nDb w)))
               [EvDb (UpdateSession sid
                        (sessionPayload s (orDefault d noSessionData) (timeAt env w)))]) ->
  post (updateSessionStatus env sid s d) w Q.
Proof.
  intros H. unfold post, updateSessionStatus, bind, Date_now, dbCall, resultOf, worldOf,
    traceOf. cbn [fst snd app]. apply H.
Qed.

Lemma updateSessionStatus_ok env sid s d w :
  dbThrows env (nDb w) = None ->
  updateSessionStatus env sid s d w =
  (Ok tt, setDb w (S (nDb w)),
   [EvDb (UpdateSession sid (sessionPayload s (orDefault d noSessionData) (timeAt env w)))]).
Proof.
  intros H. unfold updateSessionStatus, bind, Date_now, dbCall. now rewrite H.
Qed.

Lemma post_getWorkspaceFiles env wid w
      (Q : Result (list WorkspaceFile) -> World -> list Event -> Prop) :
  (forall r, Q r (setDb w (S (nDb w))) [EvDb (GetWorkspaceFiles wid)]) ->
  post (getWorkspaceFiles env wid) w Q.
Proof.
  intros H. unfold post, getWorkspaceFiles, resultOf, worldOf, traceOf.
  cbn [fst snd]. apply H.
Qed.

Lemma post_quiet {A} (m : M A) w :
  emitsOnly isNoUpdate m -> keepsFileCount m ->
  post m w (fun _ w' t =>
              sessionUpdatesOf t = [] /\
              List.length (generatedFiles w') = List.length (generatedFiles w)).
Proof.
  intros He Hc. unfold post. split; [| apply Hc].
  apply noUpdate_statusWrites, He.
Qed.

Section RunFacts.
Variable env : Env.
Variable self : GenerationPipeline.

Lemma planPhase_spec w :
  post (planPhase env self) w
       (fun r w' t =>
          generatedFiles w' = generatedFiles w /\
          match r with
          | Ok _ => statusWrites t = [planning; scaffolding]
          | Throw _ =>
              statusWrites t = [planning] \/ statusWrites t = [planning; scaffolding]
          end).
Proof.
  unfold planPhase. apply post_bind. unfold post at 1.
  cbn [logger emit resultOf worldOf traceOf fst snd].
  apply post_bind. apply post_updateSessionStatus. intros [[] | e]; [| now auto].
  apply post_bind. apply post_getWorkspaceFiles. intros [existing | e]; [| now auto].
  apply post_bind.
  eapply post_conseq;
    [apply post_agent; [apply agent_createPlan | apply keepsLocals_createPlan] |].
  intros [planResult | e] w1 t1 [Hev (Hf1 & _)];
    pose proof (agent_no_update _ Hev) as Hu1.
  2:{ unfold statusWrites. rewrite !sessionUpdatesOf_app, Hu1. cbn. rewrite Hf1. auto. }
  apply post_bind. unfold post at 1.
  cbn [addUsage modifyWorld resultOf worldOf traceOf fst snd].
  apply post_bind. apply post_updateSessionStatus. intros [[] | e].
  2:{ unfold statusWrites. rewrite !sessionUpdatesOf_app, Hu1. cbn. rewrite Hf1. auto. }
  unfold post. cbn [bind logger emit ret resultOf worldOf traceOf fst snd].
  unfold statusWrites. rewrite !sessionUpdatesOf_app, Hu1. cbn. rewrite Hf1. auto.
Qed.

Lemma scaffoldPhase_spec w :
  exists t, scaffoldPhase self w = (Ok tt, w, t) /\ sessionUpdatesOf t = [].
Proof.
  unfold scaffoldPhase, applyTemplate, bind, logger, emit, ret.
  destruct (truthyKey (template self)); eexists; split; reflexivity.
Qed.

Lemma generatePhase_spec p w :
  post (generatePhase env self p) w
       (fun r w' t =>
          exists done news,
            Subseq done (sortFilesByDependency (files p)) /\
            generatedFiles w' = generatedFiles w ++ news /\
            map gPath news = map path done /\
            Forall (fun g => validated g = false /\ errors g = None) news /\
            statusWrites t = generating :: repeat generating (List.length done)).
Proof.
  unfold generatePhase. apply post_bind. unfold post at 1.
  cbn [logger emit resultOf worldOf traceOf fst snd].
  apply post_bind. apply post_updateSessionStatus. intros [[] | e].
  2:{ exists [], []. conjs; try constructor; cbn.
      - induction (sortFilesByDependency (files p)); now constructor.
      - now rewrite app_nil_r. }
  eapply post_conseq; [apply generateLoop_spec |].
  intros r w1 t1 (_ & _ & done & news & Hsub & Hfiles & Hpaths & Hnew & Hst).
  exists done, news. conjs; try assumption.
  unfold statusWrites in *. rewrite !sessionUpdatesOf_app, map_app, !map_app, Hst.
  reflexivity.
Qed.

Lemma completePhase_spec p sugg w :
  post (completePhase env self p sugg) w
       (fun r w' t =>
          statusWrites t = [completed] /\
          match r with
          | Ok res => success res = true /\ resultFiles res = generatedFiles w
          | Throw _ => True
          end).
Proof.
  unfold completePhase. apply post_bind. unfold post at 1.
  cbn [getWorld resultOf worldOf traceOf fst snd].
  apply post_bind. apply post_updateSessionStatus. intros [[] | e]; [| now auto].
  apply post_bind. apply post_dbCall.
  destruct (dbThrows env _); [now auto |].
  unfold post. cbn. auto.
Qed.

Lemma runCatch_spec error w :
  post (runCatch env self error) w
       (fun r w' t =>
          generatedFiles w' = generatedFiles w /\
          sessionUpdatesOf t =
            [sessionPayload failed
               (mkSessionData None None None (Some (errorMessageOf error))
                              (Some (totalTokens_ w))
                              (Some (creditsOf env (totalCost w))))
               (timeAt env w)] /\
          match r with
          | Ok res => success res = false /\
                      resultError res = Some (errorMessageOf error)
          | Throw _ => True
          end).
Proof.
  unfold runCatch. apply post_bind. unfold post at 1.
  cbn [logger emit resultOf worldOf traceOf fst snd].
  apply post_bind. unfold post at 1.
  cbn [getWorld resultOf worldOf traceOf fst snd].
  apply post_bind. apply post_updateSessionStatus. intros [[] | e]; [| now auto].
  apply post_bind. apply post_dbCall.
  destruct (dbThrows env _); [now auto |].
  unfold post. cbn. auto.
Qed.

Lemma runBody_spec w :
  post (runBody env self) w
       (fun r w' t =>
          match r with
          | Ok res =>
              success res = true /\
              exists k,
                List.length (resultFiles res) = List.length (generatedFiles w) + k /\
                statusWrites t = successfulWrites k
          | Throw _ => True
          end).
Proof.
  unfold runBody. apply post_bind.
  eapply post_conseq; [apply planPhase_spec |].
  intros [p | e] w1 t1 (Hf1 & Hs1); [| exact I].
  apply post_bind.
  destruct (scaffoldPhase_spec w1) as (t2 & Heq2 & Hs2).
  eapply post_conseq; [apply (post_eq _ _ _ _ _ Heq2) |].
  intros r2 w2 t2' (-> & -> & ->).
  apply post_bind.
  eapply post_conseq; [apply generatePhase_spec |].
  intros [[] | e] w3 t3 (done & news & Hsub & Hf3 & Hpaths & _ & Hs3); [| exact I].
  apply post_bind. unfold post at 1.
  cbn [logger emit resultOf worldOf traceOf fst snd].
  apply post_bind. apply post_updateSessionStatus. intros [[] | e]; [| exact I].
  apply post_bind.
  eapply post_conseq;
    [apply post_quiet; [apply noUpdate_validatePhase | apply count_validatePhase] |].
  intros [[] | e] w4 t4 (Hs4 & Hc4); [| exact I].
  apply post_bind.
  eapply post_conseq;
    [apply post_quiet; [apply noUpdate_suggestPhase | apply count_suggestPhase] |].
  intros [sugg | e] w5 t5 (Hs5 & Hc5); [| exact I].
  eapply post_conseq; [apply completePhase_spec |].
  intros [res | e] w6 t6 (Hs6 & Hres); [| exact I].
  destruct Hres as (Hsucc & Hfiles).
  split; [exact Hsucc |]. exists (List.length done). split.
  - rewrite Hfiles, Hc5, Hc4. cbn [generatedFiles setDb].
    rewrite Hf3, length_app, Hf1.
    assert (Hl : List.length news = List.length done).
    { rewrite <- (length_map gPath news), Hpaths. apply length_map. }
    lia.
  - unfold statusWrites in *.
    rewrite !sessionUpdatesOf_app, !map_app, Hs1, Hs2, Hs3, Hs4, Hs5, Hs6.
    cbn. unfold successfulWrites. cbn. reflexivity.
Qed.

Lemma run_spec w :
  post (run env self) w
       (fun r w' t =>
          match r with
          | Ok res =>
              success res = true ->
              statusWrites t = successfulWrites (List.length (resultFiles res))
          | Throw _ => True
          end).
Proof.
  unfold run. apply post_bind. unfold post at 1.
  cbn [modifyWorld resultOf worldOf traceOf fst snd].
  apply post_bind. unfold post at 1.
  cbn [logger emit resultOf worldOf traceOf fst snd].
  apply post_tryCatch.
  eapply post_conseq; [apply runBody_spec |].
  intros [res | e] w1 t1 H.
  - destruct H as (_ & k & Hk & Hst). intros _.
    cbn [generatedFiles setFiles List.length] in Hk. rewrite Hk. exact Hst.
  - eapply post_conseq; [apply runCatch_spec |].
    intros [res | e'] w2 t2 (_ & _ & Hres); [| exact I].
    destruct Hres as [Hres _]. rewrite Hres. discriminate.
Qed.
End RunFacts.

Lemma collapse_cons2 (a b : SessionStatus) (l : list SessionStatus) :
  collapse (a :: b :: l) =
  if SessionStatus_eqb a b then collapse (b :: l) else a :: collapse (b :: l).
Proof. reflexivity. Qed.

Lemma collapse_generating (k : nat) :
  collapse (generating :: repeat generating k ++ [validating; completed]) =
  [generating; validating; completed].
Proof.
  induction k as [| k IH]; [reflexivity |].
  change (repeat generating (S k)) with (generating :: repeat generating k).
  cbn [app]. rewrite collapse_cons2. exact IH.
Qed.

Lemma collapse_successfulWrites (k : nat) :
  collapse (initialStatus :: successfulWrites k) =
  [pending; planning; scaffolding; generating; validating; completed].
Proof.
  unfold successfulWrites, initialStatus. cbn [app].
  rewrite !collapse_cons2. cbn [SessionStatus_eqb]. now rewrite collapse_generating.
Qed.

(** C5: in a run that returns with success, the statuses handed to the
    session update are, in this order, planning, scaffolding, generating
    (once when the phase starts and once more after each generated file),
    validating, completed; starting from the session's initial pending status
    and counting consecutive rewrites of one status once, the session goes
    through exactly pending, planning, scaffolding, generating, validating,
    completed: nothing is skipped and nothing comes back. *)
Theorem C5_status_sequence (env : Env) (self : GenerationPipeline) (w : World) :
  let out := run env self w in
  runSucceeded (resultOf out) = true ->
  statusWrites (traceOf out) =
    successfulWrites (List.length (filesOf (resultOf out))) /\
  collapse (initialStatus :: statusWrites (traceOf out)) =
    [pending; planning; scaffolding; generating; validating; completed].
Proof.
  intros out Hs. pose proof (run_spec env self w) as H. unfold post in H.
  fold out in H. destruct (resultOf out) as [res | e]; [| discriminate Hs].
  cbn [runSucceeded filesOf] in *. specialize (H Hs).
  split; [exact H |]. rewrite H. apply collapse_successfulWrites.
Qed.

Lemma C5_witness :
  statusWrites (traceOf (run sampleEnv samplePipeline initialWorld)) =
    successfulWrites
      (List.length (filesOf (resultOf (run sampleEnv samplePipeline initialWorld)))) /\
  collapse (initialStatus ::
            statusWrites (traceOf (run sampleEnv samplePipeline initialWorld))) =
    [pending; planning; scaffolding; generating; validating; completed].
Proof.
  apply (C5_status_sequence sampleEnv samplePipeline initialWorld).
  vm_compute. reflexivity.
Defined.

(** ** Per-file failures in the Generate phase *)

Lemma generateOne_coder_fails env self p f w e :
  dbThrows env (nDb w) = None ->
  resultOf (generateFile env f p (dbFiles env (nDb w)) (prompt self)
                         (setDb w (S (nDb w)))) = Throw e ->
  let out := generateOne env self p f w in
  resultOf out = Ok tt /\
  generatedFiles (worldOf out) = generatedFiles w /\
  In (EvLog Error "Failed to generate file"
            (sessionFileData (sessionId self) (path f))) (traceOf out).
Proof.
  intros Hdb Hgen. cbv zeta.
  pose proof (keepsLocals_generateFile env f p (dbFiles env (nDb w)) (prompt self)
                (setDb w (S (nDb w)))) as (Hfiles & _).
  unfold generateOne, tryCatch, bind, logger, emit, getWorkspaceFiles.
  rewrite Hdb.
  destruct (generateFile env f p (dbFiles env (nDb w)) (prompt self)
                         (setDb w (S (nDb w)))) as [[[r | e'] w1] t1];
    [discriminate Hgen |].
  unfold resultOf, worldOf, traceOf in *. cbn [fst snd] in *.
  conjs; [reflexivity | exact Hfiles |].
  apply in_or_app. right. now left.
Qed.

(** C7: the generate loop never throws: it announces every planned file, in
    order, whatever failed before; a file whose generation fails is logged and
    left out, so the generated files are a subsequence of the planned ones;
    and a run can end completed with fewer files than planned (here one of
    two). *)
Theorem C7_file_failures_are_skipped
        (env : Env) (self : GenerationPipeline) (p : ProjectPlan) :
  (forall specs w,
     let out := generateLoop env self p specs w in
     resultOf out = Ok tt /\
     attemptedPaths (traceOf out) = map path specs /\
     exists done news,
       Subseq done specs /\
       generatedFiles (worldOf out) = generatedFiles w ++ news /\
       map gPath news = map path done /\
       List.length news <= List.length specs) /\
  (forall f w e,
     dbThrows env (nDb w) = None ->
     resultOf (generateFile env f p (dbFiles env (nDb w)) (prompt self)
                            (setDb w (S (nDb w)))) = Throw e ->
     let out := generateOne env self p f w in
     resultOf out = Ok tt /\
     generatedFiles (worldOf out) = generatedFiles w /\
     In (EvLog Error "Failed to generate file"
               (sessionFileData (sessionId self) (path f))) (traceOf out)) /\
  (let out := run flakyEnv samplePipeline initialWorld in
   runSucceeded (resultOf out) = true /\
   finalStatus (traceOf out) = Some completed /\
   map gPath (filesOf (resultOf out)) = ["src/App.tsx"] /\
   List.length (filesOf (resultOf out)) < List.length (files samplePlan)).
Proof.
  conjs.
  - intros specs w. cbv zeta. pose proof (generateLoop_spec env self p specs w) as H.
    unfold post in H.
    destruct H as (Hr & Ha & done & news & Hsub & Hf & Hp & _ & _).
    conjs; try assumption. exists done, news. conjs; try assumption.
    rewrite <- (length_map gPath news), Hp, length_map. now apply Subseq_length.
  - intros f w e. apply generateOne_coder_fails.
  - vm_compute. conjs; reflexivity.
Qed.

Lemma C7_witness :
  let f := mkFileSpec "src/Hero.tsx" "hero" [] None in
  let w := mkWorld 1 2 0 0%Q [] in
  let out := generateOne flakyEnv samplePipeline samplePlan f w in
  resultOf out = Ok tt /\
  generatedFiles (worldOf out) = [] /\
  In (EvLog Error "Failed to generate file"
            (sessionFileData (sessionId samplePipeline) "src/Hero.tsx")) (traceOf out).
Proof.
  cbv zeta.
  destruct (C7_file_failures_are_skipped flakyEnv samplePipeline samplePlan)
    as (_ & H & _).
  apply (H (mkFileSpec "src/Hero.tsx" "hero" [] None) (mkWorld 1 2 0 0%Q []) serverError).
  - reflexivity.
  - vm_compute. reflexivity.
Defined.

(** ** Order of generation *)

Lemma generatePhase_order env self p w :
  let specs := sortFilesByDependency (files p) in
  let out := generatePhase env self p w in
  resultOf out = Ok tt ->
  attemptedPaths (traceOf out) = map path specs /\
  exists done news,
    Subseq done specs /\
    generatedFiles (worldOf out) = generatedFiles w ++ news /\
    map gPath news = map path done.
Proof.
  cbv zeta. unfold generatePhase.
  assert (H : post (generatePhase env self p) w
                (fun r w' t =>
                   r = Ok tt ->
                   attemptedPaths t = map path (sortFilesByDependency (files p)) /\
                   exists done news,
                     Subseq done (sortFilesByDependency (files p)) /\
                     generatedFiles w' = generatedFiles w ++ news /\
                     map gPath news = map path done)).
  { unfold generatePhase. apply post_bind. unfold post at 1.
    cbn [logger emit resultOf worldOf traceOf fst snd].
    apply post_bind. apply post_updateSessionStatus.
    intros [[] | e]; [| intros H; discriminate H].
    eapply post_conseq; [apply generateLoop_spec |].
    intros r w1 t1 (_ & Ha & done & news & Hsub & Hfiles & Hpaths & _ & _) _.
    split.
    - rewrite !attemptedPaths_app, Ha. reflexivity.
    - exists done, news. now conjs. }
  exact H.
Qed.

(** C2 (as stated, refuted): a plan with a file of priority 5 without
    dependencies and a file without priority with one dependency is
    generated in that order, although the keys are 5 and then 1. *)
Lemma C2_counterexample :
  let specs := sortFilesByDependency (files mixedPlan) in
  let out := generatePhase sampleEnv samplePipeline mixedPlan initialWorld in
  map gPath (generatedFiles (worldOf out)) = map path specs /\
  map orderKey specs = [5; 1]%Z /\
  ~ StronglySorted keyLe specs.
Proof.
  cbv zeta. conjs; try (vm_compute; reflexivity).
  assert (E : sortFilesByDependency (files mixedPlan) = mixedFiles)
    by (vm_compute; reflexivity).
  rewrite E. unfold mixedFiles. intros H.
  inversion H as [| a l _ Hall]; subst. inversion Hall as [| b l' Hab _]; subst.
  unfold keyLe, leBy, orderKey in Hab. cbn in Hab. lia.
Qed.

(** C2 (amended): when the files of the plan either all carry an explicit
    priority or all lack one, the Generate phase takes the planned files in
    non-decreasing order of the key (priority, respectively number of
    dependencies), and the files it generates are a subsequence of that
    order. *)
Theorem C2_generation_order
        (env : Env) (self : GenerationPipeline) (p : ProjectPlan) (w : World) :
  uniformPriority (files p) ->
  let specs := sortFilesByDependency (files p) in
  let out := generatePhase env self p w in
  Permutation (files p) specs /\
  StronglySorted keyLe specs /\
  (resultOf out = Ok tt ->
   attemptedPaths (traceOf out) = map path specs /\
   exists done news,
     Subseq done specs /\
     StronglySorted keyLe done /\
     generatedFiles (worldOf out) = generatedFiles w ++ news /\
     map gPath news = map path done).
Proof.
  intros Hu specs out. pose proof (sortFiles_sorted _ Hu) as Hsorted.
  conjs.
  - apply sortBy_perm.
  - exact Hsorted.
  - intros Hok. destruct (generatePhase_order env self p w Hok)
      as (Ha & done & news & Hsub & Hfiles & Hpaths).
    split; [exact Ha |]. exists done, news. conjs; try assumption.
    eapply Subseq_sorted; eassumption.
Qed.

Lemma C2_witness :
  let specs := sortFilesByDependency (files samplePlan) in
  let out := generatePhase sampleEnv samplePipeline samplePlan initialWorld in
  Permutation (files samplePlan) specs /\
  StronglySorted keyLe specs /\
  (resultOf out = Ok tt ->
   attemptedPaths (traceOf out) = map path specs /\
   exists done news,
     Subseq done specs /\
     StronglySorted keyLe done /\
     generatedFiles (worldOf out) = generatedFiles initialWorld ++ news /\
     map gPath news = map path done).
Proof.
  apply (C2_generation_order sampleEnv samplePipeline samplePlan initialWorld).
  right. repeat constructor.
Defined.

(** ** Runs in which nothing fails *)

Lemma succeeds_ret {A} (a : A) : succeeds (ret a).
Proof. intros w. reflexivity. Qed.

Lemma succeeds_logger l msg d : succeeds (logger l msg d).
Proof. intros w. reflexivity. Qed.

Lemma succeeds_getWorld : succeeds getWorld.
Proof. intros w. reflexivity. Qed.

Lemma succeeds_modifyWorld f : succeeds (modifyWorld f).
Proof. intros w. reflexivity. Qed.

Lemma succeeds_getFile i : succeeds (getFile i).
Proof. intros w. reflexivity. Qed.

Lemma succeeds_bind {A B} (m : M A) (f : A -> M B) :
  succeeds m -> (forall a, succeeds (f a)) -> succeeds (bind m f).
Proof.
  intros Hm Hf w. specialize (Hm w). unfold bind, resultOf in *.
  destruct (m w) as [[[a | e] w1] t1]; cbn [fst snd] in *; [| discriminate].
  specialize (Hf a w1). unfold resultOf in Hf. now destruct (f a w1) as [[r2 w2] t2].
Qed.

Lemma succeeds_tryCatch_handler {A} (m : M A) (h : JsValue -> M A) :
  (forall e, succeeds (h e)) -> succeeds (tryCatch m h).
Proof.
  intros Hh w. unfold tryCatch, resultOf.
  destruct (m w) as [[[a | e] w1] t1]; [reflexivity |].
  specialize (Hh e w1). unfold resultOf in Hh. now destruct (h e w1) as [[r2 w2] t2].
Qed.

Create HintDb ok.
#[local] Hint Resolve succeeds_ret succeeds_logger succeeds_getWorld succeeds_modifyWorld
  succeeds_getFile succeeds_bind : ok.
#[local] Hint Extern 1 (succeeds (addUsage _ _ _)) => apply succeeds_modifyWorld : ok.
#[local] Hint Extern 1 (succeeds (setFile _ _)) => apply succeeds_modifyWorld : ok.
#[local] Hint Extern 1 (succeeds (pushFile _)) => apply succeeds_modifyWorld : ok.

Section Healthy.
Variable env : Env.
Variable self : GenerationPipeline.
Hypothesis Hh : healthy env.

Lemma succeeds_execute ai req : succeeds (execute env ai req).
Proof.
  destruct Hh as (Hav & Hrep & _). intros w. rewrite execute_eq. cbv zeta.
  rewrite Hav. unfold executeWithProvider.
  replace (retryCount ai + 1) with (S (retryCount ai)) by lia.
  rewrite retryLoop_S, Hav.
  specialize (Hrep (nProvider w) (provider (ModelRouting (task req)))
                   (model (ModelRouting (task req))) req).
  destruct (providerReply env (nProvider w) _ _ req); [reflexivity | discriminate].
Qed.

Lemma succeeds_liftParse {A} (r : Result A) : isOk r = true -> succeeds (liftResult r).
Proof. intros H w. exact H. Qed.

Lemma succeeds_dbCall op : succeeds (dbCall env op).
Proof.
  destruct Hh as (_ & _ & Hdb & _). intros w. unfold dbCall, resultOf. cbn [fst].
  now rewrite Hdb.
Qed.

Lemma succeeds_getWorkspaceFiles wid : succeeds (getWorkspaceFiles env wid).
Proof.
  destruct Hh as (_ & _ & Hdb & _). intros w. unfold getWorkspaceFiles, resultOf.
  cbn [fst]. now rewrite Hdb.
Qed.

Lemma succeeds_updateSessionStatus sid s d : succeeds (updateSessionStatus env sid s d).
Proof.
  destruct Hh as (_ & _ & Hdb & _). intros w.
  unfold updateSessionStatus, bind, Date_now, dbCall, resultOf. cbn [fst].
  now rewrite Hdb.
Qed.

Hint Resolve succeeds_execute succeeds_dbCall succeeds_getWorkspaceFiles
  succeeds_updateSessionStatus : ok.

Lemma succeeds_createPlan prompt0 existing : succeeds (createPlan env prompt0 existing).
Proof.
  unfold createPlan. destruct Hh as (_ & _ & _ & Hplan & _).
  pose proof (fun s => succeeds_liftParse _ (Hplan s)). auto 8 with ok.
Qed.

Lemma succeeds_generateFile f p existing prompt0 :
  succeeds (generateFile env f p existing prompt0).
Proof. unfold generateFile. auto 8 with ok. Qed.

Lemma succeeds_validateFile filePath fileContent :
  succeeds (validateFile env filePath fileContent).
Proof.
  unfold validateFile. destruct Hh as (_ & _ & _ & _ & Hval).
  pose proof (fun s => succeeds_liftParse _ (Hval s)). auto 8 with ok.
Qed.

Lemma succeeds_fix filePath fileContent issueList :
  succeeds (fix_ env filePath fileContent issueList).
Proof. unfold fix_. auto 8 with ok. Qed.

Hint Resolve succeeds_createPlan succeeds_generateFile succeeds_validateFile
  succeeds_fix : ok.

Lemma succeeds_validationLoop i :
  forall remaining a, succeeds (validationLoop env self i remaining a).
Proof.
  induction remaining as [| r IH]; intros a; cbn [validationLoop]; [auto with ok |].
  apply succeeds_bind; [auto with ok | intros file].
  apply succeeds_bind; [auto with ok | intros validation].
  apply succeeds_bind; [auto with ok | intros _].
  destruct (valid validation); auto 10 with ok.
Qed.

Lemma succeeds_validateOne i : succeeds (validateOne env self i).
Proof.
  unfold validateOne. apply succeeds_bind; [apply succeeds_validationLoop |].
  intros [[|] a]; cbn [fst]; auto with ok.
Qed.

Lemma succeeds_validatePhase : succeeds (validatePhase env self).
Proof.
  unfold validatePhase. apply succeeds_bind; [auto with ok | intros w].
  generalize 0. induction (List.length (generatedFiles w)) as [| n IH]; intros i;
    cbn [forIndices]; [auto with ok |].
  apply succeeds_bind; [apply succeeds_validateOne | intros _; apply IH].
Qed.

Lemma succeeds_generateLoop p specs : succeeds (generateLoop env self p specs).
Proof.
  induction specs as [| f rest IH]; cbn [generateLoop]; [auto with ok |].
  apply succeeds_bind; [| intros _; exact IH].
  unfold generateOne. apply succeeds_tryCatch_handler. auto with ok.
Qed.

Lemma succeeds_runBody : succeeds (runBody env self).
Proof.
  pose proof succeeds_validatePhase. pose proof succeeds_generateLoop.
  unfold runBody, planPhase, scaffoldPhase, applyTemplate, generatePhase, completePhase.
  repeat match goal with
         | |- succeeds (bind _ _) => apply succeeds_bind; [| intros ?]
         end;
    try (solve [auto with ok]).
  - destruct (truthyKey (template self)); auto with ok.
  - unfold suggestPhase. apply succeeds_tryCatch_handler. auto with ok.
Qed.

(** In a world where nothing fails the run returns with [success: true],
    whatever the validation verdicts are. *)
Lemma healthy_run_succeeds w : runSucceeded (resultOf (run env self w)) = true.
Proof.
  unfold run, bind, modifyWorld, logger, emit, tryCatch, resultOf.
  set (w0 := setFiles (setUsage w 0 0) []).
  pose proof (succeeds_runBody w0) as Hok.
  pose proof (runBody_spec env self w0) as Hbody. unfold post, resultOf in *.
  destruct (runBody env self w0) as [[[res | e] w1] t1]; cbn [fst snd] in *;
    [| discriminate Hok].
  apply Hbody.
Qed.
End Healthy.



(** ** The completion timestamp *)

Ltac emits_steps :=
  repeat match goal with
         | |- emitsOnly _ (bind _ _) => apply emitsOnly_bind; [| intros ?]
         | |- emitsOnly _ (tryCatch _ _) => apply emitsOnly_tryCatch; [| intros ?]
         | |- emitsOnly _ (if ?b then _ else _) => destruct b
         | |- emitsOnly _ (match ?o with Some _ => _ | None => _ end) => destruct o
         end.

Lemma agent_is_stamped e : isAgentEvent e = true -> isStampedEvent e = true.
Proof. destruct e as [? ? ? | ? | [] | ? ? ?]; cbn; easy. Qed.

Lemma stamped_updates (t : list Event) :
  Forall (fun e => isStampedEvent e = true) t ->
  Forall (fun u => timestampOk u = true) (sessionUpdatesOf t).
Proof.
  induction 1 as [| e t He _ IH]; [constructor |].
  change (e :: t) with ([e] ++ t). rewrite sessionUpdatesOf_app.
  apply Forall_app. split; [| exact IH].
  destruct e as [? ? ? | ? | [] | ? ? ?]; cbn; constructor; auto.
Qed.

Section Stamps.
Variable env : Env.

Lemma stamped_updateSessionStatus sid s d :
  emitsOnly isStampedEvent (updateSessionStatus env sid s d).
Proof.
  intros w. unfold updateSessionStatus, bind, Date_now, dbCall, traceOf. cbn [fst snd app].
  repeat constructor. cbn. unfold timestampOk. cbn. now destruct s.
Qed.

Lemma stamped_execute ai req : emitsOnly isStampedEvent (execute env ai req).
Proof. eapply emitsOnly_impl; [apply agent_is_stamped | apply agent_execute]. Qed.

Lemma stamped_getWorkspaceFiles wid :
  emitsOnly isStampedEvent (getWorkspaceFiles env wid).
Proof. intros w. repeat constructor. Qed.

Hint Resolve stamped_updateSessionStatus stamped_execute stamped_getWorkspaceFiles
  : emits.
Hint Extern 1 (emitsOnly _ (pushFile _)) => apply emitsOnly_modifyWorld : emits.
Hint Extern 1 (emitsOnly _ (Date_now _)) => apply emitsOnly_Date_now : emits.

Lemma stamped_createPlan prompt0 existing :
  emitsOnly isStampedEvent (createPlan env prompt0 existing).
Proof. eapply emitsOnly_impl; [apply agent_is_stamped | apply agent_createPlan]. Qed.

Lemma stamped_generateFile f p existing prompt0 :
  emitsOnly isStampedEvent (generateFile env f p existing prompt0).
Proof. eapply emitsOnly_impl; [apply agent_is_stamped | apply agent_generateFile]. Qed.

Lemma stamped_validateFile filePath fileContent :
  emitsOnly isStampedEvent (validateFile env filePath fileContent).
Proof. eapply emitsOnly_impl; [apply agent_is_stamped | apply agent_validateFile]. Qed.

Lemma stamped_fix filePath fileContent issueList :
  emitsOnly isStampedEvent (fix_ env filePath fileContent issueList).
Proof. eapply emitsOnly_impl; [apply agent_is_stamped | apply agent_fix]. Qed.

Lemma stamped_suggest paths projType :
  emitsOnly isStampedEvent (suggest env paths projType).
Proof. eapply emitsOnly_impl; [apply agent_is_stamped | apply agent_suggest]. Qed.

Hint Resolve stamped_createPlan stamped_generateFile stamped_validateFile stamped_fix
  stamped_suggest : emits.

Lemma stamped_generateLoop self p specs :
  emitsOnly isStampedEvent (generateLoop env self p specs).
Proof.
  induction specs as [| f rest IH]; cbn [generateLoop]; [auto with emits |].
  apply emitsOnly_bind; [| intros _; exact IH].
  unfold generateOne. emits_steps; auto with emits.
Qed.

Lemma stamped_validationLoop self i :
  forall remaining a, emitsOnly isStampedEvent (validationLoop env self i remaining a).
Proof.
  induction remaining as [| r IH]; intros a; cbn [validationLoop]; [auto with emits |].
  emits_steps; auto with emits.
Qed.

Lemma stamped_validatePhase self : emitsOnly isStampedEvent (validatePhase env self).
Proof.
  unfold validatePhase. apply emitsOnly_bind; [auto with emits | intros w].
  generalize 0. induction (List.length (generatedFiles w)) as [| n IH]; intros i;
    cbn [forIndices]; [auto with emits |].
  apply emitsOnly_bind; [| intros _; apply IH].
  unfold validateOne. apply emitsOnly_bind; [apply stamped_validationLoop |].
  intros [[|] a]; cbn [fst]; auto with emits.
Qed.

Lemma stamped_run self : emitsOnly isStampedEvent (run env self).
Proof.
  pose proof (stamped_validatePhase self). pose proof (stamped_generateLoop self).
  unfold run, runBody, runCatch, planPhase, scaffoldPhase, applyTemplate, generatePhase,
    suggestPhase, completePhase.
  emits_steps; auto with emits.
Qed.

Lemma stamped_forEach {A} (body : A -> M unit) (l : list A) :
  (forall x, emitsOnly isStampedEvent (body x)) ->
  emitsOnly isStampedEvent (forEach body l).
Proof.
  intros Hb. induction l as [| x rest IH]; cbn [forEach]; auto with emits.
Qed.

Lemma stamped_refine sid wid uid : emitsOnly isStampedEvent (refine env sid wid uid).
Proof.
  unfold refine, refineBody, refineCatch.
  emits_steps; auto with emits.
  - apply stamped_forEach. intros x. unfold modifyOne. emits_steps; auto with emits.
  - apply stamped_forEach. intros x. unfold createOne. emits_steps; auto with emits.
Qed.

Lemma stamped_cancelSession sid : emitsOnly isStampedEvent (cancelSession env sid).
Proof. unfold cancelSession. emits_steps; auto with emits. Qed.
End Stamps.

(** C8: the payload that [updateSessionStatus] hands to the database carries
    a completion timestamp exactly when the status written is completed or
    failed; consequently every session update issued by a generation run, and
    likewise by a refinement run and by the cancel route (which build their
    payloads themselves), has the timestamp set if and only if its status is
    terminal. *)
Theorem C8_completion_timestamp (env : Env) :
  (forall sid s d w,
     exists u,
       sessionUpdatesOf (traceOf (updateSessionStatus env sid s d w)) = [u] /\
       status u = s /\
       (completed_at u <> None <-> (s = completed \/ s = failed))) /\
  (forall self w,
     Forall (fun u => completed_at u <> None <->
                      (status u = completed \/ status u = failed))
            (sessionUpdatesOf (traceOf (run env self w)))) /\
  (forall sid wid uid w,
     Forall (fun u => completed_at u <> None <->
                      (status u = completed \/ status u = failed))
            (sessionUpdatesOf (traceOf (refine env sid wid uid w)))) /\
  (forall sid w,
     Forall (fun u => completed_at u <> None <->
                      (status u = completed \/ status u = failed))
            (sessionUpdatesOf (traceOf (cancelSession env sid w)))).
Proof.
  assert (Hrule : forall u, timestampOk u = true ->
                            (completed_at u <> None <->
                             (status u = completed \/ status u = failed))).
  { intros u Hu. unfold timestampOk in Hu.
    destruct (completed_at u), (status u); cbn in Hu; try discriminate Hu;
      split; intros H; try congruence; try (now auto);
      destruct H as [H | H]; discriminate H. }
  conjs.
  - intros sid s d w. eexists. conjs.
    + unfold updateSessionStatus, bind, Date_now, dbCall, traceOf. cbn [fst snd app].
      reflexivity.
    + reflexivity.
    + cbn. destruct s; cbn; split; intros H; try congruence; try (now auto);
        destruct H as [H | H]; discriminate H.
  - intros self w. eapply Forall_impl; [exact Hrule |].
    apply stamped_updates, stamped_run.
  - intros sid wid uid w. eapply Forall_impl; [exact Hrule |].
    apply stamped_updates, stamped_refine.
  - intros sid w. eapply Forall_impl; [exact Hrule |].
    apply stamped_updates, stamped_cancelSession.
Qed.

(** ** Exhausted candidate chains *)

(** The error that a candidate's retry loop throws is the one of its last
    provider call. *)
Lemma retryLoop_throws_last env ai p m req :
  isProviderAvailable env p = true ->
  forall remaining a lastError w e,
    let out := retryLoop env ai p m req (S remaining) a lastError w in
    resultOf out = Throw e ->
    1 <= List.length (providerCallsOf (traceOf out)) /\
    providerReply env (nProvider (worldOf out) - 1) p m req = Throw e.
Proof.
  intros Hav. induction remaining as [| r IH]; intros a lastError w e; cbv zeta.
  - rewrite retryLoop_S, Hav.
    destruct (providerReply env (nProvider w) p m req) as [x | e0] eqn:Hrep;
      [intros H; discriminate H |].
    destruct (isRateLimitError e0) eqn:Hrl.
    + destruct e0 as [msg | b]; [| discriminate Hrl].
      cbn. intros H. injection H as <-. rewrite Nat.sub_0_r. split; [lia | exact Hrep].
    + cbn. intros H. injection H as <-. rewrite Nat.sub_0_r. split; [lia | exact Hrep].
  - rewrite retryLoop_S, Hav.
    destruct (providerReply env (nProvider w) p m req) as [x | e0] eqn:Hrep;
      [intros H; discriminate H |].
    destruct (isRateLimitError e0) eqn:Hrl.
    + specialize (IH (a + 1) (Some e0) (bumpProvider w) e). cbv zeta in IH.
      destruct (retryLoop env ai p m req (S r) (a + 1) (Some e0) (bumpProvider w))
        as [[r' w'] t'].
      unfold resultOf, worldOf, traceOf in *. cbn [fst snd] in *.
      intros H. destruct (IH H) as [Hn Hlast]. rewrite calls_rateLimited.
      split; [cbn; lia | exact Hlast].
    + cbn. intros H. injection H as <-. rewrite Nat.sub_0_r. split; [lia | exact Hrep].
Qed.

Section Exhaustion.
Variable env : Env.
Variable self : GenerationPipeline.

(** Both candidates attempted, both gave up: [execute] rethrows what the
    fallback threw, which is the error of the last provider call. *)
Lemma execute_exhausted ai req w e1 w1 t1 fb e2 w2 t2 :
  let routing := ModelRouting (task req) in
  isProviderAvailable env (provider routing) = true ->
  executeWithProvider env ai (provider routing) (model routing) req w = (Throw e1, w1, t1) ->
  fallback routing = Some fb ->
  isProviderAvailable env (cProvider fb) = true ->
  executeWithProvider env ai (cProvider fb) (cModel fb) req w1 = (Throw e2, w2, t2) ->
  execute env ai req w = (Throw e2, w2, t1 ++ primaryFailedLog :: t2 ++ [fallbackFailedLog]) /\
  providerReply env (nProvider w2 - 1) (cProvider fb) (cModel fb) req = Throw e2.
Proof.
  intros routing Hav Hp Hfb Hfbav Hf. split.
  - rewrite execute_eq. cbv zeta. fold routing. rewrite Hav, Hp.
    rewrite fallbackPart_eq. fold routing. rewrite Hfb, Hfbav, Hf. reflexivity.
  - pose proof (retryLoop_throws_last env ai (cProvider fb) (cModel fb) req Hfbav
                  (retryCount ai) 0 None w1 e2) as H.
    cbv zeta in H. unfold executeWithProvider in Hf.
    replace (retryCount ai + 1) with (S (retryCount ai)) in Hf by lia.
    rewrite Hf in H. now apply H.
Qed.

(** What the [catch] block of [run] records when the [try] block throws. *)
Lemma run_records_failure w e w1 t1 :
  runBody env self w = (Throw e, w1, t1) ->
  let out := tryCatch (runBody env self) (runCatch env self) w in
  sessionUpdatesOf (traceOf out) =
    sessionUpdatesOf t1 ++
    [sessionPayload failed
       (mkSessionData None None None (Some (errorMessageOf e))
                      (Some (totalTokens_ w1)) (Some (creditsOf env (totalCost w1))))
       (timeAt env w1)] /\
  runSucceeded (resultOf out) = false /\
  forall res, resultOf out = Ok res -> resultError res = Some (errorMessageOf e).
Proof.
  intros Hbody. cbv zeta. rewrite (tryCatch_eq_throw _ _ _ _ _ _ Hbody).
  pose proof (runCatch_spec env self e w1) as H. unfold post in H.
  destruct H as (_ & Hu & Hres).
  unfold resultOf at 1, traceOf at 1. cbn [fst snd].
  rewrite sessionUpdatesOf_app, Hu. conjs; [reflexivity | |].
  - unfold resultOf at 1. cbn [fst].
    destruct (resultOf (runCatch env self e w1)) as [res | e']; [| reflexivity].
    cbn. apply Hres.
  - unfold resultOf at 1. cbn [fst]. intros res Hr. rewrite Hr in Hres. apply Hres.
Qed.

(** A failure of the Plan phase's [execute] call ends the [try] block. *)
Lemma plan_failure_propagates w e w1 t1 :
  dbThrows env (nDb w) = None ->
  dbThrows env (S (nDb w)) = None ->
  execute env getBuildableAI planningRequest (setDb (setDb w (S (nDb w))) (S (S (nDb w))))
    = (Throw e, w1, t1) ->
  exists t, runBody env self w = (Throw e, w1, t) /\
            statusWrites t = [planning].
Proof.
  intros Hdb1 Hdb2 Hex. eexists. split.
  - unfold runBody. apply bind_eq_throw.
    unfold planPhase. unfold bind at 1. unfold logger at 1, emit at 1.
    unfold bind at 1. unfold updateSessionStatus at 1, bind at 1, Date_now at 1,
      dbCall at 1.
    rewrite Hdb1. cbn [fst snd].
    unfold bind at 1. unfold getWorkspaceFiles at 1. cbn [nDb setDb]. rewrite Hdb2.
    unfold bind at 1. unfold createPlan at 1. unfold bind at 1.
    unfold logger at 1, emit at 1. unfold bind at 1.
    fold planningRequest. rewrite Hex. reflexivity.
  - pose proof (emitsOnly_execute env getBuildableAI planningRequest
                  (setDb (setDb w (S (nDb w))) (S (S (nDb w))))) as Hev.
    rewrite Hex in Hev. unfold traceOf in Hev. cbn [snd] in Hev.
    assert (Hu : sessionUpdatesOf t1 = []).
    { apply agent_no_update. eapply Forall_impl; [| exact Hev]. apply engine_is_agent. }
    unfold statusWrites. rewrite !sessionUpdatesOf_app, Hu. reflexivity.
Qed.

(** A failure of the validator's [execute] call ends the loop of the file. *)
Lemma validation_failure_propagates i w e w1 t1 :
  0 < maxValidationRetries self ->
  execute env getBuildableAI validationRequest w = (Throw e, w1, t1) ->
  exists t, validateOne env self i w = (Throw e, w1, t).
Proof.
  intros Hmax Hex. eexists. unfold validateOne. apply bind_eq_throw.
  destruct (maxValidationRetries self) as [| r]; [lia |].
  cbn [validationLoop]. unfold bind at 1. unfold getFile at 1.
  unfold bind at 1. unfold validateFile at 1. unfold bind at 1.
  unfold logger at 1, emit at 1. unfold bind at 1.
  fold validationRequest. rewrite Hex. reflexivity.
Qed.

(** So does a failure of the fixer's [execute] call after a negative
    verdict. *)
Lemma fix_failure_propagates i w v w1 t1 e w2 t2 :
  0 < maxValidationRetries self ->
  validateFile env (gPath (fileAt i w)) (gContent (fileAt i w)) w = (Ok v, w1, t1) ->
  valid v = false ->
  execute env getBuildableAI debuggingRequest
          (setUsage w1 (totalTokens_ w1 + vTokensUsed v) (fadd env (totalCost w1) (vCost v)))
    = (Throw e, w2, t2) ->
  exists t, validateOne env self i w = (Throw e, w2, t).
Proof.
  intros Hmax Hval Hinvalid Hex. eexists. unfold validateOne. apply bind_eq_throw.
  destruct (maxValidationRetries self) as [| r]; [lia |].
  cbn [validationLoop]. unfold bind at 1. unfold getFile at 1. fold (fileAt i w).
  unfold bind at 1. rewrite Hval.
  unfold bind at 1. unfold addUsage at 1, modifyWorld at 1. rewrite Hinvalid.
  unfold bind at 1. unfold logger at 1, emit at 1.
  unfold bind at 1. unfold fix_ at 1. unfold bind at 1.
  unfold logger at 1, emit at 1. unfold bind at 1.
  fold debuggingRequest. rewrite Hex. reflexivity.
Qed.

Lemma forIndices_throws (body : nat -> M unit) i n w e w1 t1 :
  body i w = (Throw e, w1, t1) ->
  forIndices body i (S n) w = (Throw e, w1, t1).
Proof. intros H. cbn [forIndices]. now apply bind_eq_throw. Qed.

(** A throw out of the Validate phase ends the [try] block. *)
Lemma validate_failure_propagates w p w1 t1 w2 t2 e w3 t3 :
  planPhase env self w = (Ok p, w1, t1) ->
  generatePhase env self p w1 = (Ok tt, w2, t2) ->
  dbThrows env (nDb w2) = None ->
  validatePhase env self (setDb w2 (S (nDb w2))) = (Throw e, w3, t3) ->
  exists t, runBody env self w = (Throw e, w3, t).
Proof.
  intros Hplan Hgen Hdb Hval. destruct (scaffoldPhase_spec self w1) as (ts & Hsc & _).
  eexists. unfold runBody.
  eapply bind_throws_after; [exact Hplan |].
  eapply bind_throws_after; [exact Hsc |].
  eapply bind_throws_after; [exact Hgen |].
  eapply bind_throws_after; [reflexivity |].
  eapply bind_throws_after; [apply updateSessionStatus_ok; exact Hdb |].
  apply bind_eq_throw. exact Hval.
Qed.

Lemma run_unfold w :
  run env self w =
  (resultOf (tryCatch (runBody env self) (runCatch env self) (resetLocals w)),
   worldOf (tryCatch (runBody env self) (runCatch env self) (resetLocals w)),
   EvLog Info "Pipeline starting" (sessionData (sessionId self)) ::
   traceOf (tryCatch (runBody env self) (runCatch env self) (resetLocals w))).
Proof.
  unfold run, bind, modifyWorld, logger, emit, resultOf, worldOf, traceOf.
  fold (resetLocals w).
  now destruct (tryCatch (runBody env self) (runCatch env self) (resetLocals w))
    as [[r w1] t1].
Qed.
End Exhaustion.




(* ===================================================================== *)
(** * Further properties of the code                                       *)
(* ===================================================================== *)

(** ** Strings *)

Lemma lowerChar_dot (c : ascii) : Ascii.eqb (lowerChar c) dot = Ascii.eqb c dot.
Proof. destruct c as [[] [] [] [] [] [] [] []]; reflexivity. Qed.

Lemma lowerChar_idem (c : ascii) : lowerChar (lowerChar c) = lowerChar c.
Proof. destruct c as [[] [] [] [] [] [] [] []]; reflexivity. Qed.

Lemma toLowerCase_idem (s : string) : toLowerCase (toLowerCase s) = toLowerCase s.
Proof.
  induction s as [| c s IH]; [reflexivity |].
  cbn [toLowerCase]. now rewrite lowerChar_idem, IH.
Qed.

Lemma afterLastDot_toLowerCase (s : string) :
  afterLastDot (toLowerCase s) = option_map toLowerCase (afterLastDot s).
Proof.
  induction s as [| c s IH]; [reflexivity |].
  cbn [toLowerCase afterLastDot]. rewrite IH, lowerChar_dot.
  destruct (afterLastDot s); [reflexivity |].
  now destruct (Ascii.eqb c dot).
Qed.

Lemma lastSegment_toLowerCase (s : string) :
  lastSegment (toLowerCase s) = toLowerCase (lastSegment s).
Proof.
  unfold lastSegment. rewrite afterLastDot_toLowerCase.
  now destruct (afterLastDot s).
Qed.

Lemma afterLastDot_extension (dir ext : string) :
  afterLastDot ext = None ->
  afterLastDot (dir ++ String dot ext) = Some ext.
Proof.
  intros Hext. induction dir as [| c dir IH].
  - cbn [append afterLastDot]. now rewrite Hext, Ascii.eqb_refl.
  - cbn [append afterLastDot]. now rewrite IH.
Qed.

Lemma lastSegment_extension (dir ext : string) :
  afterLastDot ext = None ->
  lastSegment (dir ++ String dot ext) = ext /\ lastSegment ext = ext.
Proof.
  intros Hext. unfold lastSegment.
  now rewrite (afterLastDot_extension dir ext Hext), Hext.
Qed.

(** A lower-cased string can only be equal to a string that lower-casing
    leaves alone. *)
Lemma lowered_eqb (s k : string) :
  String.eqb (toLowerCase s) k = true -> toLowerCase k = k.
Proof.
  intros H. apply String.eqb_eq in H. subst k. apply toLowerCase_idem.
Qed.

Lemma endsWith_lastSegment (ext p : string) :
  afterLastDot ext = None ->
  endsWith (String dot ext) p = true ->
  afterLastDot p = Some ext.
Proof.
  intros Hext. induction p as [| c p IH]; intros H.
  - cbn in H. discriminate H.
  - cbn [endsWith] in H. apply orb_true_iff in H. destruct H as [H | H].
    + apply String.eqb_eq in H. injection H as <- <-.
      cbn [afterLastDot]. now rewrite Hext, Ascii.eqb_refl.
    + cbn [afterLastDot]. now rewrite (IH H).
Qed.

Lemma prefix_append (n a b : string) :
  String.prefix n a = true -> String.prefix n (a ++ b) = true.
Proof.
  revert a. induction n as [| c n IH]; intros a H.
  - now destruct (a ++ b)%string.
  - destruct a as [| c' a]; [discriminate H |].
    cbn [append String.prefix] in *.
    destruct (ascii_dec c c'); [now apply IH | discriminate H].
Qed.

Lemma includes_append (n a b : string) :
  includes n a = true -> includes n (a ++ b) = true.
Proof.
  induction a as [| c a IH]; intros H.
  - cbn [includes] in H. rewrite orb_false_r in H.
    destruct n; [| discriminate H]. now destruct (""%string ++ b)%string.
  - cbn [includes append] in *. apply orb_true_iff in H. apply orb_true_iff.
    destruct H as [H | H].
    + left. now apply (prefix_append n (String c a) b).
    + right. now apply IH.
Qed.

Lemma includes_prepend (n a b : string) :
  includes n b = true -> includes n (a ++ b) = true.
Proof.
  intros H. induction a as [| c a IH]; [exact H |].
  cbn [append includes]. now rewrite IH, orb_true_r.
Qed.

Lemma toLowerCase_append (a b : string) :
  toLowerCase (a ++ b) = (toLowerCase a ++ toLowerCase b)%string.
Proof.
  induction a as [| c a IH]; [reflexivity |].
  cbn [append toLowerCase]. now rewrite IH.
Qed.

Lemma trimEnd_keeps (s : string) (c : ascii) :
  isWhiteSpace c = false ->
  trimEnd (s ++ String c EmptyString) = (s ++ String c EmptyString)%string.
Proof.
  intros Hc. induction s as [| a s IH].
  - cbn. now rewrite Hc.
  - cbn [append trimEnd]. rewrite IH.
    now destruct (s ++ String c EmptyString)%string eqn:E; [destruct s; discriminate E |].
Qed.

Lemma trimEnd_cons (c : ascii) (s : string) :
  trimEnd (String c s) =
  match trimEnd s with
  | EmptyString => if isWhiteSpace c then EmptyString else String c EmptyString
  | kept => String c kept
  end.
Proof. reflexivity. Qed.

Lemma trimEnd_idem (s : string) : trimEnd (trimEnd s) = trimEnd s.
Proof.
  induction s as [| c s IH]; [reflexivity |].
  rewrite trimEnd_cons. destruct (trimEnd s) as [| k ks] eqn:E.
  - destruct (isWhiteSpace c) eqn:Hc; [reflexivity |]. cbn. now rewrite Hc.
  - rewrite trimEnd_cons, IH. reflexivity.
Qed.

Lemma trimStart_idem (s : string) : trimStart (trimStart s) = trimStart s.
Proof.
  induction s as [| c s IH]; [reflexivity |].
  cbn [trimStart]. destruct (isWhiteSpace c) eqn:Hc; [exact IH |].
  cbn [trimStart]. now rewrite Hc.
Qed.

(** ** File types *)

(** X1: both [getFileType] functions classify a path by the text after its
    last dot alone, whatever the directories and the earlier dots, and
    without regard to case; a path without any dot is itself taken for the
    extension. *)
Theorem X1_file_type_by_last_extension (dir ext : string) :
  afterLastDot ext = None ->
  getFileType (dir ++ String dot ext) = getFileType ext /\
  Validator.getFileType (dir ++ String dot ext) = Validator.getFileType ext /\
  (forall p, getFileType (toLowerCase p) = getFileType p) /\
  (forall p, Validator.getFileType (toLowerCase p) = Validator.getFileType p).
Proof.
  intros Hext. destruct (lastSegment_extension dir ext Hext) as [H1 H2].
  unfold getFileType, Validator.getFileType. rewrite H1, H2.
  conjs; try reflexivity; intros p;
    now rewrite lastSegment_toLowerCase, toLowerCase_idem.
Qed.

Lemma X1_witness :
  getFileType ("src/pages/Home.test" ++ String dot "TSX") = getFileType "TSX" /\
  getFileType "TSX" = OwnString "typescript-react".
Proof.
  split.
  - apply (X1_file_type_by_last_extension "src/pages/Home.test" "TSX"). reflexivity.
  - reflexivity.
Defined.

Lemma assoc_In {A} (key : string) (entries : list (string * A)) (v : A) :
  assoc key entries = Some v -> In v (map snd entries).
Proof.
  induction entries as [| [k x] rest IH]; [discriminate |].
  cbn [assoc map snd]. destruct (String.eqb key k).
  - intros [= <-]. now left.
  - intros H. right. now apply IH.
Qed.

(** What [literal[key] || 'text'] can be. *)
Lemma typeOrText_cases (entries : list (string * string)) (key : string) :
  (exists t, typeOrText entries key = OwnString t /\
             In t (map snd entries ++ ["text"])) \/
  (assoc key entries = None /\
   existsb (String.eqb key) objectPrototypeKeys = true /\
   typeOrText entries key = PrototypeMember key).
Proof.
  unfold typeOrText, getProperty.
  destruct (assoc key entries) as [v |] eqn:Ha.
  - left. exists v. split; [reflexivity |].
    apply in_or_app. left. now apply (assoc_In key).
  - destruct (existsb (String.eqb key) objectPrototypeKeys) eqn:Hp.
    + right. now conjs.
    + left. exists "text". split; [reflexivity |].
      apply in_or_app. right. now left.
Qed.

(** Of the property names of [Object.prototype], a lower-cased string can
    only be one of the two written in lower case. *)
Lemma prototype_key_lowered (s : string) :
  existsb (String.eqb (toLowerCase s)) objectPrototypeKeys = true ->
  In (toLowerCase s) lowerCasePrototypeKeys.
Proof.
  unfold objectPrototypeKeys, lowerCasePrototypeKeys. cbn [existsb].
  rewrite !orb_true_iff.
  intros H.
  repeat match type of H with
         | _ \/ _ => destruct H as [H | H]
         end;
    try discriminate H;
    try (apply lowered_eqb in H; discriminate H);
    apply String.eqb_eq in H; rewrite H; cbn; tauto.
Qed.

(** X2: [getFileType] (of the pipeline and of the validator) returns one
    of the type names of its table or ['text'], except for the paths whose
    last dot-segment, lower-cased, is [constructor] or [__proto__]: for
    these the lookup in the object literal finds the member inherited from
    [Object.prototype], which is returned in place of a string. *)
Theorem X2_file_type_values (p : string) :
  let ext := toLowerCase (lastSegment p) in
  (In ext lowerCasePrototypeKeys ->
   getFileType p = PrototypeMember ext /\
   Validator.getFileType p = PrototypeMember ext) /\
  (~ In ext lowerCasePrototypeKeys ->
   (exists t, getFileType p = OwnString t /\ In t pipelineTypeNames) /\
   (exists t, Validator.getFileType p = OwnString t /\ In t validatorTypeNames)).
Proof.
  intros ext. unfold getFileType, Validator.getFileType. fold ext. split.
  - intros [H | [H | []]]; rewrite <- H; split; reflexivity.
  - intros Hno. split.
    + destruct (typeOrText_cases typeMap ext) as [H | (_ & H & _)]; [exact H |].
      contradiction Hno. now apply prototype_key_lowered.
    + destruct (typeOrText_cases Validator.typeMap ext) as [H | (_ & H & _)];
        [exact H |].
      contradiction Hno. now apply prototype_key_lowered.
Qed.

(** ** The validator *)

Lemma bind_liftResult_ok {A B} (a : A) (f : A -> M B) (w : World) :
  bind (liftResult (Ok a)) f w = f a w.
Proof.
  unfold bind, liftResult. now destruct (f a w) as [[r w2] t2].
Qed.

Lemma isCodeFile_extension (p : string) :
  Validator.isCodeFile p = true ->
  In (lastSegment p) ["ts"; "tsx"; "js"; "jsx"; "css"; "json"].
Proof.
  unfold Validator.isCodeFile. cbn [existsb]. rewrite !orb_true_iff.
  intros H. unfold lastSegment.
  repeat match type of H with
         | _ \/ _ => destruct H as [H | H]
         end;
    try discriminate H;
    (apply endsWith_lastSegment in H; [| reflexivity]); rewrite H; cbn; tauto.
Qed.

(** A code file has a type name: its extension is not the name of a member
    of [Object.prototype]. *)
Lemma isCodeFile_typed (p : string) :
  Validator.isCodeFile p = true ->
  ~ In (toLowerCase (lastSegment p)) lowerCasePrototypeKeys.
Proof.
  intros H. apply isCodeFile_extension in H.
  cbn [In] in H.
  repeat match type of H with
         | _ \/ _ => destruct H as [H | H]
         end;
    try contradiction H; rewrite <- H; cbn; intros [E | [E | []]]; discriminate E.
Qed.

Lemma validateFile_typed (env : Env) (p fileContent : string) (w : World) :
  ~ In (toLowerCase (lastSegment p)) lowerCasePrototypeKeys ->
  Validator.validateFile env p fileContent None w = validateFile env p fileContent w.
Proof.
  intros Hno. unfold Validator.validateFile.
  destruct (typeOrText_cases Validator.typeMap (toLowerCase (lastSegment p)))
    as [(t & Ht & _) | (_ & H & _)].
  - unfold Validator.getFileType. rewrite Ht.
    cbn [Validator.getRulesForFileType]. now rewrite bind_liftResult_ok.
  - contradiction Hno. now apply prototype_key_lowered.
Qed.

(** X3: [Validator.validateFile], called without rules as the pipeline
    calls it, throws a [TypeError] before it logs anything or reaches a
    provider when the last dot-segment of the path, lower-cased, is
    [constructor] or [__proto__]; for every other path, and whenever rules
    are passed, it is the provider call, the parse and the two log records
    alone (the computation [validateFile] that the run of the pipeline is
    written with).  The paths that [isCodeFile] accepts are never of the
    throwing kind. *)
Theorem X3_validateFile_type_error
        (env : Env) (p fileContent : string) (w : World) :
  let ext := toLowerCase (lastSegment p) in
  (In ext lowerCasePrototypeKeys ->
   Validator.validateFile env p fileContent None w =
   (Throw (ErrorObj "fileType.includes is not a function"), w, [])) /\
  (~ In ext lowerCasePrototypeKeys ->
   Validator.validateFile env p fileContent None w = validateFile env p fileContent w) /\
  (forall rules,
     Validator.validateFile env p fileContent (Some rules) w =
     validateFile env p fileContent w) /\
  (Validator.isCodeFile p = true -> ~ In ext lowerCasePrototypeKeys).
Proof.
  intros ext. conjs.
  - intros Hin. unfold Validator.validateFile.
    replace (Validator.getFileType p) with (PrototypeMember ext); [reflexivity |].
    unfold Validator.getFileType. fold ext.
    destruct Hin as [H | [H | []]]; rewrite <- H; reflexivity.
  - apply validateFile_typed.
  - intros rules. unfold Validator.validateFile. now rewrite bind_liftResult_ok.
  - apply isCodeFile_typed.
Qed.

(** X4: [Validator.quickCheck] inspects the content only of the paths whose
    last dot-segment, lower-cased, is [ts] or [js]; every other file (a
    [.tsx] or [.jsx] component as well) is reported valid whatever it
    contains.  For a [ts] or [js] file the verdict is negative exactly when
    the content has [import] without [from], or unequal numbers of opening
    and closing braces, or of opening and closing parentheses. *)
Theorem X4_quickCheck_scope (p fileContent : string) :
  let ext := toLowerCase (lastSegment p) in
  let verdict := Validator.quickCheck p fileContent in
  (quickValid verdict = false -> In ext ["ts"; "js"]) /\
  (In ext ["ts"; "js"] ->
   quickValid verdict =
   negb (includes "import" fileContent && negb (includes "from" fileContent)) &&
   Nat.eqb (countChar "{" fileContent) (countChar "}" fileContent) &&
   Nat.eqb (countChar "(" fileContent) (countChar ")" fileContent)) /\
  (quickValid verdict = true <-> quickError verdict = None).
Proof.
  intros ext verdict. subst verdict.
  unfold Validator.quickCheck, Validator.getFileType. fold ext.
  assert (Hbody :
    forall b : bool,
      let v := if b then
                 if includes "import" fileContent && negb (includes "from" fileContent)
                 then mkQuickCheck false (Some "Incomplete import statement")
                 else if negb (Nat.eqb (countChar "{" fileContent)
                                       (countChar "}" fileContent))
                 then mkQuickCheck false (Some "Mismatched braces")
                 else if negb (Nat.eqb (countChar "(" fileContent)
                                       (countChar ")" fileContent))
                 then mkQuickCheck false (Some "Mismatched parentheses")
                 else mkQuickCheck true None
               else mkQuickCheck true None in
      (quickValid v = false -> b = true) /\
      (b = true ->
       quickValid v =
       negb (includes "import" fileContent && negb (includes "from" fileContent)) &&
       Nat.eqb (countChar "{" fileContent) (countChar "}" fileContent) &&
       Nat.eqb (countChar "(" fileContent) (countChar ")" fileContent)) /\
      (quickValid v = true <-> quickError v = None)).
  { intros [|]; cbv zeta.
    - destruct (includes "import" fileContent && negb (includes "from" fileContent));
        destruct (Nat.eqb (countChar "{" fileContent) (countChar "}" fileContent));
        destruct (Nat.eqb (countChar "(" fileContent) (countChar ")" fileContent));
        cbn; conjs; try reflexivity; try discriminate; split; intros; reflexivity || discriminate.
    - cbn. conjs; try discriminate; try reflexivity. split; reflexivity. }
  match goal with
  | |- context [if ?b then _ else mkQuickCheck true None] =>
      specialize (Hbody b); cbv zeta in Hbody; destruct Hbody as (H1 & H2 & H3);
      assert (Hb : b = true <-> In ext ["ts"; "js"])
  end.
  { unfold typeOrText, getProperty, Validator.typeMap. cbn [assoc].
    generalize ext. intros e.
    repeat match goal with
           | |- context [if String.eqb e ?k then _ else _] =>
               let E := fresh "E" in destruct (String.eqb e k) eqn:E;
               [apply String.eqb_eq in E; subst e; cbn; split;
                  [try discriminate; tauto
                  | intros [X | [X | []]]; try discriminate X; reflexivity] |]
           end.
    destruct (existsb (String.eqb e) objectPrototypeKeys); cbn; split;
      try discriminate; intros [X | [X | []]]; subst e; discriminate. }
  conjs.
  - intros Hv. apply Hb. now apply H1.
  - intros Hin. apply H2. now apply Hb.
  - exact H3.
Qed.

Lemma reactImport_has_react (c : string) :
  includes "from 'react'" (Validator.reactImport ++ c) = true.
Proof. apply includes_append. reflexivity. Qed.

Lemma attemptRepair_repaired (filePath c : string) fileErrors allFiles :
  Validator.attemptRepair (mkWorkspaceFile filePath (Validator.reactImport ++ c))
                          fileErrors allFiles = None.
Proof.
  unfold Validator.attemptRepair. cbn [file_path wContent].
  rewrite reactImport_has_react, andb_false_r.
  now destruct (Nat.eqb (List.length fileErrors) 0).
Qed.

(** X5: a repair proposed by [Validator.attemptRepair] is for a [.tsx]
    file with at least one finding and no [from 'react'] in it; it leaves
    the path alone and only puts the line [import React from 'react';] in
    front of the content, nothing of which is removed or changed; and the
    repaired file is never repaired again, whatever findings come with it. *)
Theorem X5_repair_prepends_once
        (file : WorkspaceFile) (fileErrors : list ValidationError)
        (allFiles : list WorkspaceFile) (repair : Repair) :
  Validator.attemptRepair file fileErrors allFiles = Some repair ->
  fileErrors <> [] /\
  endsWith ".tsx" (file_path file) = true /\
  includes "from 'react'" (wContent file) = false /\
  repairPath repair = file_path file /\
  repairContent repair = (Validator.reactImport ++ wContent file)%string /\
  forall fileErrors' allFiles',
    Validator.attemptRepair (mkWorkspaceFile (repairPath repair) (repairContent repair))
                            fileErrors' allFiles' = None.
Proof.
  unfold Validator.attemptRepair.
  destruct fileErrors as [| e0 rest]; [discriminate |]. cbn [List.length Nat.eqb].
  destruct (endsWith ".tsx" (file_path file)) eqn:Htsx; [| discriminate].
  destruct (includes "from 'react'" (wContent file)) eqn:Hinc; [discriminate |].
  cbn [andb negb]. intros [= <-]. cbn [repairPath repairContent file_path wContent].
  conjs; try reflexivity; try discriminate.
  intros fileErrors' allFiles'.
  exact (attemptRepair_repaired _ _ fileErrors' allFiles').
Qed.

Lemma X5_witness :
  exists repair,
    Validator.attemptRepair
      (mkWorkspaceFile "src/App.tsx" "export default () => <div/>;")
      [mkValidationError "src/App.tsx" "Contains explicit any type" SevWarning] []
    = Some repair /\
    repairContent repair =
      (Validator.reactImport ++ "export default () => <div/>;")%string.
Proof.
  eexists. split; [reflexivity |].
  eapply (X5_repair_prepends_once
            (mkWorkspaceFile "src/App.tsx" "export default () => <div/>;")
            [mkValidationError "src/App.tsx" "Contains explicit any type" SevWarning] []).
  reflexivity.
Defined.

Section LegacyFacts.
Variable importPaths : string -> list string.
Variable files : list WorkspaceFile.

Lemma validateStep_acc errs warns reps file :
  Validator.validateStep importPaths files (errs, warns, reps) file =
  (errs ++ fst (fst (legacyFindings importPaths files file)),
   warns ++ snd (fst (legacyFindings importPaths files file)),
   reps ++ snd (legacyFindings importPaths files file)).
Proof.
  unfold legacyFindings, Validator.validateStep.
  destruct (Validator.isCodeFile (file_path file)); cbn [negb fst snd].
  - destruct (Validator.attemptRepair file (Validator.validateFileSync file) files);
      cbn [fst snd app]; now rewrite ?app_nil_r, ?app_assoc.
  - now rewrite !app_nil_r.
Qed.

Lemma fold_validateStep l errs warns reps :
  fold_left (Validator.validateStep importPaths files) l (errs, warns, reps) =
  (errs ++ flat_map (fun f => fst (fst (legacyFindings importPaths files f))) l,
   warns ++ flat_map (fun f => snd (fst (legacyFindings importPaths files f))) l,
   reps ++ flat_map (fun f => snd (legacyFindings importPaths files f)) l).
Proof.
  revert errs warns reps. induction l as [| f l IH]; intros errs warns reps.
  - cbn. now rewrite !app_nil_r.
  - cbn [fold_left flat_map]. rewrite validateStep_acc, IH.
    now rewrite !app_assoc.
Qed.

Lemma legacyFindings_skipped file :
  Validator.isCodeFile (file_path file) = false ->
  legacyFindings importPaths files file = ([], [], []).
Proof.
  intros H. unfold legacyFindings, Validator.validateStep. now rewrite H.
Qed.

Lemma legacyFindings_code file :
  Validator.isCodeFile (file_path file) = true ->
  fst (fst (legacyFindings importPaths files file)) =
    filter isSevError (Validator.validateFileSync file) ++
    Validator.validateImports importPaths file files /\
  snd (fst (legacyFindings importPaths files file)) =
    filter isSevWarning (Validator.validateFileSync file) /\
  snd (legacyFindings importPaths files file) =
    match Validator.attemptRepair file (Validator.validateFileSync file) files with
    | Some repair => [repair]
    | None => []
    end.
Proof.
  intros H. unfold legacyFindings, Validator.validateStep. rewrite H. cbn [negb].
  now destruct (Validator.attemptRepair file (Validator.validateFileSync file) files).
Qed.

Lemma validateFileSync_file file e :
  In e (Validator.validateFileSync file) -> veFile e = file_path file.
Proof.
  unfold Validator.validateFileSync.
  destruct (endsWith ".tsx" (file_path file) || endsWith ".ts" (file_path file));
    [| intros []].
  intros H. repeat (apply in_app_or in H; destruct H as [H | H]);
    match type of H with
    | In _ (if ?b then _ else _) => destruct b
    end;
    try contradiction H; destruct H as [<- | []]; reflexivity.
Qed.

Lemma validateImports_issue file e :
  In e (Validator.validateImports importPaths file files) ->
  veFile e = file_path file /\ veSeverity e = SevWarning.
Proof.
  unfold Validator.validateImports. intros H.
  apply in_flat_map in H. destruct H as (ip & _ & H).
  destruct (negb (startsWith "." ip) && negb (startsWith "@/" ip)); [contradiction H |].
  destruct (startsWith "@/" ip); [| contradiction H].
  match type of H with
  | In _ (if ?b then _ else _) => destruct b
  end; [contradiction H |].
  destruct H as [<- | []]. now split.
Qed.
End LegacyFacts.

(** X6: the legacy [Validator.validate] never throws and logs once.  Its
    verdict is negative exactly when the error list is not empty, and that
    list also receives the unresolved [@/] imports, whose severity is
    warning: one such import in a code file makes the whole result invalid.
    Files that are not code files contribute no finding and no repair, and
    every repair is the content of a [.tsx] code file with the React import
    put in front. *)
Theorem X6_legacy_validate
        (importPaths : string -> list string) (files : list WorkspaceFile) (w : World) :
  exists res,
    Validator.validate importPaths files w =
      (Ok res, w, [EvLog Info "Validation complete" noData]) /\
    (legacyValid res = true <-> legacyErrors res = []) /\
    (forall file issue,
       In file files -> Validator.isCodeFile (file_path file) = true ->
       In issue (Validator.validateImports importPaths file files) ->
       In issue (legacyErrors res) /\ veSeverity issue = SevWarning /\
       legacyValid res = false) /\
    (forall e,
       In e (legacyErrors res ++ legacyWarnings res) ->
       exists file,
         In file files /\ Validator.isCodeFile (file_path file) = true /\
         veFile e = file_path file) /\
    (forall repair,
       In repair (legacyRepairs res) ->
       exists file,
         In file files /\ Validator.isCodeFile (file_path file) = true /\
         endsWith ".tsx" (file_path file) = true /\
         repairPath repair = file_path file /\
         repairContent repair = (Validator.reactImport ++ wContent file)%string).
Proof.
  unfold Validator.validate. rewrite (fold_validateStep importPaths files files [] [] []).
  cbn [app]. eexists. split; [reflexivity |].
  cbn [legacyValid legacyErrors legacyWarnings legacyRepairs].
  set (errs := flat_map (fun f => fst (fst (legacyFindings importPaths files f))) files).
  set (warns := flat_map (fun f => snd (fst (legacyFindings importPaths files f))) files).
  set (reps := flat_map (fun f => snd (legacyFindings importPaths files f)) files).
  assert (Hvalid : Nat.eqb (List.length errs) 0 = true <-> errs = []).
  { destruct errs; cbn; split; intros; reflexivity || discriminate. }
  conjs.
  - exact Hvalid.
  - intros file issue Hin Hcode Hissue.
    assert (Hi : In issue errs).
    { apply in_flat_map. exists file. split; [exact Hin |].
      destruct (legacyFindings_code importPaths files file Hcode) as (-> & _ & _).
      apply in_or_app. now right. }
    conjs.
    + exact Hi.
    + now apply (validateImports_issue importPaths files file).
    + clear Hvalid. clearbody errs.
      destruct errs; [contradiction Hi | reflexivity].
  - intros e He.
    assert (Hsrc : exists file,
               In file files /\
               (In e (fst (fst (legacyFindings importPaths files file))) \/
                In e (snd (fst (legacyFindings importPaths files file))))).
    { apply in_app_or in He. destruct He as [He | He];
        apply in_flat_map in He; destruct He as (file & Hin & He);
        exists file; tauto. }
    destruct Hsrc as (file & Hin & He'). exists file.
    destruct (Validator.isCodeFile (file_path file)) eqn:Hcode.
    + conjs; try assumption; try reflexivity.
      destruct (legacyFindings_code importPaths files file Hcode) as (He1 & He2 & _).
      rewrite He1, He2 in He'. destruct He' as [He' | He'].
      * apply in_app_or in He'. destruct He' as [He' | He'].
        -- apply filter_In in He'. now apply validateFileSync_file.
        -- now apply (validateImports_issue importPaths files file).
      * apply filter_In in He'. now apply validateFileSync_file.
    + rewrite (legacyFindings_skipped importPaths files file Hcode) in He'.
      cbn in He'. tauto.
  - intros repair Hr. apply in_flat_map in Hr. destruct Hr as (file & Hin & Hr).
    exists file.
    destruct (Validator.isCodeFile (file_path file)) eqn:Hcode.
    + destruct (legacyFindings_code importPaths files file Hcode) as (_ & _ & Hr3).
      rewrite Hr3 in Hr.
      destruct (Validator.attemptRepair file (Validator.validateFileSync file) files)
        as [r |] eqn:Hrep; [| contradiction Hr].
      destruct Hr as [<- | []].
      unfold Validator.attemptRepair in Hrep.
      destruct (Nat.eqb (List.length (Validator.validateFileSync file)) 0);
        [discriminate Hrep |].
      destruct (endsWith ".tsx" (file_path file)) eqn:Htsx; [| discriminate Hrep].
      destruct (includes "from 'react'" (wContent file)); [discriminate Hrep |].
      cbn [andb negb] in Hrep. injection Hrep as <-.
      conjs; try assumption; reflexivity.
    + rewrite (legacyFindings_skipped importPaths files file Hcode) in Hr.
      contradiction Hr.
Qed.

(** ** Log records of a trace *)

Lemma logsOf_app (msg : string) (t1 t2 : list Event) :
  logsOf msg (t1 ++ t2) = logsOf msg t1 ++ logsOf msg t2.
Proof. apply flat_map_app. Qed.

Lemma notLog_logsOf (msg : string) (t : list Event) :
  Forall (fun e => isNotLog msg e = true) t -> logsOf msg t = [].
Proof.
  induction 1 as [| e t He _ IH]; [reflexivity |].
  cbn [logsOf flat_map]. fold (logsOf msg t). rewrite IH, app_nil_r.
  destruct e as [? ? ? | ? | ? | l m d]; try reflexivity.
  cbn in He. now destruct (String.eqb m msg).
Qed.

(** The engine logs nothing but its three messages. *)
Lemma engine_isNotLog (msg : string) (e : Event) :
  isEngineLog Warn msg = false -> isEngineLog Error msg = false ->
  isEngineEvent e = true -> isNotLog msg e = true.
Proof.
  intros Hw He Hev. destruct e as [? ? ? | ? | ? | l m d]; cbn; try reflexivity.
  cbn in Hev. destruct (logSession d), (logFile d); try discriminate Hev.
  destruct (String.eqb m msg) eqn:E; [| reflexivity].
  apply String.eqb_eq in E. subst m. destruct l; cbn in *; congruence.
Qed.

Lemma notLog_execute env ai req (msg : string) :
  isEngineLog Warn msg = false -> isEngineLog Error msg = false ->
  emitsOnly (isNotLog msg) (execute env ai req).
Proof.
  intros Hw He. eapply emitsOnly_impl; [| apply emitsOnly_execute].
  intros e. now apply engine_isNotLog.
Qed.

Section ValidateAllFacts.
Variable env : Env.

Lemma validateFile_no_fix filePath fileContent w :
  logsOf fixStartMessage (traceOf (validateFile env filePath fileContent w)) = [].
Proof.
  apply notLog_logsOf.
  assert (H : emitsOnly (isNotLog fixStartMessage)
                        (validateFile env filePath fileContent)).
  { unfold validateFile.
    pose proof (notLog_execute env getBuildableAI
                  (mkRequest VALIDATION true (Some 2000%Z)) fixStartMessage
                  eq_refl eq_refl).
    auto 8 with emits. }
  apply H.
Qed.

Lemma fix_obs filePath fileContent issueList w :
  validationsOf (traceOf (fix_ env filePath fileContent issueList w)) = 0 /\
  logsOf fixStartMessage (traceOf (fix_ env filePath fileContent issueList w)) =
    [fileData filePath].
Proof.
  split.
  - pose proof (post_fix env filePath fileContent issueList w) as H. apply H.
  - unfold fix_. rewrite traceOf_bind.
    cbn [logger emit resultOf worldOf traceOf fst snd]. rewrite logsOf_app.
    assert (H : emitsOnly (isNotLog fixStartMessage)
                  (response <- execute env getBuildableAI
                                 (mkRequest DEBUGGING false (Some 8000%Z)) ;;
                   logger Info "Issues fixed" (fileData filePath) ;;
                   ret (mkFixResult (stripCodeFence env (content response)) issueList
                                    (totalTokens (usage response)) (cost response)))).
    { pose proof (notLog_execute env getBuildableAI
                    (mkRequest DEBUGGING false (Some 8000%Z)) fixStartMessage
                    eq_refl eq_refl).
      auto 8 with emits. }
    rewrite (notLog_logsOf _ _ (H w)). reflexivity.
Qed.

Lemma validateAllLoop_spec (files : list WorkspaceFile) :
  forall acc w,
    post (Validator.validateAllLoop env files acc) w
      (fun r _ t =>
         validationsOf t <= List.length (codeFilesOf files) /\
         List.length (logsOf fixStartMessage t) <= validationsOf t /\
         match r with
         | Ok res =>
             validationsOf t = List.length (codeFilesOf files) /\
             exists newErrors newRepairs,
               batchErrors res = batchErrors acc ++ newErrors /\
               batchRepairs res = batchRepairs acc ++ newRepairs /\
               map fst newRepairs = map fst newErrors /\
               map logFile (logsOf fixStartMessage t) =
                 map (fun e => Some (fst e)) newErrors /\
               Subseq (map fst newErrors) (map file_path (codeFilesOf files)) /\
               Forall (fun e => snd e <> []) newErrors
         | Throw _ => True
         end).
Proof.
  induction files as [| file rest IH]; intros acc w.
  - unfold post. cbn. conjs; try lia.
    exists [], []. rewrite !app_nil_r. conjs; try reflexivity; constructor.
  - cbn [Validator.validateAllLoop]. unfold codeFilesOf. cbn [filter].
    fold (codeFilesOf rest).
    destruct (Validator.isCodeFile (file_path file)) eqn:Hcode; cbn [negb].
    + apply post_bind. unfold post at 1.
      rewrite (validateFile_typed env _ _ w (isCodeFile_typed _ Hcode)).
      destruct (validateFile_obs env (file_path file) (wContent file) w) as [Hv _].
      pose proof (validateFile_no_fix (file_path file) (wContent file) w) as Hf.
      destruct (validateFile env (file_path file) (wContent file) w)
        as [[[v | e] w1] t1]; unfold resultOf, worldOf, traceOf in *;
        cbn [fst snd List.length] in *.
      2:{ rewrite Hv, Hf. cbn. conjs; try lia; try exact I. }
      destruct (negb (valid v) && (0 <? List.length (issues v))) eqn:Hbad.
      * apply post_bind. unfold post at 1.
        destruct (fix_obs (file_path file) (wContent file) (issues v) w1) as [Hv2 Hf2].
        destruct (fix_ env (file_path file) (wContent file) (issues v) w1)
          as [[[fr | e] w2] t2]; unfold resultOf, worldOf, traceOf in *;
          cbn [fst snd] in *.
        2:{ rewrite validationsOf_app, logsOf_app, Hv, Hv2, Hf, Hf2. cbn.
            conjs; try lia; try exact I. }
        eapply post_conseq; [apply IH |].
        intros r w3 t3 (H1 & H2 & H3). cbn beta.
        rewrite !validationsOf_app, !logsOf_app, Hv, Hv2, Hf, Hf2.
        cbn [app List.length map logFile fileData]. conjs; try lia.
        destruct r as [res | e]; [| exact I].
        destruct H3 as (H3 & newE & newR & HE & HR & Hmap & Hlogs & Hsub & Hne).
        cbn [batchErrors batchRepairs] in HE, HR.
        split; [lia |].
        exists ((file_path file, issues v) :: newE),
               ((file_path file, fContent fr) :: newR).
        rewrite HE, HR, <- !app_assoc. cbn [app map fst].
        conjs; try reflexivity.
        -- now rewrite Hmap.
        -- now rewrite Hlogs.
        -- now constructor.
        -- constructor; [| exact Hne]. cbn [snd].
           apply andb_true_iff in Hbad. destruct Hbad as [_ Hlen].
           apply Nat.ltb_lt in Hlen. intros E. rewrite E in Hlen. cbn in Hlen. lia.
      * eapply post_conseq; [apply IH |].
        intros r w3 t3 (H1 & H2 & H3). cbn beta.
        rewrite !validationsOf_app, !logsOf_app, Hv, Hf.
        cbn [app List.length]. conjs; try lia.
        destruct r as [res | e]; [| exact I].
        destruct H3 as (H3 & newE & newR & HE & HR & Hmap & Hlogs & Hsub & Hne).
        cbn [batchErrors batchRepairs] in HE, HR.
        split; [lia |].
        exists newE, newR. conjs; try assumption. cbn [map]. now constructor.
    + apply IH.
Qed.
End ValidateAllFacts.


(** ** Cleaning up the generated text *)

Lemma append_assoc (a b c : string) : ((a ++ b) ++ c = a ++ (b ++ c))%string.
Proof. induction a as [| x a IH]; [reflexivity |]. cbn [append]. now rewrite IH. Qed.

Lemma append_length (a b : string) :
  String.length (a ++ b) = String.length a + String.length b.
Proof. induction a as [| x a IH]; [reflexivity |]. cbn. now rewrite IH. Qed.

Lemma dropWordChars_lang (lang rest : string) :
  allWordChars lang = true ->
  dropWordChars (lang ++ String newline rest) = String newline rest.
Proof.
  induction lang as [| c lang IH]; intros H; [reflexivity |].
  cbn [allWordChars] in H. apply andb_true_iff in H. destruct H as [Hc H].
  cbn [append dropWordChars]. rewrite Hc. now apply IH.
Qed.

Lemma dropClosingFence_closed (body : string) :
  dropClosingFence (body ++ nl ++ fence) = body.
Proof.
  induction body as [| c body IH]; [reflexivity |].
  cbn [append]. cbn [dropClosingFence].
  replace (String.eqb (String c (body ++ nl ++ fence)) (nl ++ fence)) with false.
  2:{ symmetry. apply String.eqb_neq. intros E.
      apply (f_equal String.length) in E. cbn [String.length] in E.
      rewrite append_length in E. cbn in E. lia. }
  replace (String.eqb (String c (body ++ nl ++ fence)) fence) with false.
  2:{ symmetry. apply String.eqb_neq. intros E.
      apply (f_equal String.length) in E. cbn [String.length] in E.
      rewrite append_length in E. cbn in E. lia. }
  cbn [orb]. now rewrite IH.
Qed.

Lemma startsWith_app (a b : string) : startsWith a (a ++ b) = true.
Proof.
  unfold startsWith. induction a as [| c a IH]; [now destruct b |].
  cbn [append String.prefix]. now destruct (ascii_dec c c).
Qed.

Lemma append_nonempty (a b : string) : b <> EmptyString -> (a ++ b)%string <> EmptyString.
Proof. intros Hb. destruct a; [exact Hb | discriminate]. Qed.

Lemma trimEnd_app (s t : string) :
  trimEnd t = t -> t <> EmptyString -> trimEnd (s ++ t) = (s ++ t)%string.
Proof.
  intros Ht Hne. induction s as [| c s IH]; [exact Ht |].
  cbn [append]. rewrite trimEnd_cons, IH.
  destruct (s ++ t)%string eqn:E; [| reflexivity].
  now apply (append_nonempty s t) in E.
Qed.

Lemma trimStart_app (s t : string) :
  trimStart s = s -> s <> EmptyString -> trimStart (s ++ t) = (s ++ t)%string.
Proof.
  intros Hs Hne. destruct s as [| c s]; [contradiction Hne; reflexivity |].
  cbn [append trimStart] in *. destruct (isWhiteSpace c); [| reflexivity].
  exfalso. assert (Hlen : String.length (trimStart s) <= String.length s).
  { clear. induction s as [| a s IH]; [cbn; lia |].
    cbn [trimStart]. destruct (isWhiteSpace a); cbn; lia. }
  rewrite Hs in Hlen. cbn in Hlen. lia.
Qed.

(** X8: the clean-up that [Coder.generateFile], [Coder.generateDiff] and
    [Validator.fix] apply to the reply of the model undoes a Markdown code
    fence exactly: for a fence with a language tag made of word characters
    (or none) followed by a line feed, the body and a line feed before the
    closing fence, it returns the body, character for character. *)
Theorem X8_fence_round_trip (lang body : string) :
  allWordChars lang = true ->
  stripMarkdownFence (fence ++ lang ++ nl ++ body ++ nl ++ fence) = body.
Proof.
  intros Hlang. unfold stripMarkdownFence.
  assert (Htrim : trim (fence ++ lang ++ nl ++ body ++ nl ++ fence)
                  = (fence ++ lang ++ nl ++ body ++ nl ++ fence)%string).
  { unfold trim.
    change (trimStart (fence ++ lang ++ nl ++ body ++ nl ++ fence))
      with (fence ++ lang ++ nl ++ body ++ nl ++ fence)%string.
    repeat (apply trimEnd_app; [| repeat apply append_nonempty; discriminate]).
    reflexivity. }
  rewrite Htrim. unfold dropOpeningFence.
  rewrite !startsWith_app.
  change (slice 3 (fence ++ lang ++ nl ++ body ++ nl ++ fence))
    with (lang ++ String newline (body ++ nl ++ fence))%string.
  rewrite (dropWordChars_lang lang _ Hlang).
  change (dropOneNewline (String newline (body ++ nl ++ fence)))
    with (body ++ nl ++ fence)%string.
  apply dropClosingFence_closed.
Qed.

Lemma X8_witness :
  stripMarkdownFence (fence ++ "tsx" ++ nl ++ "export const a = 1;" ++ nl ++ fence)
  = "export const a = 1;".
Proof. apply (X8_fence_round_trip "tsx" "export const a = 1;"). reflexivity. Defined.

(** ** Batch generation *)

Lemma assoc_mapSet {A} (k key : string) (v : A) (entries : list (string * A)) :
  assoc k (mapSet key v entries) = if String.eqb k key then Some v else assoc k entries.
Proof.
  induction entries as [| [k0 v0] rest IH]; cbn [mapSet assoc]; [reflexivity |].
  destruct (String.eqb key k0) eqn:E0.
  - apply String.eqb_eq in E0. subst k0. cbn [assoc].
    now destruct (String.eqb k key).
  - cbn [assoc]. rewrite IH.
    destruct (String.eqb k k0) eqn:E1; [| reflexivity].
    apply String.eqb_eq in E1. subst k0.
    destruct (String.eqb k key) eqn:E2; [| reflexivity].
    apply String.eqb_eq in E2. subst key. now rewrite String.eqb_refl in E0.
Qed.

Lemma compareBatch_key (a b : FileSpec) :
  True -> True -> compareBatch a b = (batchKey a - batchKey b)%Z.
Proof. reflexivity. Qed.

Section BatchFacts.
Variable env : Env.

Lemma generateFile_announces f p existing prompt0 w :
  logsOf coderStartMessage (traceOf (generateFile env f p existing prompt0 w)) =
  [fileData (path f)].
Proof.
  unfold generateFile. rewrite traceOf_bind.
  cbn [logger emit resultOf worldOf traceOf fst snd]. rewrite logsOf_app.
  assert (H : emitsOnly (isNotLog coderStartMessage)
                (response <- execute env getBuildableAI
                               (mkRequest CODING false (Some 8000%Z)) ;;
                 logger Info "File generated" (fileData (path f)) ;;
                 ret (mkCoderResult (stripCodeFence env (content response))
                                    (totalTokens (usage response)) (cost response)
                                    (respModel response)))).
  { pose proof (notLog_execute env getBuildableAI
                  (mkRequest CODING false (Some 8000%Z)) coderStartMessage
                  eq_refl eq_refl).
    auto 8 with emits. }
  rewrite (notLog_logsOf _ _ (H w)). reflexivity.
Qed.

Lemma batchLoop_spec p prompt0 (sortedFiles : list FileSpec) :
  forall results existing w,
    let out := batchLoop env p prompt0 sortedFiles results existing w in
    exists done rest added,
      sortedFiles = done ++ rest /\
      batchExisting out = existing ++ added /\
      map file_path added = map path done /\
      map logFile (logsOf coderStartMessage (batchTrace out)) =
        map (fun f => Some (path f)) (done ++ firstn 1 rest) /\
      match batchOutcome out with
      | Ok final =>
          rest = [] /\
          forall k, assoc k final <> None <->
                    (assoc k results <> None \/ In k (map path sortedFiles))
      | Throw _ => rest <> []
      end.
Proof.
  induction sortedFiles as [| f files IH]; intros results existing w out.
  - exists [], [], []. subst out. cbn. rewrite app_nil_r. conjs; try reflexivity.
    intros k. tauto.
  - subst out. cbn [batchLoop].
    pose proof (generateFile_announces f p existing prompt0 w) as Hlog.
    destruct (generateFile env f p existing prompt0 w) as [[[result | e] w1] t1];
      unfold traceOf in Hlog; cbn [snd] in Hlog.
    + specialize (IH (mapSet (path f) result results)
                     (existing ++ [mkWorkspaceFile (path f) (cContent result)]) w1).
      cbv zeta in IH.
      destruct IH as (done & rest & added & Hs & Hex & Hadd & Hlogs & Hres).
      destruct (batchLoop env p prompt0 files (mapSet (path f) result results)
                          (existing ++ [mkWorkspaceFile (path f) (cContent result)]) w1)
        as [[[r ex2] w2] t2].
      unfold batchOutcome, batchExisting, batchTrace in *. cbn [fst snd] in *.
      exists (f :: done), rest, (mkWorkspaceFile (path f) (cContent result) :: added).
      conjs.
      * now rewrite Hs.
      * now rewrite Hex, <- app_assoc.
      * cbn [map file_path]. now rewrite Hadd.
      * rewrite logsOf_app, Hlog, map_app, Hlogs. reflexivity.
      * destruct r as [final | e]; [| exact Hres].
        destruct Hres as [Hrest Hkeys]. split; [exact Hrest |].
        intros k. rewrite Hkeys, assoc_mapSet. cbn [map In].
        destruct (String.eqb k (path f)) eqn:E.
        -- apply String.eqb_eq in E. subst k. split; intros _.
           ++ right. now left.
           ++ left. discriminate.
        -- apply String.eqb_neq in E. split.
           ++ intros [H | H]; [now left | right; now right].
           ++ intros [H | [H | H]]; [now left | congruence | now right].
    + exists [], (f :: files), [].
      unfold batchOutcome, batchExisting, batchTrace. cbn [fst snd].
      rewrite app_nil_r, Hlog. conjs; try reflexivity. discriminate.
Qed.
End BatchFacts.

(** X9: [Coder.generateBatch] generates the files one after the other in
    non-decreasing order of [priority ?? 99] (a reordering of its input),
    appending each generated file to the caller's [existingFiles]
    array.  It stops at the first file whose generation fails and then
    returns nothing, although the files generated before the failure stay in
    the caller's array; when it returns, every file was generated, the array
    grew by one entry per file in generation order, and the result map has
    an entry exactly for the paths of the input. *)
Theorem X9_generateBatch_order
        (env : Env) (fileSpecs : list FileSpec) (p : ProjectPlan)
        (existingFiles : list WorkspaceFile) (originalPrompt : string) (w : World) :
  let sortedFiles := sortBy compareBatch fileSpecs in
  let out := generateBatch env fileSpecs p existingFiles originalPrompt w in
  Permutation fileSpecs sortedFiles /\
  StronglySorted (leBy batchKey) sortedFiles /\
  exists done rest added,
    sortedFiles = done ++ rest /\
    batchExisting out = existingFiles ++ added /\
    map file_path added = map path done /\
    map logFile (logsOf coderStartMessage (batchTrace out)) =
      map (fun f => Some (path f)) (done ++ firstn 1 rest) /\
    match batchOutcome out with
    | Ok results =>
        rest = [] /\
        forall k, assoc k results <> None <-> In k (map path fileSpecs)
    | Throw _ => rest <> []
    end.
Proof.
  intros sortedFiles out. conjs.
  - apply sortBy_perm.
  - apply (sortBy_sorted FileSpec compareBatch batchKey (fun _ => True) compareBatch_key).
    apply Forall_forall. intros; exact I.
  - subst out. unfold generateBatch. fold sortedFiles.
    destruct (batchLoop_spec env p originalPrompt sortedFiles [] existingFiles w)
      as (done & rest & added & Hs & Hex & Hadd & Hlogs & Hres).
    exists done, rest, added. conjs; try assumption.
    destruct (batchOutcome _) as [results | e]; [| exact Hres].
    destruct Hres as [Hrest Hkeys]. split; [exact Hrest |].
    intros k. rewrite Hkeys. cbn [assoc]. split.
    + intros [H | H]; [contradiction H; reflexivity |].
      apply in_map_iff in H. destruct H as (f & <- & Hf).
      apply in_map. eapply Permutation_in; [| exact Hf].
      symmetry. apply sortBy_perm.
    + intros H. right. apply in_map_iff in H. destruct H as (f & <- & Hf).
      apply in_map. eapply Permutation_in; [| exact Hf]. apply sortBy_perm.
Qed.

(** ** Available providers and routing *)

Lemma executeWithProvider_calls env ai p m req w c :
  In c (providerCallsOf (traceOf (executeWithProvider env ai p m req w))) ->
  c = mkCandidate p m /\ isProviderAvailable env p = true.
Proof.
  intros Hin. split.
  - pose proof (retryLoop_spec env ai p m req (retryCount ai + 1) 0 None w) as H.
    cbv zeta in H. fold (executeWithProvider env ai p m req w) in H.
    destruct H as (_ & Hcalls & _). rewrite Hcalls in Hin.
    now apply repeat_spec in Hin.
  - destruct (isProviderAvailable env p) eqn:Hav; [reflexivity |].
    unfold executeWithProvider in Hin.
    replace (retryCount ai + 1) with (S (retryCount ai)) in Hin by lia.
    rewrite retryLoop_S, Hav in Hin. contradiction Hin.
Qed.

Lemma execute_calls env ai req w c :
  In c (providerCallsOf (traceOf (execute env ai req w))) ->
  isProviderAvailable env (cProvider c) = true /\
  (c = primaryOf req \/ fallback (ModelRouting (task req)) = Some c).
Proof.
  rewrite execute_eq. cbv zeta.
  assert (Hfb : forall start w1,
             In c (providerCallsOf (traceOf (fallbackPart env ai req start w1))) ->
             isProviderAvailable env (cProvider c) = true /\
             fallback (ModelRouting (task req)) = Some c).
  { intros start w1. rewrite fallbackPart_calls.
    destruct (fallback (ModelRouting (task req))) as [fb |]; [| intros []].
    destruct (isProviderAvailable env (cProvider fb)); [| intros []].
    intros H. apply executeWithProvider_calls in H. destruct H as [-> Hav].
    split; [exact Hav | now destruct fb]. }
  destruct (isProviderAvailable env (provider (ModelRouting (task req)))) eqn:Hav.
  - pose proof (executeWithProvider_calls env ai (provider (ModelRouting (task req)))
                  (model (ModelRouting (task req))) req w c) as Hp.
    destruct (executeWithProvider env ai (provider (ModelRouting (task req)))
                (model (ModelRouting (task req))) req w) as [[[r | e] w1] t1].
    + unfold traceOf in *. cbn [snd] in *. intros H.
      destruct (Hp H) as [-> Hav']. split; [exact Hav' | now left].
    + specialize (Hfb (timeAt env w) w1).
      destruct (fallbackPart env ai req (timeAt env w) w1) as [[r2 w2] t2].
      unfold traceOf in *. cbn [snd] in *. rewrite providerCallsOf_app.
      change (primaryFailedLog :: t2) with ([primaryFailedLog] ++ t2).
      rewrite providerCallsOf_app. cbn [providerCallsOf flat_map primaryFailedLog app].
      intros H. apply in_app_or in H. destruct H as [H | H].
      * destruct (Hp H) as [-> Hav']. split; [exact Hav' | now left].
      * destruct (Hfb H) as [H1 H2]. split; [exact H1 | now right].
  - intros H. destruct (Hfb _ _ H) as [H1 H2]. split; [exact H1 | now right].
Qed.

(** X10: [getAvailableProviders] lists, without repetition, exactly the
    providers for which [isProviderAvailable] holds, and [execute] never
    calls a provider that is not on that list. *)
Theorem X10_calls_go_to_available_providers (env : Env) :
  (forall p, In p (getAvailableProviders env) <-> isProviderAvailable env p = true) /\
  NoDup (getAvailableProviders env) /\
  (forall ai req w c,
     In c (providerCallsOf (traceOf (execute env ai req w))) ->
     In (cProvider c) (getAvailableProviders env)).
Proof.
  assert (Hiff : forall p, In p (getAvailableProviders env) <->
                           isProviderAvailable env p = true).
  { intros p. unfold getAvailableProviders. rewrite filter_In. split.
    - now intros [_ H].
    - intros H. split; [| exact H]. destruct p; cbn; tauto. }
  conjs.
  - exact Hiff.
  - unfold getAvailableProviders. apply NoDup_filter.
    repeat constructor; cbn; intuition discriminate.
  - intros ai req w c Hc. apply Hiff. now apply (execute_calls env ai req w).
Qed.

Lemma execute_no_candidate env ai req w :
  isProviderAvailable env (provider (ModelRouting (task req))) = false ->
  fallbackUnavailable env req ->
  execute env ai req w = (Throw (noProviders req), w, []).
Proof.
  intros Hp Hf. rewrite execute_eq. cbv zeta. rewrite Hp, fallbackPart_eq.
  unfold fallbackUnavailable in Hf.
  destruct (fallback (ModelRouting (task req))) as [fb |]; [| reflexivity].
  now rewrite (Hf fb eq_refl).
Qed.

Lemma execute_reaches_candidate env ai req w :
  isProviderAvailable env (provider (ModelRouting (task req))) = true \/
  (exists fb, fallback (ModelRouting (task req)) = Some fb /\
              isProviderAvailable env (cProvider fb) = true) ->
  providerCallsOf (traceOf (execute env ai req w)) <> [].
Proof.
  intros Hsome. rewrite execute_eq. cbv zeta.
  destruct (isProviderAvailable env (provider (ModelRouting (task req)))) eqn:Hav.
  - pose proof (executeWithProvider_calls_once env ai _
                  (model (ModelRouting (task req))) req w Hav) as H1.
    destruct (executeWithProvider env ai (provider (ModelRouting (task req)))
                (model (ModelRouting (task req))) req w) as [[[r | e] w1] t1];
      unfold traceOf in *; cbn [snd] in *.
    + intros E. rewrite E in H1. cbn in H1. lia.
    + destruct (fallbackPart env ai req (timeAt env w) w1) as [[r2 w2] t2].
      cbn [snd]. rewrite providerCallsOf_app. intros E.
      apply app_eq_nil in E. destruct E as [E _]. rewrite E in H1. cbn in H1. lia.
  - destruct Hsome as [H | (fb & Hfb & Hfbav)]; [discriminate H |].
    rewrite fallbackPart_calls, Hfb, Hfbav.
    pose proof (executeWithProvider_calls_once env ai _ (cModel fb) req w Hfbav) as H1.
    intros E. rewrite E in H1. cbn in H1. lia.
Qed.

(** X11: any two configured providers are enough for every task: with two
    or three keys, [execute] reaches a provider whatever the task.  A single
    key is never enough: with one key or none, there is a task for which
    [execute] throws "No available providers" straight away, without a call,
    a delay or a log record. *)
Theorem X11_two_providers_cover_every_task (env : Env) :
  (2 <= List.length (getAvailableProviders env) ->
   forall ai req w, providerCallsOf (traceOf (execute env ai req w)) <> []) /\
  (List.length (getAvailableProviders env) <= 1 ->
   exists t, forall ai json limit w,
       execute env ai (mkRequest t json limit) w =
       (Throw (noProviders (mkRequest t json limit)), w, [])).
Proof.
  unfold getAvailableProviders, allProviders. cbn [filter].
  destruct (isProviderAvailable env GROK) eqn:Hg,
           (isProviderAvailable env OPENAI) eqn:Ho,
           (isProviderAvailable env GEMINI) eqn:Hm;
    cbn [List.length]; (split; [intros Hlen | intros Hlen]); try lia;
    try (intros ai [t json limit] w; apply execute_reaches_candidate;
         destruct t; cbn [task ModelRouting provider fallback];
         solve [left; assumption | right; eexists; split; [reflexivity | assumption]]).
  - exists PLANNING. intros. apply execute_no_candidate; [exact Hm |].
    intros fb [= <-]. exact Ho.
  - exists MULTIMODAL. intros. apply execute_no_candidate; [exact Hm |].
    intros fb [= <-]. exact Hg.
  - exists CODING. intros. apply execute_no_candidate; [exact Hg |].
    intros fb [= <-]. exact Ho.
  - exists CODING. intros. apply execute_no_candidate; [exact Hg |].
    intros fb [= <-]. exact Ho.
Qed.

(** ** Cost of a provider call *)

Section CostFacts.
Variable env : Env.
Hypothesis Hfl : monotoneRounding (fl env).

Lemma thousandth_mono (a b : nat) :
  a <= b -> (fdiv env (ofNat a) 1000 <= fdiv env (ofNat b) 1000)%Q.
Proof.
  intros Hab. unfold fdiv. apply (proj1 Hfl). unfold Qdiv.
  apply Qmult_le_compat_r; [| discriminate].
  unfold ofNat. rewrite <- Zle_Qle. lia.
Qed.

Lemma thousandth_nonneg (a : nat) : (0 <= fdiv env (ofNat a) 1000)%Q.
Proof.
  unfold fdiv. apply (fl_nonneg env Hfl). unfold Qdiv.
  apply Qmult_le_0_compat; [| discriminate].
  unfold ofNat. change 0%Q with (inject_Z 0). rewrite <- Zle_Qle. lia.
Qed.

(** One of the two products of [estimateCost], in the token count and in
    the price. *)
Lemma priced_mono (a b : nat) (c d : Q) :
  a <= b -> (0 <= c)%Q -> (c <= d)%Q ->
  (0 <= fmul env (fdiv env (ofNat a) 1000) (fl env c)
   <= fmul env (fdiv env (ofNat b) 1000) (fl env d))%Q.
Proof.
  intros Hab Hc Hcd. unfold fmul.
  assert (Hc' : (0 <= fl env c)%Q) by now apply (fl_nonneg env Hfl).
  split.
  - apply (fl_nonneg env Hfl). apply Qmult_le_0_compat; [apply thousandth_nonneg | exact Hc'].
  - apply (proj1 Hfl). apply Qmult_le_compat_nonneg.
    + split; [apply thousandth_nonneg | now apply thousandth_mono].
    + split; [exact Hc' | now apply (proj1 Hfl)].
Qed.

Lemma cost_mono (a b a' b' : nat) (c d c' d' : Q) :
  a <= a' -> b <= b' -> (0 <= c)%Q -> (c <= c')%Q -> (0 <= d)%Q -> (d <= d')%Q ->
  (0 <= fadd env (fmul env (fdiv env (ofNat a) 1000) (fl env c))
                 (fmul env (fdiv env (ofNat b) 1000) (fl env d))
   <= fadd env (fmul env (fdiv env (ofNat a') 1000) (fl env c'))
               (fmul env (fdiv env (ofNat b') 1000) (fl env d')))%Q.
Proof.
  intros Ha Hb Hc Hcc Hd Hdd.
  destruct (priced_mono a a' c c' Ha Hc Hcc) as [H1 H2].
  destruct (priced_mono b b' d d' Hb Hd Hdd) as [H3 H4].
  unfold fadd. split.
  - apply (fl_nonneg env Hfl).
    replace 0%Q with (0 + 0)%Q by reflexivity. now apply Qplus_le_compat.
  - apply (proj1 Hfl). now apply Qplus_le_compat.
Qed.
Lemma cost_nonneg (a b : nat) (c d : Q) :
  (0 <= c)%Q -> (0 <= d)%Q ->
  (0 <= fadd env (fmul env (fdiv env (ofNat a) 1000) (fl env c))
                 (fmul env (fdiv env (ofNat b) 1000) (fl env d)))%Q.
Proof.
  intros Hc Hd.
  apply (cost_mono a b a b c d c d); try lia; try assumption; apply Qle_refl.
Qed.

Lemma cost_le (a b a' b' : nat) (c d c' d' : Q) :
  a <= a' -> b <= b' -> (0 <= c)%Q -> (c <= c')%Q -> (0 <= d)%Q -> (d <= d')%Q ->
  (fadd env (fmul env (fdiv env (ofNat a) 1000) (fl env c))
            (fmul env (fdiv env (ofNat b) 1000) (fl env d))
   <= fadd env (fmul env (fdiv env (ofNat a') 1000) (fl env c'))
               (fmul env (fdiv env (ofNat b') 1000) (fl env d')))%Q.
Proof. intros. now apply cost_mono. Qed.
End CostFacts.

(** X12: with double rounding only assumed monotone, the cost that
    [estimateCost] gives is never negative, does not decrease when the input
    or the output token count grows, and for the same usage is lowest for
    Gemini and highest for OpenAI, Grok lying between the two. *)
Theorem X12_estimateCost_monotone
        (env : Env) (p : AIProvider) (inTok inTok' outTok outTok' : nat) :
  monotoneRounding (fl env) ->
  inTok <= inTok' -> outTok <= outTok' ->
  (0 <= estimateCost env p inTok outTok)%Q /\
  (estimateCost env p inTok outTok <= estimateCost env p inTok' outTok')%Q /\
  (estimateCost env GEMINI inTok outTok <= estimateCost env GROK inTok outTok)%Q /\
  (estimateCost env GROK inTok outTok <= estimateCost env OPENAI inTok outTok)%Q.
Proof.
  intros Hfl Hi Ho. unfold estimateCost. conjs.
  - destruct p; cbn [TokenCosts fst snd]; apply (cost_nonneg env Hfl); discriminate.
  - destruct p; cbn [TokenCosts fst snd];
      apply (cost_le env Hfl); try lia; try discriminate; apply Qle_refl.
  - cbn [TokenCosts fst snd]. apply (cost_le env Hfl); try lia; discriminate.
  - cbn [TokenCosts fst snd]. apply (cost_le env Hfl); try lia; discriminate.
Qed.

Lemma X12_witness :
  (estimateCost sampleEnv GEMINI 1000 2000 <= estimateCost sampleEnv GROK 1000 2000)%Q /\
  (estimateCost sampleEnv GROK 1000 2000 <= estimateCost sampleEnv OPENAI 1000 2000)%Q.
Proof.
  destruct (X12_estimateCost_monotone sampleEnv GROK 1000 1000 2000 2000)
    as (_ & _ & H1 & H2).
  - split; [intros x y H; exact H | discriminate].
  - lia.
  - lia.
  - split; assumption.
Defined.

(** X13: every task is routed to a primary and a fallback candidate on two
    different providers; the model of each candidate is registered in
    [ModelRegistry] under its own name, with the provider of the candidate
    and with streaming support; and the two candidates of the multimodal
    task support images. *)
Theorem X13_routing_is_registered (t : TaskType) :
  let routing := ModelRouting t in
  (exists info,
      assoc (model routing) ModelRegistry = Some info /\
      miProvider info = provider routing /\ miModel info = model routing /\
      supportsStreaming info = true /\
      (t = MULTIMODAL -> supportsImages info = true)) /\
  (exists fb info,
      fallback routing = Some fb /\
      cProvider fb <> provider routing /\
      assoc (cModel fb) ModelRegistry = Some info /\
      miProvider info = cProvider fb /\ miModel info = cModel fb /\
      supportsStreaming info = true /\
      (t = MULTIMODAL -> supportsImages info = true)).
Proof.
  destruct t; cbv zeta; split.
  all: try (eexists; conjs; [reflexivity | reflexivity | reflexivity | reflexivity
                             | try reflexivity; discriminate]).
  all: eexists; eexists; conjs;
    [reflexivity | discriminate | reflexivity | reflexivity | reflexivity | reflexivity
     | try reflexivity; discriminate].
Qed.

(** ** What [execute] returns and throws *)

Lemma last_repeat {A} (c d : A) (n : nat) : 0 < n -> last (repeat c n) d = c.
Proof.
  intros Hn. destruct n as [| n]; [lia |]. clear Hn. revert d.
  induction n as [| n IH]; intros d; [reflexivity |].
  change (repeat c (S (S n))) with (c :: repeat c (S n)).
  rewrite last_cons. apply IH.
Qed.

Lemma last_app_nonempty {A} (l1 l2 : list A) (d : A) :
  l2 <> [] -> last (l1 ++ l2) d = last l2 d.
Proof.
  intros Hne. revert d. induction l1 as [| x l1 IH]; intros d; [reflexivity |].
  cbn [app]. rewrite last_cons, IH.
  destruct l2 as [| y l2]; [contradiction Hne; reflexivity |].
  now rewrite !last_cons.
Qed.

Lemma executeWithProvider_ok env ai p m req w x w1 t1 :
  executeWithProvider env ai p m req w = (Ok x, w1, t1) ->
  exists y n,
    0 < n /\ providerCallsOf t1 = repeat (mkCandidate p m) n /\
    providerReply env (nProvider w1 - 1) p m req = Ok y /\
    x = responseOf env p m y.
Proof.
  intros E.
  pose proof (retryLoop_spec env ai p m req (retryCount ai + 1) 0 None w) as H.
  cbv zeta in H. fold (executeWithProvider env ai p m req w) in H. rewrite E in H.
  unfold resultOf, worldOf, traceOf in H. cbn [fst snd] in H.
  destruct H as (_ & Hcalls & Hn & _ & _ & _ & Hok).
  destruct (Hok x eq_refl) as (y & Hpos & Hy & Hx).
  exists y, (List.length (providerCallsOf t1)). conjs; try assumption.
  replace (nProvider w1 - 1) with (nProvider w + (List.length (providerCallsOf t1) - 1))
    by lia.
  exact Hy.
Qed.

Lemma executeWithProvider_throws env ai p m req w e w1 t1 :
  isProviderAvailable env p = true ->
  executeWithProvider env ai p m req w = (Throw e, w1, t1) ->
  providerReply env (nProvider w1 - 1) p m req = Throw e.
Proof.
  intros Hav E.
  pose proof (retryLoop_throws_last env ai p m req Hav (retryCount ai) 0 None w e) as H.
  cbv zeta in H. replace (S (retryCount ai)) with (retryCount ai + 1) in H by lia.
  fold (executeWithProvider env ai p m req w) in H. rewrite E in H.
  now apply H.
Qed.

(** X14: a response that [execute] returns is the reply of the last
    provider call made: it names the provider and the model of that call
    (the primary candidate or the fallback), carries the text of that reply,
    and its cost is computed with the prices of the provider that answered,
    from the token counts that it reports; the latency covers the whole of
    [execute], the attempts that failed before included. *)
Theorem X14_response_is_last_call
        (env : Env) (ai : BuildableAI) (req : BuildableAIRequest) (w : World)
        (resp : BuildableAIResponse) :
  let out := execute env ai req w in
  resultOf out = Ok resp ->
  last (providerCallsOf (traceOf out)) (primaryOf req) = answeredBy resp /\
  providerCallsOf (traceOf out) <> [] /\
  (answeredBy resp = primaryOf req \/
   fallback (ModelRouting (task req)) = Some (answeredBy resp)) /\
  (exists reply,
      providerReply env (nProvider (worldOf out) - 1)
                    (respProvider resp) (respModel resp) req = Ok reply /\
      content resp = replyContent reply) /\
  cost resp = estimateCost env (respProvider resp)
                           (inputTokens (usage resp)) (outputTokens (usage resp)) /\
  latencyMs resp = (timeAt env (worldOf out) - timeAt env w)%Z.
Proof.
  cbv zeta. rewrite execute_eq. cbv zeta.
  assert (Hshape : forall p m x w0 w1 t0 t1 start,
             executeWithProvider env ai p m req w0 = (Ok x, w1, t1) ->
             let r := withLatency x (timeAt env w1 - start) in
             last (providerCallsOf (t0 ++ t1)) (primaryOf req) = answeredBy r /\
             providerCallsOf (t0 ++ t1) <> [] /\
             answeredBy r = mkCandidate p m /\
             (exists reply,
                 providerReply env (nProvider w1 - 1) (respProvider r) (respModel r) req
                 = Ok reply /\ content r = replyContent reply) /\
             cost r = estimateCost env (respProvider r) (inputTokens (usage r))
                                   (outputTokens (usage r)) /\
             latencyMs r = (timeAt env w1 - start)%Z).
  { intros p m x w0 w1 t0 t1 start E r. subst r.
    destruct (executeWithProvider_ok env ai p m req w0 x w1 t1 E)
      as (y & n & Hn & Hcalls & Hy & ->).
    rewrite providerCallsOf_app, Hcalls.
    assert (Hne : repeat (mkCandidate p m) n <> []) by (destruct n; [lia | discriminate]).
    conjs.
    - rewrite last_app_nonempty by exact Hne. now apply last_repeat.
    - intros E0. apply app_eq_nil in E0. now destruct E0.
    - reflexivity.
    - exists y. split; [exact Hy | reflexivity].
    - reflexivity.
    - reflexivity. }
  destruct (isProviderAvailable env (provider (ModelRouting (task req)))) eqn:Hav.
  - destruct (executeWithProvider env ai (provider (ModelRouting (task req)))
                (model (ModelRouting (task req))) req w) as [[[x | e] w1] t1] eqn:E1.
    + unfold resultOf, worldOf, traceOf. cbn [fst snd]. intros [= <-].
      destruct (Hshape _ _ x w w1 [] t1 (timeAt env w) E1)
        as (H1 & H2 & H3 & H4 & H5 & H6).
      cbn [app] in H1, H2. conjs; try assumption. now left.
    + rewrite fallbackPart_eq.
      destruct (fallback (ModelRouting (task req))) as [fb |] eqn:Hfb;
        [| intros H; discriminate H].
      destruct (isProviderAvailable env (cProvider fb)); [| intros H; discriminate H].
      destruct (executeWithProvider env ai (cProvider fb) (cModel fb) req w1)
        as [[[x | e2] w2] t2] eqn:E2; [| intros H; discriminate H].
      unfold resultOf, worldOf, traceOf. cbn [fst snd]. intros [= <-].
      destruct (Hshape _ _ x w1 w2 (t1 ++ [primaryFailedLog]) t2 (timeAt env w) E2)
        as (H1 & H2 & H3 & H4 & H5 & H6).
      rewrite <- app_assoc in H1, H2. cbn [app] in H1, H2.
      conjs; try assumption. right. rewrite H3. now destruct fb.
  - rewrite fallbackPart_eq.
    destruct (fallback (ModelRouting (task req))) as [fb |] eqn:Hfb;
      [| intros H; discriminate H].
    destruct (isProviderAvailable env (cProvider fb)); [| intros H; discriminate H].
    destruct (executeWithProvider env ai (cProvider fb) (cModel fb) req w)
      as [[[x | e2] w2] t2] eqn:E2; [| intros H; discriminate H].
    unfold resultOf, worldOf, traceOf. cbn [fst snd]. intros [= <-].
    destruct (Hshape _ _ x w w2 [] t2 (timeAt env w) E2)
      as (H1 & H2 & H3 & H4 & H5 & H6).
    cbn [app] in H1, H2. conjs; try assumption. right. rewrite H3. now destruct fb.
Qed.

Lemma X14_witness :
  exists resp,
    resultOf (execute noGrokEnv getBuildableAI codingRequest initialWorld) = Ok resp /\
    answeredBy resp = mkCandidate OPENAI OpenAIModels.GPT_5 /\
    last (providerCallsOf
            (traceOf (execute noGrokEnv getBuildableAI codingRequest initialWorld)))
         (primaryOf codingRequest) = answeredBy resp.
Proof.
  eexists. split; [reflexivity |]. split; [reflexivity |].
  eapply (X14_response_is_last_call noGrokEnv getBuildableAI codingRequest initialWorld).
  reflexivity.
Defined.

(** X15: the only errors that [execute] throws are "No available
    providers for task" and the error of the last call made to the fallback
    provider (whose failure is then logged).  An error of the primary
    provider never reaches the caller: when the primary gave up and the
    fallback provider has no key, the caller gets "No available providers"
    and the error of the primary is only logged. *)
Theorem X15_execute_error_origin
        (env : Env) (ai : BuildableAI) (req : BuildableAIRequest) (w : World) :
  let routing := ModelRouting (task req) in
  let out := execute env ai req w in
  (forall e,
     resultOf out = Throw e ->
     e = noProviders req \/
     exists fb,
       fallback routing = Some fb /\
       isProviderAvailable env (cProvider fb) = true /\
       providerReply env (nProvider (worldOf out) - 1) (cProvider fb) (cModel fb) req
         = Throw e /\
       In fallbackFailedLog (traceOf out)) /\
  (forall e1 w1 t1,
     isProviderAvailable env (provider routing) = true ->
     executeWithProvider env ai (provider routing) (model routing) req w
       = (Throw e1, w1, t1) ->
     fallbackUnavailable env req ->
     out = (Throw (noProviders req), w1, t1 ++ [primaryFailedLog])).
Proof.
  cbv zeta. rewrite execute_eq. cbv zeta.
  assert (Hfb : forall start w0 e,
             resultOf (fallbackPart env ai req start w0) = Throw e ->
             e = noProviders req \/
             exists fb,
               fallback (ModelRouting (task req)) = Some fb /\
               isProviderAvailable env (cProvider fb) = true /\
               providerReply env (nProvider (worldOf (fallbackPart env ai req start w0)) - 1)
                             (cProvider fb) (cModel fb) req = Throw e /\
               In fallbackFailedLog (traceOf (fallbackPart env ai req start w0))).
  { intros start w0 e. rewrite fallbackPart_eq.
    destruct (fallback (ModelRouting (task req))) as [fb |] eqn:Hfb.
    2:{ cbn. intros [= <-]. now left. }
    destruct (isProviderAvailable env (cProvider fb)) eqn:Hav.
    2:{ cbn. intros [= <-]. now left. }
    destruct (executeWithProvider env ai (cProvider fb) (cModel fb) req w0)
      as [[[x | e2] w2] t2] eqn:E2; [intros H; discriminate H |].
    unfold resultOf, worldOf, traceOf. cbn [fst snd]. intros [= <-].
    right. exists fb. conjs; try reflexivity; try assumption.
    - now apply (executeWithProvider_throws env ai _ _ req w0 e2 w2 t2 Hav).
    - apply in_or_app. right. now left. }
  split.
  - intros e.
    destruct (isProviderAvailable env (provider (ModelRouting (task req)))) eqn:Hav;
      [| apply Hfb].
    destruct (executeWithProvider env ai (provider (ModelRouting (task req)))
                (model (ModelRouting (task req))) req w) as [[[x | e1] w1] t1];
      [intros H; discriminate H |].
    specialize (Hfb (timeAt env w) w1 e).
    destruct (fallbackPart env ai req (timeAt env w) w1) as [[r2 w2] t2].
    unfold resultOf, worldOf, traceOf in *. cbn [fst snd] in *.
    intros H. destruct (Hfb H) as [H1 | (fb & H1 & H2 & H3 & H4)]; [now left |].
    right. exists fb. conjs; try assumption.
    apply in_or_app. right. now right.
  - intros e1 w1 t1 Hav E1 Hun. rewrite Hav, E1, fallbackPart_eq.
    unfold fallbackUnavailable in Hun.
    destruct (fallback (ModelRouting (task req))) as [fb |]; [| reflexivity].
    now rewrite (Hun fb eq_refl).
Qed.

(** ** Back-off delays *)

Lemma totalDelay_app (t1 t2 : list Event) :
  totalDelay (t1 ++ t2) = totalDelay t1 + totalDelay t2.
Proof.
  unfold totalDelay, delaysOf. now rewrite flat_map_app, list_sum_app.
Qed.

Lemma totalDelay_rateLimited p m t a ms (t' : list Event) :
  totalDelay (EvProviderCall p m t :: rateLimitedLog a :: EvDelay ms :: t') =
  ms + totalDelay t'.
Proof. reflexivity. Qed.

Section DelayFacts.
Variable env : Env.
Variable ai : BuildableAI.

Lemma retryLoop_delay_bound p m req :
  forall remaining a lastError w,
    2 * totalDelay (traceOf (retryLoop env ai p m req remaining a lastError w))
    + retryDelayMs ai * (a * (a + 1))
    <= retryDelayMs ai * ((a + remaining) * (a + remaining + 1)).
Proof.
  induction remaining as [| r IH]; intros a lastError w.
  - cbn. rewrite Nat.add_0_r. lia.
  - rewrite retryLoop_S.
    destruct (isProviderAvailable env p); [| cbn; nia].
    destruct (providerReply env (nProvider w) p m req) as [x | e]; [cbn; nia |].
    destruct (isRateLimitError e); [| cbn; nia].
    specialize (IH (a + 1) (Some e) (bumpProvider w)).
    destruct (retryLoop env ai p m req r (a + 1) (Some e) (bumpProvider w))
      as [[r' w'] t'].
    unfold traceOf in *. cbn [snd] in *. rewrite totalDelay_rateLimited. nia.
Qed.

Lemma retryLoop_delay_exhausted p m req :
  isProviderAvailable env p = true ->
  forall remaining a lastError w,
    (forall k, k < remaining ->
       exists e, providerReply env (nProvider w + k) p m req = Throw e /\
                 isRateLimitError e = true) ->
    2 * totalDelay (traceOf (retryLoop env ai p m req remaining a lastError w))
    + retryDelayMs ai * (a * (a + 1))
    = retryDelayMs ai * ((a + remaining) * (a + remaining + 1)).
Proof.
  intros Hav. induction remaining as [| r IH]; intros a lastError w Hall.
  - cbn. rewrite Nat.add_0_r. lia.
  - rewrite retryLoop_S, Hav.
    destruct (Hall 0 ltac:(lia)) as (e & He & Hrl). rewrite Nat.add_0_r in He.
    rewrite He, Hrl.
    specialize (IH (a + 1) (Some e) (bumpProvider w)).
    assert (Hall' : forall k, k < r ->
               exists e0, providerReply env (nProvider (bumpProvider w) + k) p m req
                          = Throw e0 /\ isRateLimitError e0 = true).
    { intros k Hk. destruct (Hall (S k) ltac:(lia)) as (e0 & He0 & Hrl0).
      exists e0. split; [| exact Hrl0].
      cbn [bumpProvider nProvider]. now replace (S (nProvider w) + k)
        with (nProvider w + S k) by lia. }
    specialize (IH Hall').
    destruct (retryLoop env ai p m req r (a + 1) (Some e) (bumpProvider w))
      as [[r' w'] t'].
    unfold traceOf in *. cbn [snd] in *. rewrite totalDelay_rateLimited. nia.
Qed.

Lemma fallbackPart_delay req start w :
  2 * totalDelay (traceOf (fallbackPart env ai req start w))
  <= retryDelayMs ai * ((retryCount ai + 1) * (retryCount ai + 2)).
Proof.
  rewrite fallbackPart_eq.
  destruct (fallback (ModelRouting (task req))) as [fb |]; [| cbn; lia].
  destruct (isProviderAvailable env (cProvider fb)); [| cbn; lia].
  pose proof (retryLoop_delay_bound (cProvider fb) (cModel fb) req
                (retryCount ai + 1) 0 None w) as H.
  fold (executeWithProvider env ai (cProvider fb) (cModel fb) req w) in H.
  replace (retryCount ai + 2) with (0 + (retryCount ai + 1) + 1) by lia.
  destruct (executeWithProvider env ai (cProvider fb) (cModel fb) req w)
    as [[[x | e] w2] t2]; unfold traceOf in *; cbn [snd] in *.
  - lia.
  - rewrite totalDelay_app. change (totalDelay [fallbackFailedLog]) with 0. lia.
Qed.
End DelayFacts.

(** X16: the back-off of one candidate is bounded: the delays of
    [executeWithProvider] add up to at most
    [retryDelayMs * (1 + 2 + ... + (retryCount + 1))], and those of [execute],
    which tries two candidates at most, to at most twice as much (12 seconds
    with the default settings).  The bound is reached: when every attempt on
    a candidate is rate limited, the loop waits after the last attempt too,
    before it gives up. *)
Theorem X16_backoff_is_bounded
        (env : Env) (ai : BuildableAI) (req : BuildableAIRequest) :
  let worst := retryDelayMs ai * ((retryCount ai + 1) * (retryCount ai + 2)) in
  (forall p m w,
     2 * totalDelay (traceOf (executeWithProvider env ai p m req w)) <= worst) /\
  (forall w, totalDelay (traceOf (execute env ai req w)) <= worst) /\
  (forall w, totalDelay (traceOf (execute env getBuildableAI req w)) <= 12 * 1000) /\
  (forall p m w,
     isProviderAvailable env p = true ->
     (forall k, k <= retryCount ai ->
        exists e, providerReply env (nProvider w + k) p m req = Throw e /\
                  isRateLimitError e = true) ->
     2 * totalDelay (traceOf (executeWithProvider env ai p m req w)) = worst).
Proof.
  cbv zeta.
  assert (Hone : forall ai0 p m w,
             2 * totalDelay (traceOf (executeWithProvider env ai0 p m req w))
             <= retryDelayMs ai0 * ((retryCount ai0 + 1) * (retryCount ai0 + 2))).
  { intros ai0 p m w.
    pose proof (retryLoop_delay_bound env ai0 p m req (retryCount ai0 + 1) 0 None w) as H.
    fold (executeWithProvider env ai0 p m req w) in H.
    replace (retryCount ai0 + 2) with (0 + (retryCount ai0 + 1) + 1) by lia. lia. }
  assert (Hexec : forall ai0 w,
             totalDelay (traceOf (execute env ai0 req w))
             <= retryDelayMs ai0 * ((retryCount ai0 + 1) * (retryCount ai0 + 2))).
  { intros ai0 w. rewrite execute_eq. cbv zeta.
    destruct (isProviderAvailable env (provider (ModelRouting (task req)))).
    - pose proof (Hone ai0 (provider (ModelRouting (task req)))
                    (model (ModelRouting (task req))) w) as H1.
      destruct (executeWithProvider env ai0 (provider (ModelRouting (task req)))
                  (model (ModelRouting (task req))) req w) as [[[x | e] w1] t1];
        unfold traceOf in *; cbn [snd] in *; [nia |].
      pose proof (fallbackPart_delay env ai0 req (timeAt env w) w1) as H2.
      destruct (fallbackPart env ai0 req (timeAt env w) w1) as [[r2 w2] t2].
      unfold traceOf in *. cbn [snd] in *.
      change (primaryFailedLog :: t2) with ([primaryFailedLog] ++ t2).
      rewrite !totalDelay_app. change (totalDelay [primaryFailedLog]) with 0. nia.
    - pose proof (fallbackPart_delay env ai0 req (timeAt env w) w) as H2. nia. }
  conjs.
  - apply Hone.
  - apply Hexec.
  - intros w. pose proof (Hexec getBuildableAI w) as H.
    change (retryDelayMs getBuildableAI) with 1000 in H.
    change (retryCount getBuildableAI) with 2 in H. lia.
  - intros p m w Hav Hall.
    pose proof (retryLoop_delay_exhausted env ai p m req Hav (retryCount ai + 1) 0 None w)
      as H.
    fold (executeWithProvider env ai p m req w) in H.
    assert (Hall' : forall k, k < retryCount ai + 1 ->
               exists e, providerReply env (nProvider w + k) p m req = Throw e /\
                         isRateLimitError e = true)
      by (intros k Hk; apply Hall; lia).
    specialize (H Hall').
    replace (retryCount ai + 2) with (0 + (retryCount ai + 1) + 1) by lia. lia.
Qed.

(** ** Classification of errors *)

Lemma includes_self (k : string) : includes k k = true.
Proof.
  destruct k as [| c k]; [reflexivity |].
  cbn [includes]. apply orb_true_iff. left.
  assert (H : forall s, String.prefix s s = true).
  { induction s as [| a s IH]; [reflexivity |]. cbn. now destruct (ascii_dec a a). }
  apply H.
Qed.

Lemma includes_inside (k a b : string) : includes k (a ++ k ++ b) = true.
Proof. apply includes_prepend, includes_append, includes_self. Qed.

(** X17: an [Error] is of the rate-limit class as soon as its message
    contains [rate limit], [429] or [too many requests] anywhere and in any
    mix of upper and lower case, whatever stands before and after (the digits
    [429] inside a longer number count as well); a thrown value that is not an
    [Error] never is. *)
Theorem X17_rate_limit_marker_anywhere (before marker after : string) :
  In (toLowerCase marker) rateLimitMarkers ->
  isRateLimitError (ErrorObj (before ++ marker ++ after)) = true /\
  (forall truthy, isRateLimitError (NonError truthy) = false).
Proof.
  intros Hin. split; [| reflexivity].
  unfold isRateLimitError. rewrite !toLowerCase_append.
  destruct Hin as [H | [H | [H | []]]]; rewrite <- H, includes_inside;
    now rewrite ?orb_true_r.
Qed.

Lemma X17_witness :
  isRateLimitError (ErrorObj ("Request failed: Too Many Requests" ++ " (retry later)"))
  = true /\
  isRateLimitError (ErrorObj ("used 14290 of 20000 tokens")) = true.
Proof.
  split.
  - apply (X17_rate_limit_marker_anywhere "Request failed: " "Too Many Requests"
                                          " (retry later)").
    cbn. tauto.
  - apply (X17_rate_limit_marker_anywhere "used 1" "429" "0 of 20000 tokens").
    cbn. tauto.
Defined.

(** ** Streaming *)

Section StreamFacts.
Variable env : Env.
Variable sdk : StreamSdk.

Lemma streamOpenAICompatible_eq p m req w :
  streamOpenAICompatible sdk p m req w =
  match openStream sdk (nProvider w) p m req with
  | Throw e => ([], Throw e, bumpProvider w, [EvProviderCall p m (task req)])
  | Ok s =>
      (map chunkOfCompletion (delivered s),
       match failure s with Some e => Throw e | None => Ok tt end,
       bumpProvider w, [EvProviderCall p m (task req)])
  end.
Proof.
  unfold streamOpenAICompatible, genAfter, sdkStreamCall, bumpProvider.
  now destruct (openStream sdk (nProvider w) p m req).
Qed.

Lemma streamGemini_eq m req w :
  isProviderAvailable env GEMINI = true ->
  streamGemini env sdk m req w =
  match geminiStreamOf sdk (nProvider w) m req with
  | Throw e => ([], Throw e, bumpProvider w, [EvProviderCall GEMINI m (task req)])
  | Ok s =>
      (fst (geminiChunks (delivered s) (failure s)),
       snd (geminiChunks (delivered s) (failure s)),
       bumpProvider w, [EvProviderCall GEMINI m (task req)])
  end.
Proof.
  intros Hav. unfold streamGemini, genAfter, sdkStreamCall, bumpProvider, bind,
    getGeminiClient.
  unfold isProviderAvailable in Hav. rewrite Hav. cbn.
  destruct (geminiStreamOf sdk (nProvider w) m req) as [s | e]; [| reflexivity].
  now destruct (geminiChunks (delivered s) (failure s)).
Qed.

Lemma streamWithProvider_calls p m req w :
  isProviderAvailable env p = true ->
  providerCallsOf (genTrace (streamWithProvider env sdk p m req w)) = [mkCandidate p m] /\
  totalDelay (genTrace (streamWithProvider env sdk p m req w)) = 0.
Proof.
  intros Hav. destruct p; cbn [streamWithProvider].
  - unfold genAfter, getGrokClient. unfold isProviderAvailable in Hav. rewrite Hav.
    cbn [ret]. rewrite streamOpenAICompatible_eq.
    destruct (openStream sdk (nProvider w) GROK m req); split; reflexivity.
  - unfold genAfter, getOpenAIClient. unfold isProviderAvailable in Hav. rewrite Hav.
    cbn [ret]. rewrite streamOpenAICompatible_eq.
    destruct (openStream sdk (nProvider w) OPENAI m req); split; reflexivity.
  - rewrite (streamGemini_eq m req w Hav).
    destruct (geminiStreamOf sdk (nProvider w) m req); split; reflexivity.
Qed.

Lemma stream_calls req w :
  providerCallsOf (genTrace (stream env sdk req w)) =
    match firstCandidate env req with Some c => [c] | None => [] end /\
  totalDelay (genTrace (stream env sdk req w)) = 0 /\
  (firstCandidate env req = None ->
   stream env sdk req w = ([], Throw (noProviders req), w, [])).
Proof.
  unfold stream, firstCandidate, primaryOf.
  destruct (isProviderAvailable env (provider (ModelRouting (task req)))) eqn:Hp.
  - rewrite Hp. cbn [negb].
    replace (AIProvider_eqb (provider (ModelRouting (task req)))
                            (provider (ModelRouting (task req)))) with true
      by (now destruct (provider (ModelRouting (task req)))).
    destruct (streamWithProvider_calls (provider (ModelRouting (task req)))
                (model (ModelRouting (task req))) req w Hp) as [H1 H2].
    conjs; [exact H1 | exact H2 | discriminate].
  - destruct (fallback (ModelRouting (task req))) as [fb |] eqn:Hfb; cbn [option_map].
    2:{ conjs; reflexivity. }
    destruct (isProviderAvailable env (cProvider fb)) eqn:Hf; cbn [negb].
    2:{ conjs; reflexivity. }
    replace (AIProvider_eqb (cProvider fb) (provider (ModelRouting (task req))))
      with false.
    2:{ destruct (cProvider fb), (provider (ModelRouting (task req)));
          try reflexivity; congruence. }
    destruct (streamWithProvider_calls (cProvider fb) (cModel fb) req w Hf) as [H1 H2].
    conjs; [| exact H2 | discriminate]. rewrite H1. now destruct fb.
Qed.
End StreamFacts.

Lemma execute_first_call env ai req w :
  firstn 1 (providerCallsOf (traceOf (execute env ai req w))) =
  match firstCandidate env req with Some c => [c] | None => [] end.
Proof.
  assert (Hone : forall p m w0 rest,
             isProviderAvailable env p = true ->
             firstn 1 (providerCallsOf (traceOf (executeWithProvider env ai p m req w0))
                       ++ rest) = [mkCandidate p m]).
  { intros p m w0 rest Hav.
    pose proof (executeWithProvider_calls_once env ai p m req w0 Hav) as Hn.
    pose proof (retryLoop_spec env ai p m req (retryCount ai + 1) 0 None w0) as H.
    cbv zeta in H. fold (executeWithProvider env ai p m req w0) in H.
    destruct H as (_ & Hcalls & _). rewrite Hcalls.
    destruct (List.length (providerCallsOf
                (traceOf (executeWithProvider env ai p m req w0)))); [lia |].
    reflexivity. }
  rewrite execute_eq. cbv zeta. unfold firstCandidate, primaryOf.
  destruct (isProviderAvailable env (provider (ModelRouting (task req)))) eqn:Hp.
  - specialize (Hone (provider (ModelRouting (task req)))
                     (model (ModelRouting (task req))) w).
    destruct (executeWithProvider env ai (provider (ModelRouting (task req)))
                (model (ModelRouting (task req))) req w) as [[[x | e] w1] t1];
      unfold traceOf in *; cbn [snd] in *.
    + specialize (Hone [] Hp). now rewrite app_nil_r in Hone.
    + destruct (fallbackPart env ai req (timeAt env w) w1) as [[r2 w2] t2].
      cbn [snd]. rewrite providerCallsOf_app. now apply Hone.
  - rewrite fallbackPart_calls.
    destruct (fallback (ModelRouting (task req))) as [fb |]; [| reflexivity].
    destruct (isProviderAvailable env (cProvider fb)) eqn:Hf; [| reflexivity].
    specialize (Hone (cProvider fb) (cModel fb) w [] Hf).
    rewrite app_nil_r in Hone. rewrite Hone. now destruct fb.
Qed.

(** X18: [stream] makes one provider call at most, without back-off: it
    goes to the candidate that [execute] would call first (the primary if
    its provider has a key, else the fallback if its provider has one), and
    nothing is tried after it, whether the call fails or not; when neither
    provider has a key, the generator throws "No available providers"
    without yielding or calling anything. *)
Theorem X18_stream_single_attempt
        (env : Env) (sdk : StreamSdk) (ai : BuildableAI) (req : BuildableAIRequest)
        (w : World) :
  let out := stream env sdk req w in
  providerCallsOf (genTrace out) =
    firstn 1 (providerCallsOf (traceOf (execute env ai req w))) /\
  List.length (providerCallsOf (genTrace out)) <= 1 /\
  totalDelay (genTrace out) = 0 /\
  (isProviderAvailable env (provider (ModelRouting (task req))) = true ->
   providerCallsOf (genTrace out) = [primaryOf req]) /\
  (providerCallsOf (genTrace out) = [] ->
   out = ([], Throw (noProviders req), w, [])).
Proof.
  cbv zeta. destruct (stream_calls env sdk req w) as (Hcalls & Hdelay & Hnone).
  rewrite execute_first_call, Hcalls. conjs.
  - reflexivity.
  - destruct (firstCandidate env req); cbn; lia.
  - exact Hdelay.
  - intros Hav. unfold firstCandidate. now rewrite Hav.
  - intros E. apply Hnone. destruct (firstCandidate env req); [discriminate E | reflexivity].
Qed.

Lemma geminiChunks_shape (chunks : list (Result string)) (ending : option JsValue) :
  exists texts rest,
    chunks = map Ok texts ++ rest /\
    fst (geminiChunks chunks ending) =
      map (fun t => mkChunk t false) texts ++
      (if isOk (snd (geminiChunks chunks ending)) then [mkChunk "" true] else []) /\
    (isOk (snd (geminiChunks chunks ending)) = true <-> (rest = [] /\ ending = None)).
Proof.
  induction chunks as [| [text | e] chunks IH].
  - exists [], []. cbn. destruct ending; cbn; conjs; try reflexivity;
      split; try discriminate; try tauto. intros [_ H]. discriminate H.
  - destruct IH as (texts & rest & Hc & Hy & Hok).
    exists (text :: texts), rest. cbn [geminiChunks].
    destruct (geminiChunks chunks ending) as [ys r]. cbn [fst snd] in *.
    conjs.
    + cbn [map app]. now rewrite Hc.
    + cbn [map app]. now rewrite Hy.
    + exact Hok.
  - exists [], (Throw e :: chunks). cbn. conjs; try reflexivity.
    split; [discriminate | intros [H _]; discriminate H].
Qed.

(** X19: the chunks that [streamGemini] yields are the texts of the SDK
    chunks, in order and each with [done: false], followed by one closing
    chunk with empty content and [done: true] exactly when the generator ends
    normally, that is when no [text()] call and not the SDK stream itself
    threw: a [done] chunk is the last chunk, occurs once at most, and is
    never yielded by a stream that fails. *)
Theorem X19_gemini_stream_done_marker
        (env : Env) (sdk : StreamSdk) (m : string) (req : BuildableAIRequest)
        (w : World) (s : SdkStream (Result string)) :
  isProviderAvailable env GEMINI = true ->
  geminiStreamOf sdk (nProvider w) m req = Ok s ->
  let out := streamGemini env sdk m req w in
  exists texts rest,
    delivered s = map Ok texts ++ rest /\
    yielded out =
      map (fun t => mkChunk t false) texts ++
      (if isOk (endOf out) then [mkChunk "" true] else []) /\
    (isOk (endOf out) = true <-> (rest = [] /\ failure s = None)).
Proof.
  intros Hav Hs. cbv zeta. rewrite (streamGemini_eq env sdk m req w Hav), Hs.
  unfold yielded, endOf. cbn [fst snd]. apply geminiChunks_shape.
Qed.

Lemma X19_witness :
  let out := streamGemini sampleEnv sampleStreamSdk GeminiModels.GEMINI_2_5_PRO
                          planningRequest initialWorld in
  exists texts rest,
    [Ok "Hel"; Ok "lo"] = map Ok texts ++ rest /\
    yielded out =
      map (fun t => mkChunk t false) texts ++
      (if isOk (endOf out) then [mkChunk "" true] else []) /\
    (isOk (endOf out) = true <-> (rest = [] /\ @None JsValue = None)).
Proof.
  apply (X19_gemini_stream_done_marker
           sampleEnv sampleStreamSdk GeminiModels.GEMINI_2_5_PRO planningRequest
           initialWorld (mkSdkStream [Ok "Hel"; Ok "lo"] None)); reflexivity.
Defined.

(** ** Event classes of the phases of a run *)

Section PhaseEvents.
Variable env : Env.
Variable K : Event -> bool.
Hypothesis K_agent : forall e, isAgentEvent e = true -> K e = true.
Hypothesis K_log : forall l msg d, K (EvLog l msg d) = true.
Hypothesis K_session : forall sid u, K (EvDb (UpdateSession sid u)) = true.
Hypothesis K_get : forall wid, K (EvDb (GetWorkspaceFiles wid)) = true.
Hypothesis K_upsert : forall a b c d, K (EvDb (UpsertFile a b c d)) = true.

Lemma K_execute ai req : emitsOnly K (execute env ai req).
Proof. eapply emitsOnly_impl; [exact K_agent | apply agent_execute]. Qed.

Lemma K_logger l msg d : emitsOnly K (logger l msg d).
Proof. apply emitsOnly_logger, K_log. Qed.

Lemma K_updateSessionStatus sid s d : emitsOnly K (updateSessionStatus env sid s d).
Proof.
  intros w. unfold updateSessionStatus, bind, Date_now, dbCall, traceOf. cbn [fst snd app].
  repeat constructor. apply K_session.
Qed.

Lemma K_getWorkspaceFiles wid : emitsOnly K (getWorkspaceFiles env wid).
Proof. intros w. repeat constructor. apply K_get. Qed.

Lemma K_upsertCall a b c d : emitsOnly K (dbCall env (UpsertFile a b c d)).
Proof. apply emitsOnly_dbCall, K_upsert. Qed.

Lemma K_sessionCall sid u : emitsOnly K (dbCall env (UpdateSession sid u)).
Proof. apply emitsOnly_dbCall, K_session. Qed.

Lemma K_createPlan prompt0 existing : emitsOnly K (createPlan env prompt0 existing).
Proof. eapply emitsOnly_impl; [exact K_agent | apply agent_createPlan]. Qed.

Lemma K_generateFile f p existing prompt0 :
  emitsOnly K (generateFile env f p existing prompt0).
Proof. eapply emitsOnly_impl; [exact K_agent | apply agent_generateFile]. Qed.

Lemma K_validateFile filePath fileContent :
  emitsOnly K (validateFile env filePath fileContent).
Proof. eapply emitsOnly_impl; [exact K_agent | apply agent_validateFile]. Qed.

Lemma K_fix filePath fileContent issueList :
  emitsOnly K (fix_ env filePath fileContent issueList).
Proof. eapply emitsOnly_impl; [exact K_agent | apply agent_fix]. Qed.

Lemma K_suggest paths projType : emitsOnly K (suggest env paths projType).
Proof. eapply emitsOnly_impl; [exact K_agent | apply agent_suggest]. Qed.

Hint Resolve K_execute K_logger K_updateSessionStatus K_getWorkspaceFiles K_upsertCall
  K_sessionCall K_createPlan K_generateFile K_validateFile K_fix K_suggest
  emitsOnly_Date_now : emits.
Hint Extern 1 (emitsOnly _ (pushFile _)) => apply emitsOnly_modifyWorld : emits.

Lemma K_validationLoop self i :
  forall remaining a, emitsOnly K (validationLoop env self i remaining a).
Proof.
  induction remaining as [| r IH]; intros a; cbn [validationLoop]; [auto with emits |].
  emits_steps; auto with emits.
Qed.

Lemma K_validatePhase self : emitsOnly K (validatePhase env self).
Proof.
  unfold validatePhase. apply emitsOnly_bind; [auto with emits | intros w].
  generalize 0. induction (List.length (generatedFiles w)) as [| n IH]; intros i;
    cbn [forIndices]; [auto with emits |].
  apply emitsOnly_bind; [| intros _; apply IH].
  unfold validateOne. apply emitsOnly_bind; [apply K_validationLoop |].
  intros [[|] a]; cbn [fst]; auto with emits.
Qed.

Lemma K_suggestPhase p : emitsOnly K (suggestPhase env p).
Proof. unfold suggestPhase. emits_steps; auto with emits. Qed.

Lemma K_planPhase self : emitsOnly K (planPhase env self).
Proof. unfold planPhase. emits_steps; auto with emits. Qed.

Lemma K_scaffoldPhase self : emitsOnly K (scaffoldPhase self).
Proof. unfold scaffoldPhase, applyTemplate. emits_steps; auto with emits. Qed.

Lemma K_forEach {A} (body : A -> M unit) (l : list A) :
  (forall x, emitsOnly K (body x)) -> emitsOnly K (forEach body l).
Proof.
  intros Hb. induction l as [| x l IH]; cbn [forEach]; [auto with emits |].
  apply emitsOnly_bind; [apply Hb | intros _; exact IH].
Qed.

Lemma K_refine sid wid uid : emitsOnly K (refine env sid wid uid).
Proof.
  unfold refine, refineBody, refineCatch.
  emits_steps; auto with emits.
  - apply K_forEach. intros x. unfold modifyOne. emits_steps; auto with emits.
  - apply K_forEach. intros x. unfold createOne. emits_steps; auto with emits.
Qed.

Hypothesis K_record : forall a b c o f n, K (EvDb (RecordFileOperation a b c o f n)) = true.

Lemma K_generatePhase self p : emitsOnly K (generatePhase env self p).
Proof.
  unfold generatePhase. apply emitsOnly_bind; [auto with emits | intros _].
  apply emitsOnly_bind; [auto with emits | intros _].
  induction (sortFilesByDependency (files p)) as [| f rest IH]; cbn [generateLoop];
    [auto with emits |].
  apply emitsOnly_bind; [| intros _; exact IH].
  unfold generateOne. emits_steps; auto with emits.
  apply emitsOnly_dbCall, K_record.
Qed.
End PhaseEvents.

(** ** What a run leaves in the database *)

Lemma workspaceWritesOf_app (t1 t2 : list Event) :
  workspaceWritesOf (t1 ++ t2) = workspaceWritesOf t1 ++ workspaceWritesOf t2.
Proof. unfold workspaceWritesOf. apply flat_map_app. Qed.

Lemma noWrite_workspaceWritesOf (t : list Event) :
  Forall (fun e => isNoWorkspaceWrite e = true) t -> workspaceWritesOf t = [].
Proof.
  induction 1 as [| e t He _ IH]; [reflexivity |].
  change (e :: t) with ([e] ++ t). rewrite workspaceWritesOf_app, IH, app_nil_r.
  destruct e as [? ? ? | ? | [] | ? ? ?]; try reflexivity. discriminate.
Qed.

Lemma agent_isNoWorkspaceWrite e : isAgentEvent e = true -> isNoWorkspaceWrite e = true.
Proof. destruct e as [? ? ? | ? | [] | ? ? ?]; cbn; easy. Qed.

Lemma endsIn_bind {A B C} K (tail : B -> M A) (m : M C) (f : C -> M A) w :
  emitsOnly K m -> (forall c w1, endsIn K tail (f c w1)) -> endsIn K tail (bind m f w).
Proof.
  intros Hm Hf. specialize (Hm w). unfold bind. unfold traceOf in Hm.
  destruct (m w) as [[[c | e] w1] t1]; cbn [fst snd] in *.
  - specialize (Hf c w1). destruct (f c w1) as [[r2 w2] t2].
    destruct Hf as (t0 & Ht0 & [(e & Hr & Ht) | (b & w3 & Hr & Hw & Ht)]);
      unfold resultOf, worldOf, traceOf in *; cbn [fst snd] in *;
      exists (t1 ++ t0); (split; [apply Forall_app; now split |]).
    + left. exists e. subst. now split.
    + right. exists b, w3. subst. rewrite app_assoc. now conjs.
  - exists t1. split; [exact Hm |]. left. exists e. now split.
Qed.

Lemma endsIn_tail {A B} K (tail : B -> M A) b w : endsIn K tail (tail b w).
Proof. exists []. split; [constructor |]. right. exists b, w. now conjs. Qed.

Section RunOutcome.
Variable env : Env.
Variable self : GenerationPipeline.

Lemma runBody_endsIn w :
  endsIn isNoWorkspaceWrite (completeTail env self) (runBody env self w).
Proof.
  unfold runBody.
  apply endsIn_bind;
    [apply K_planPhase; try reflexivity; apply agent_isNoWorkspaceWrite | intros p w1].
  apply endsIn_bind; [apply K_scaffoldPhase; reflexivity | intros _ w2].
  apply endsIn_bind;
    [apply K_generatePhase; try reflexivity; apply agent_isNoWorkspaceWrite | intros _ w3].
  apply endsIn_bind; [apply emitsOnly_logger; reflexivity | intros _ w4].
  apply endsIn_bind; [apply K_updateSessionStatus; reflexivity | intros _ w5].
  apply endsIn_bind;
    [apply K_validatePhase; try reflexivity; apply agent_isNoWorkspaceWrite | intros _ w6].
  apply endsIn_bind;
    [apply K_suggestPhase; try reflexivity; apply agent_isNoWorkspaceWrite | intros sugg w7].
  apply (endsIn_tail _ (completeTail env self) (p, sugg)).
Qed.

Lemma completePhase_outcome p sugg w :
  post (completePhase env self p sugg) w
       (fun r w' t =>
          totalTokens_ w' = totalTokens_ w /\ totalCost w' = totalCost w /\
          generatedFiles w' = generatedFiles w /\
          (exists u, sessionUpdatesOf t = [u] /\ status u = completed) /\
          match r with
          | Ok res =>
              workspaceWritesOf t = ["ready"] /\
              success res = true /\
              exists u, sessionUpdatesOf t = [u] /\ recordsOutcome env u res
          | Throw e =>
              (workspaceWritesOf t = [] \/ workspaceWritesOf t = ["ready"]) /\
              exists n, dbThrows env n = Some e
          end).
Proof.
  unfold post, completePhase, updateSessionStatus, bind, getWorld, Date_now, dbCall,
    logger, emit, ret, resultOf, worldOf, traceOf.
  cbn [fst snd app nDb setDb].
  destruct (dbThrows env (nDb w)) as [e |] eqn:E1; cbn [fst snd app nDb setDb].
  { conjs; try reflexivity; eauto; eexists; split; reflexivity. }
  destruct (dbThrows env (S (nDb w))) as [e |] eqn:E2; cbn [fst snd app nDb setDb].
  { conjs; try reflexivity; eauto; eexists; split; reflexivity. }
  conjs; try reflexivity; eauto; try (eexists; split; reflexivity).
  eexists. split; [reflexivity |]. unfold recordsOutcome. cbn. now conjs.
Qed.

Lemma runCatch_outcome error w :
  post (runCatch env self error) w
       (fun r w' t =>
          (exists u, sessionUpdatesOf t = [u] /\ status u = failed) /\
          match r with
          | Ok res =>
              workspaceWritesOf t = ["error"] /\
              success res = false /\
              resultError res = Some (errorMessageOf error) /\
              resultFiles res = generatedFiles w /\
              resultTokens res = totalTokens_ w /\
              exists u, sessionUpdatesOf t = [u] /\ recordsOutcome env u res
          | Throw e =>
              (workspaceWritesOf t = [] \/ workspaceWritesOf t = ["error"]) /\
              exists n, dbThrows env n = Some e
          end).
Proof.
  unfold post, runCatch, updateSessionStatus, bind, getWorld, Date_now, dbCall,
    logger, emit, ret, resultOf, worldOf, traceOf.
  cbn [fst snd app nDb setDb].
  destruct (dbThrows env (nDb w)) as [e |] eqn:E1; cbn [fst snd app nDb setDb].
  { conjs; try reflexivity; eauto; eexists; split; reflexivity. }
  destruct (dbThrows env (S (nDb w))) as [e |] eqn:E2; cbn [fst snd app nDb setDb].
  { conjs; try reflexivity; eauto; eexists; split; reflexivity. }
  conjs; try reflexivity; eauto; try (eexists; split; reflexivity).
  eexists. split; [reflexivity |]. unfold recordsOutcome. cbn. conjs; try reflexivity.
  discriminate.
Qed.

(** The [try]/[catch] of [run]: the outcome, the session updates and the
    workspace writes. *)
Lemma tryRun_outcome w :
  post (tryCatch (runBody env self) (runCatch env self)) w
       (fun r _ t =>
          match r with
          | Ok res =>
              (exists us u, sessionUpdatesOf t = us ++ [u] /\ recordsOutcome env u res) /\
              (workspaceWritesOf t = [if success res then "ready" else "error"] \/
               (success res = false /\ workspaceWritesOf t = ["ready"; "error"]))
          | Throw e =>
              (exists n, dbThrows env n = Some e) /\
              (exists us u, sessionUpdatesOf t = us ++ [u] /\ status u = failed) /\
              ~ In "error" (removelast (workspaceWritesOf t)) /\
              List.length (workspaceWritesOf t) <= 2
          end).
Proof.
  unfold post.
  destruct (runBody_endsIn w) as (t0 & Ht0 & Hcase).
  pose proof (noWrite_workspaceWritesOf _ Ht0) as Hw0.
  unfold tryCatch.
  destruct (runBody env self w) as [[rb wb] tb].
  unfold resultOf, worldOf, traceOf, completeTail in Hcase. cbn [fst snd] in Hcase.
  assert (Hcatch : forall e tpre,
             (workspaceWritesOf tpre = [] \/ workspaceWritesOf tpre = ["ready"]) ->
             let x := runCatch env self e wb in
             match resultOf x with
             | Ok res =>
                 (exists us u, sessionUpdatesOf (tpre ++ traceOf x) = us ++ [u] /\
                               recordsOutcome env u res) /\
                 (workspaceWritesOf (tpre ++ traceOf x) =
                    [if success res then "ready" else "error"] \/
                  (success res = false /\
                   workspaceWritesOf (tpre ++ traceOf x) = ["ready"; "error"]))
             | Throw e' =>
                 (exists n, dbThrows env n = Some e') /\
                 (exists us u, sessionUpdatesOf (tpre ++ traceOf x) = us ++ [u] /\
                               status u = failed) /\
                 ~ In "error" (removelast (workspaceWritesOf (tpre ++ traceOf x))) /\
                 List.length (workspaceWritesOf (tpre ++ traceOf x)) <= 2
             end).
  { intros e tpre Hpre. cbv zeta.
    pose proof (runCatch_outcome e wb) as Hc. unfold post in Hc.
    destruct Hc as ((u & Hu & Hst) & Hc).
    rewrite sessionUpdatesOf_app, workspaceWritesOf_app, Hu.
    destruct (resultOf (runCatch env self e wb)) as [res | e'].
    - destruct Hc as (Hw & Hs & _ & _ & _ & u' & Hu' & Hrec).
      rewrite Hu in Hu'. injection Hu' as <-. rewrite Hw, Hs.
      split; [eauto |].
      destruct Hpre as [-> | ->]; [left | right]; auto.
    - destruct Hc as (Hw & Hn). conjs; [exact Hn | eauto | |].
      + destruct Hpre as [-> | ->], Hw as [-> | ->]; cbn; intuition discriminate.
      + destruct Hpre as [-> | ->], Hw as [-> | ->]; cbn; lia. }
  destruct rb as [res | e].
  - cbn [fst snd resultOf traceOf].
    destruct Hcase as [(e & Hr & _) | (b & w1 & Hr & _ & Ht)]; [discriminate |].
    pose proof (completePhase_outcome (fst b) (snd b) w1) as Hc.
    unfold post, resultOf, worldOf, traceOf in Hc. rewrite <- Hr in Hc.
    destruct Hc as (_ & _ & _ & _ & Hw & Hs & u & Hu & Hrec).
    subst tb. rewrite sessionUpdatesOf_app, workspaceWritesOf_app, Hw0, Hu, Hw, Hs.
    split; [eauto | now left].
  - specialize (Hcatch e tb).
    destruct (runCatch env self e wb) as [[rc wc] tc].
    cbn [fst snd resultOf traceOf] in *. apply Hcatch.
    destruct Hcase as [(e0 & _ & ->) | (b & w1 & Hr & _ & ->)]; [now left |].
    pose proof (completePhase_outcome (fst b) (snd b) w1) as Hc.
    unfold post, resultOf, worldOf, traceOf in Hc. rewrite <- Hr in Hc.
    destruct Hc as (_ & _ & _ & _ & Hw & _).
    rewrite workspaceWritesOf_app, Hw0. exact Hw.
Qed.
End RunOutcome.

(** X20: What [run] leaves behind.  When [run] returns, the last session
    update it issued carries the outcome it returns: status completed or
    failed according to [success], the returned token total, the credits
    [Math.ceil(totalCost * 100)] of the returned cost, the returned error
    message and, on success, the number of returned files; and the workspace
    status is written last as ready on success and as error on failure (a
    failed run may have asked for ready before, when that very call threw).
    [run] rejects only with the error of a database call, after asking for
    the session status failed, and never asks for a workspace status after
    error. *)
Theorem X20_run_outcome_is_recorded (env : Env) (self : GenerationPipeline) (w : World) :
  let out := run env self w in
  let t := traceOf out in
  match resultOf out with
  | Ok res =>
      (exists us u, sessionUpdatesOf t = us ++ [u] /\ recordsOutcome env u res) /\
      (workspaceWritesOf t = [if success res then "ready" else "error"] \/
       (success res = false /\ workspaceWritesOf t = ["ready"; "error"]))
  | Throw e =>
      (exists n, dbThrows env n = Some e) /\
      (exists us u, sessionUpdatesOf t = us ++ [u] /\ status u = failed) /\
      ~ In "error" (removelast (workspaceWritesOf t)) /\
      List.length (workspaceWritesOf t) <= 2
  end.
Proof.
  cbv zeta. rewrite run_unfold.
  pose proof (tryRun_outcome env self (resetLocals w)) as H. unfold post in H.
  unfold resultOf at 1, traceOf at 1 2 3 4 5 6 7. cbn [fst snd].
  destruct (resultOf (tryCatch (runBody env self) (runCatch env self) (resetLocals w)))
    as [res | e];
    change (EvLog Info "Pipeline starting" (sessionData (sessionId self)) ::
            traceOf (tryCatch (runBody env self) (runCatch env self) (resetLocals w)))
      with ([EvLog Info "Pipeline starting" (sessionData (sessionId self))] ++
            traceOf (tryCatch (runBody env self) (runCatch env self) (resetLocals w)));
    rewrite ?sessionUpdatesOf_app, ?workspaceWritesOf_app; exact H.
Qed.

(** ** What a refinement leaves in the database *)

Lemma upsertsOf_app (t1 t2 : list Event) :
  upsertsOf (t1 ++ t2) = upsertsOf t1 ++ upsertsOf t2.
Proof. unfold upsertsOf. apply flat_map_app. Qed.

Lemma agent_upsertsOf (t : list Event) :
  Forall (fun e => isAgentEvent e = true) t -> upsertsOf t = [].
Proof.
  induction 1 as [| e t He _ IH]; [reflexivity |].
  change (e :: t) with ([e] ++ t). rewrite upsertsOf_app, IH, app_nil_r.
  destruct e as [? ? ? | ? | [] | ? ? ?]; try reflexivity; discriminate.
Qed.

Lemma refineEvents_obs (t : list Event) :
  Forall (fun e => isRefineEvent e = true) t ->
  workspaceWritesOf t = [] /\ recordedOperationsOf t = 0.
Proof.
  induction 1 as [| e t He _ [IH1 IH2]]; [now split |].
  change (e :: t) with ([e] ++ t). rewrite workspaceWritesOf_app, IH1, app_nil_r.
  unfold recordedOperationsOf in *. rewrite filter_app, length_app, IH2, Nat.add_0_r.
  destruct e as [? ? ? | ? | [] | ? ? ?]; try (now split); discriminate.
Qed.

Lemma agent_isRefineEvent e : isAgentEvent e = true -> isRefineEvent e = true.
Proof. destruct e as [? ? ? | ? | [] | ? ? ?]; cbn; easy. Qed.

Lemma grows_bind {A B} (P : B -> list GeneratedFile -> Prop) (m : M A) (f : A -> M B) :
  grows anyResult m -> (forall a, grows P (f a)) -> grows P (bind m f).
Proof.
  intros Hm Hf w. specialize (Hm w). unfold bind, resultOf, worldOf, traceOf in *.
  destruct (m w) as [[[a | e] w1] t1]; cbn [fst snd] in *; [| exact I].
  specialize (Hf a w1). unfold resultOf, worldOf, traceOf in Hf.
  destruct (f a w1) as [[[b | e] w2] t2]; cbn [fst snd] in *; [| exact I].
  destruct Hm as (fs1 & Hf1 & Hp1 & Hu1 & _), Hf as (fs2 & Hf2 & Hp2 & Hu2 & HP).
  exists (fs1 ++ fs2). conjs.
  - now rewrite Hf2, Hf1, app_assoc.
  - now rewrite map_app, upsertsOf_app, Hp1, Hp2.
  - apply Forall_app. now split.
  - exact HP.
Qed.

Lemma grows_agent {A} (m : M A) :
  emitsOnly isAgentEvent m -> keepsLocals m -> grows anyResult m.
Proof.
  intros He Hk w. destruct (resultOf (m w)); [| exact I].
  exists []. destruct (Hk w) as (Hf & _). conjs.
  - now rewrite app_nil_r.
  - now rewrite (agent_upsertsOf _ (He w)).
  - constructor.
  - exact I.
Qed.

Lemma grows_ret {A} (a : A) : grows anyResult (ret a).
Proof. intros w. exists []. cbn. rewrite app_nil_r. conjs; first [reflexivity | exact I | constructor]. Qed.

Lemma grows_liftResult {A} (r : Result A) : grows anyResult (liftResult r).
Proof.
  intros w. destruct r as [a | e]; cbn; [| exact I].
  exists []. rewrite app_nil_r. conjs; first [reflexivity | exact I | constructor].
Qed.

Section RefineFacts.
Variable env : Env.

Lemma grows_addUsage n c : grows anyResult (addUsage env n c).
Proof. intros w. exists []. cbn. rewrite app_nil_r. conjs; first [reflexivity | exact I | constructor]. Qed.

Lemma grows_getWorkspaceFiles wid : grows anyResult (getWorkspaceFiles env wid).
Proof.
  intros w. unfold getWorkspaceFiles, resultOf, worldOf, traceOf. cbn [fst snd].
  destruct (dbThrows env (nDb w)); [exact I |].
  exists []. cbn. rewrite app_nil_r. conjs; first [reflexivity | exact I | constructor].
Qed.

Lemma grows_execute ai req : grows anyResult (execute env ai req).
Proof. apply grows_agent; [apply agent_execute | apply keepsLocals_execute]. Qed.

(** [generatedFiles.push({ path, content, validated: false })] followed by
    [await db.upsertFile(workspaceId, userId, path, content)]. *)
Lemma grows_push_upsert wid uid filePath fileContent :
  grows anyResult
        (pushFile (mkGeneratedFile filePath fileContent false None) ;;
         dbCall env (UpsertFile wid uid filePath fileContent)).
Proof.
  intros w. unfold bind, pushFile, modifyWorld, dbCall, resultOf, worldOf, traceOf.
  cbn [fst snd app nDb setFiles generatedFiles].
  destruct (dbThrows env _); cbn [fst snd]; [exact I |].
  exists [mkGeneratedFile filePath fileContent false None]. cbn.
  conjs; first [reflexivity | exact I | repeat constructor].
Qed.

Lemma grows_forEach {A} (body : A -> M unit) (l : list A) :
  (forall x, grows anyResult (body x)) -> grows anyResult (forEach body l).
Proof.
  intros Hb. induction l as [| x l IH]; cbn [forEach]; [apply grows_ret |].
  apply grows_bind; [apply Hb | intros _; exact IH].
Qed.

Lemma grows_modifyOne wid uid existing f :
  grows anyResult (modifyOne env wid uid existing f).
Proof.
  unfold modifyOne. destruct (find _ existing); [| apply grows_ret].
  apply grows_bind; [apply grows_execute | intros r].
  apply grows_bind; [apply grows_addUsage | intros _].
  apply grows_push_upsert.
Qed.

Lemma grows_createOne wid uid f : grows anyResult (createOne env wid uid f).
Proof.
  unfold createOne.
  apply grows_bind; [apply grows_execute | intros r].
  apply grows_bind; [apply grows_addUsage | intros _].
  apply grows_push_upsert.
Qed.

Lemma grows_refineBody sid wid uid :
  grows (fun res fs => success res = true /\ resultFiles res = fs /\
                       resultError res = None)
        (refineBody env sid wid uid).
Proof.
  unfold refineBody.
  apply grows_bind; [apply grows_getWorkspaceFiles | intros existing].
  apply grows_bind; [apply grows_execute | intros r].
  apply grows_bind; [apply grows_addUsage | intros _].
  apply grows_bind; [apply grows_liftResult | intros analysis].
  apply grows_bind; [apply grows_forEach; intros x; apply grows_modifyOne | intros _].
  apply grows_bind; [apply grows_forEach; intros x; apply grows_createOne | intros _].
  intros w. unfold bind, getWorld, Date_now, dbCall, ret, resultOf, worldOf, traceOf.
  cbn [fst snd app nDb].
  destruct (dbThrows env (nDb w)); cbn [fst snd]; [exact I |].
  exists []. cbn. rewrite app_nil_r. conjs; first [reflexivity | exact I | constructor].
Qed.

Lemma refine_unfold sid wid uid w :
  refine env sid wid uid w =
  tryCatch (refineBody env sid wid uid) (refineCatch env sid) (resetLocals w).
Proof.
  unfold refine, bind, modifyWorld. fold (resetLocals w).
  now destruct (tryCatch (refineBody env sid wid uid) (refineCatch env sid)
                         (resetLocals w)) as [[r w1] t1].
Qed.
End RefineFacts.

(** X21: What [RefinementPipeline.refine] leaves behind.  A refinement never
    writes the workspace status and never records a file operation.  When it
    returns, no returned file is marked as validated; with [success] the
    returned files are, in order, the files handed to [db.upsertFile] and no
    error is given; without [success] the returned file list is empty,
    whatever was written before the failure, and an error message is
    given. *)
Theorem X21_refine_writes (env : Env) (sid wid uid : string) (w : World) :
  let out := refine env sid wid uid w in
  workspaceWritesOf (traceOf out) = [] /\
  recordedOperationsOf (traceOf out) = 0 /\
  forall res,
    resultOf out = Ok res ->
    unvalidated (resultFiles res) /\
    if success res
    then map gPath (resultFiles res) = upsertsOf (traceOf out) /\ resultError res = None
    else resultFiles res = [] /\ resultError res <> None.
Proof.
  cbv zeta.
  pose proof (K_refine env isRefineEvent agent_isRefineEvent
                       (fun _ _ _ => eq_refl) (fun _ _ => eq_refl) (fun _ => eq_refl)
                       (fun _ _ _ _ => eq_refl) sid wid uid w) as Hev.
  destruct (refineEvents_obs _ Hev) as [Hw Hr].
  split; [exact Hw |]. split; [exact Hr |]. clear Hev Hw Hr.
  rewrite refine_unfold. unfold tryCatch, resultOf, traceOf.
  pose proof (grows_refineBody env sid wid uid (resetLocals w)) as Hb.
  unfold resultOf, worldOf, traceOf in Hb.
  destruct (refineBody env sid wid uid (resetLocals w)) as [[[res0 | e] w1] t1];
    cbn [fst snd] in *.
  - intros res [= <-]. destruct Hb as (fs & Hf & Hp & Hu & Hs & Hres & Herr).
    cbn in Hf. rewrite Hs, Hres, Hf. conjs; assumption.
  - unfold refineCatch, bind, logger, emit, Date_now, dbCall, getWorld, ret.
    cbn [fst snd app nDb].
    destruct (dbThrows env (nDb w1)); cbn [fst snd]; [discriminate |].
    intros res [= <-]. cbn. conjs; [constructor | reflexivity | discriminate].
Qed.

(** ** Rate limiting *)

Section RateFacts.
Variable env : Env.

(** A request touches the entry of its own client only. *)
Lemma rateLimitMiddleware_frame userId forwardedFor now m key :
  rateKey userId forwardedFor <> key ->
  snd (rateLimitMiddleware env userId forwardedFor now m) key = m key.
Proof.
  intros Hk. unfold rateLimitMiddleware.
  assert (Hne : String.eqb key (rateKey userId forwardedFor) = false).
  { apply String.eqb_neq. congruence. }
  destruct (m (rateKey userId forwardedFor)) as [userLimit |];
    [destruct (now - windowStart userLimit >? rateLimitWindow)%Z;
     [| destruct (maxRequestsPerWindow <=? requestCount userLimit)] |];
    cbn [snd]; unfold rateSet; now rewrite ?Hne.
Qed.

(** A request inside the open window of its client. *)
Lemma rateLimitMiddleware_open userId forwardedFor now m c ws :
  m (rateKey userId forwardedFor) = Some (mkRateWindow c ws) ->
  (now - ws <= rateLimitWindow)%Z ->
  let out := rateLimitMiddleware env userId forwardedFor now m in
  if maxRequestsPerWindow <=? c
  then isPass (fst out) = false /\ snd out = m
  else isPass (fst out) = true /\
       snd out (rateKey userId forwardedFor) = Some (mkRateWindow (c + 1) ws).
Proof.
  intros Hm Hw. cbv zeta. unfold rateLimitMiddleware. rewrite Hm. cbn [windowStart requestCount].
  destruct (Z.gtb_spec (now - ws) rateLimitWindow) as [Hgt | _]; [lia |].
  destruct (maxRequestsPerWindow <=? c); cbn [fst snd isPass]; [now split |].
  split; [reflexivity |]. unfold rateSet. now rewrite String.eqb_refl.
Qed.

Lemma passedOf_cons key r rest o outs :
  passedOf key (r :: rest) (o :: outs) =
  (if String.eqb (rqKey r) key && isPass o then 1 else 0) + passedOf key rest outs.
Proof.
  unfold passedOf. cbn [combine filter fst snd].
  now destruct (String.eqb (rqKey r) key && isPass o).
Qed.

Lemma requestsOf_cons key r rest :
  List.length (requestsOf key (r :: rest)) =
  (if String.eqb (rqKey r) key then 1 else 0) + List.length (requestsOf key rest).
Proof.
  unfold requestsOf. cbn [filter]. now destruct (String.eqb (rqKey r) key).
Qed.

Lemma serveAll_open (reqs : list RateRequest) (key : string) (ws : Z) :
  (forall r, In r reqs -> rqKey r = key -> (rqTime r - ws <= rateLimitWindow)%Z) ->
  forall m c,
    m key = Some (mkRateWindow c ws) ->
    let out := serveAll env reqs m in
    let passed := passedOf key reqs (fst out) in
    passed = Nat.min (maxRequestsPerWindow - c) (List.length (requestsOf key reqs)) /\
    snd out key = Some (mkRateWindow (c + passed) ws).
Proof.
  induction reqs as [| r rest IH]; intros Hin m c Hm; cbv zeta.
  - cbn. rewrite Nat.min_0_r, Nat.add_0_r. now split.
  - cbn [serveAll fst snd]. rewrite passedOf_cons, requestsOf_cons.
    set (step := rateLimitMiddleware env (rqUser r) (rqForwarded r) (rqTime r) m).
    assert (Hrest : forall r0, In r0 rest -> rqKey r0 = key ->
                               (rqTime r0 - ws <= rateLimitWindow)%Z).
    { intros r0 H0. apply Hin. now right. }
    destruct (String.eqb_spec (rqKey r) key) as [Hk | Hk]; cbn [andb].
    + pose proof (rateLimitMiddleware_open (rqUser r) (rqForwarded r) (rqTime r) m c ws)
        as Hopen.
      fold (rqKey r) in Hopen. rewrite Hk in Hopen.
      specialize (Hopen Hm (Hin r (or_introl eq_refl) Hk)). cbv zeta in Hopen.
      fold step in Hopen.
      destruct (Nat.leb_spec maxRequestsPerWindow c) as [Hc | Hc].
      * destruct Hopen as [Hp Hs]. rewrite Hp, Hs.
        destruct (IH Hrest m c Hm) as [IH1 IH2]. cbv zeta in IH1, IH2.
        split; [| exact IH2]. rewrite IH1. lia.
      * destruct Hopen as [Hp Hs]. rewrite Hp.
        destruct (IH Hrest (snd step) (c + 1) Hs) as [IH1 IH2]. cbv zeta in IH1, IH2.
        split.
        -- rewrite IH1. unfold maxRequestsPerWindow in *. lia.
        -- rewrite IH2. f_equal. f_equal. lia.
    + assert (Hs : snd step key = Some (mkRateWindow c ws)).
      { unfold step. rewrite rateLimitMiddleware_frame; [exact Hm | exact Hk]. }
      exact (IH Hrest (snd step) c Hs).
Qed.
End RateFacts.

(** X22: The request window of the rate limiter.  While the window of a
    client is open (every request of the client arrives no later than
    [rateLimitWindow] after the window's start), exactly the first
    [maxRequestsPerWindow - count] of its requests go on to [next()],
    whatever the requests of other clients in between; the requests that are
    answered 429 are not counted, and the start of the window never moves. *)
Theorem X22_rate_limit_window
        (env : Env) (reqs : list RateRequest) (m : RateMap) (key : string)
        (c : nat) (ws : Z) :
  m key = Some (mkRateWindow c ws) ->
  (forall r, In r reqs -> rqKey r = key -> (rqTime r - ws <= rateLimitWindow)%Z) ->
  let out := serveAll env reqs m in
  let passed := passedOf key reqs (fst out) in
  passed = Nat.min (maxRequestsPerWindow - c) (List.length (requestsOf key reqs)) /\
  snd out key = Some (mkRateWindow (c + passed) ws).
Proof. intros Hm Hin. now apply serveAll_open. Qed.

Lemma X22_witness :
  let out := serveAll sampleEnv sampleRateRequests sampleRateMap in
  let passed := passedOf "user-1" sampleRateRequests (fst out) in
  passed = Nat.min (maxRequestsPerWindow - 29)
                   (List.length (requestsOf "user-1" sampleRateRequests)) /\
  snd out "user-1" = Some (mkRateWindow (29 + passed) 0).
Proof.
  apply (X22_rate_limit_window sampleEnv sampleRateRequests sampleRateMap "user-1" 29 0).
  - reflexivity.
  - intros r [<- | [<- | [<- | [<- | []]]]] _; vm_compute; discriminate.
Defined.

(** ** Credits: complexity classes and the charge *)

Section ChargeFacts.
Variable env : Env.
Hypothesis Hfl : monotoneRounding (fl env).

Lemma estimatedTokens_eq prompt n :
  estimatedTokens (estimateCredits env prompt n) =
  (Qceiling (fdiv env (ofNat (String.length prompt)) 4) + Z.of_nat n * 500
   + Z.of_nat (if Nat.eqb n 0 then 5 else n) * 1500)%Z.
Proof. reflexivity. Qed.

Lemma complexity_eq prompt n :
  complexity (estimateCredits env prompt n) =
  complexityOf (estimatedTokens (estimateCredits env prompt n)).
Proof. reflexivity. Qed.

Lemma estimatedTokens_nonneg prompt n :
  (0 <= estimatedTokens (estimateCredits env prompt n))%Z.
Proof.
  rewrite estimatedTokens_eq.
  pose proof (promptTokens_nonneg env Hfl (String.length prompt)). lia.
Qed.

Hypothesis Hmult : (0 <= CREDITS_COST_MULTIPLIER env)%Q.

Lemma calculateCredits_mono in1 out1 in2 out2 c1 c2 :
  in1 + out1 <= in2 + out2 ->
  (multipliers c1 <= multipliers c2)%Q ->
  (0 <= calculateCredits env in1 out1 c1 <= calculateCredits env in2 out2 c2)%Z.
Proof.
  intros Ht Hc. unfold calculateCredits.
  assert (Hm1 : (0 <= multipliers c1)%Q) by (destruct c1; discriminate).
  assert (Hbase : forall n, (0 <= fmul env (ofNat n) (CREDITS_COST_MULTIPLIER env))%Q).
  { intros n. unfold fmul. apply (fl_nonneg env Hfl).
    apply Qmult_le_0_compat; [| exact Hmult].
    unfold ofNat. change 0%Q with (inject_Z 0). rewrite <- Zle_Qle. lia. }
  split.
  - change 0%Z with (Qceiling 0). apply Qceiling_resp_le. unfold fmul at 1.
    apply (fl_nonneg env Hfl). apply Qmult_le_0_compat; [apply Hbase | exact Hm1].
  - apply Qceiling_resp_le. unfold fmul at 1 3. apply (proj1 Hfl).
    apply Qmult_le_compat_nonneg.
    + split; [apply Hbase |]. unfold fmul. apply (proj1 Hfl).
      apply Qmult_le_compat_r; [| exact Hmult].
      unfold ofNat. rewrite <- Zle_Qle. lia.
    + split; assumption.
Qed.
End ChargeFacts.

(** X23: The complexity class of an estimate.  Without a file count (the
    call of [creditsMiddleware]) the estimate is at least 7500 tokens and is
    never of low complexity, however short the prompt; an estimate is of low
    complexity only for a file count of 1 or 2, and it is of high complexity
    for every file count from 11 on.  Double rounding is only assumed
    monotone. *)
Theorem X23_estimate_complexity (env : Env) (prompt : string) (filesCount : nat) :
  monotoneRounding (fl env) ->
  let est := estimateCredits env prompt filesCount in
  (filesCount = 0 -> (7500 <= estimatedTokens est)%Z /\ complexity est <> low) /\
  (complexity est = low -> filesCount = 1 \/ filesCount = 2) /\
  (11 <= filesCount -> complexity est = high).
Proof.
  intros Hfl. cbv zeta. rewrite complexity_eq, estimatedTokens_eq.
  pose proof (promptTokens_nonneg env Hfl (String.length prompt)) as Hp.
  set (promptTokens := Qceiling (fdiv env (ofNat (String.length prompt)) 4)) in *.
  unfold complexityOf. conjs.
  - intros ->. cbn [Nat.eqb]. split; [lia |].
    destruct (Z.ltb_spec (promptTokens + Z.of_nat 0 * 500 + Z.of_nat 5 * 1500) 5000);
      [lia |].
    destruct (_ >? _)%Z; discriminate.
  - destruct (Nat.eqb_spec filesCount 0) as [-> | Hn].
    + destruct (Z.ltb_spec (promptTokens + Z.of_nat 0 * 500 + Z.of_nat 5 * 1500) 5000);
        [lia |].
      destruct (_ >? _)%Z; discriminate.
    + destruct (Z.ltb_spec (promptTokens + Z.of_nat filesCount * 500
                            + Z.of_nat filesCount * 1500) 5000) as [Hlt | Hge].
      * intros _. lia.
      * destruct (_ >? _)%Z; discriminate.
  - intros Hn. destruct (Nat.eqb_spec filesCount 0) as [-> | _]; [lia |].
    destruct (Z.ltb_spec (promptTokens + Z.of_nat filesCount * 500
                          + Z.of_nat filesCount * 1500) 5000) as [Hlt | Hge]; [lia |].
    destruct (Z.gtb_spec (promptTokens + Z.of_nat filesCount * 500
                          + Z.of_nat filesCount * 1500) 20000) as [Hgt | Hle];
      [reflexivity | lia].
Qed.

Lemma X23_witness :
  let est := estimateCredits sampleEnv "Create a landing page" 0 in
  (0 = 0 -> (7500 <= estimatedTokens est)%Z /\ complexity est <> low) /\
  (complexity est = low -> 0 = 1 \/ 0 = 2) /\
  (11 <= 0 -> complexity est = high).
Proof.
  apply (X23_estimate_complexity sampleEnv "Create a landing page" 0).
  split; [intros x y H; exact H | discriminate].
Defined.

(** X24: The charge of [calculateCredits], which [deductCredits] applies to
    the tokens used.  It depends on the token counts through their sum only,
    is never negative, and does not decrease when the tokens grow or the
    complexity class gets a larger multiplier; and the credits of an
    estimate are exactly the charge for the estimated tokens at the
    estimate's complexity.  Double rounding is only assumed monotone, and
    the cost multiplier non-negative. *)
Theorem X24_charge_monotone
        (env : Env) (in1 out1 in2 out2 : nat) (c1 c2 : Complexity)
        (prompt : string) (filesCount : nat) :
  monotoneRounding (fl env) ->
  (0 <= CREDITS_COST_MULTIPLIER env)%Q ->
  in1 + out1 <= in2 + out2 ->
  (multipliers c1 <= multipliers c2)%Q ->
  (0 <= calculateCredits env in1 out1 c1 <= calculateCredits env in2 out2 c2)%Z /\
  calculateCredits env in1 out1 c1 = calculateCredits env (in1 + out1) 0 c1 /\
  let est := estimateCredits env prompt filesCount in
  estimatedCredits est =
  calculateCredits env (Z.to_nat (estimatedTokens est)) 0 (complexity est).
Proof.
  intros Hfl Hmult Ht Hc. split; [| split].
  - now apply calculateCredits_mono.
  - unfold calculateCredits. now rewrite Nat.add_0_r.
  - cbv zeta. unfold calculateCredits, ofNat.
    rewrite Nat.add_0_r, Z2Nat.id by now apply estimatedTokens_nonneg.
    reflexivity.
Qed.

Lemma X24_witness :
  (0 <= calculateCredits sampleEnv 1000 500 low
     <= calculateCredits sampleEnv 1200 400 medium)%Z /\
  calculateCredits sampleEnv 1000 500 low = calculateCredits sampleEnv (1000 + 500) 0 low /\
  let est := estimateCredits sampleEnv "Create a landing page" 2 in
  estimatedCredits est =
  calculateCredits sampleEnv (Z.to_nat (estimatedTokens est)) 0 (complexity est).
Proof.
  apply (X24_charge_monotone sampleEnv 1000 500 1200 400 low medium
                             "Create a landing page" 2).
  - split; [intros x y H; exact H | discriminate].
  - discriminate.
  - apply Nat.leb_le. reflexivity.
  - discriminate.
Defined.

(** ** A run without validation attempts *)

Lemma zeroRetry_obs (t : list Event) :
  Forall (fun e => isZeroRetryEvent e = true) t ->
  validationsOf t = 0 /\ logsOf fixStartMessage t = [] /\ logsOf exhaustedMessage t = [].
Proof.
  intros H.
  assert (Hq : Forall (fun e => isQuietEvent e = true) t).
  { eapply Forall_impl; [| exact H]. intros e He. unfold isZeroRetryEvent in He.
    now destruct (isQuietEvent e). }
  assert (Hf : Forall (fun e => isNotLog fixStartMessage e = true) t).
  { eapply Forall_impl; [| exact H]. intros e He. unfold isZeroRetryEvent in He.
    destruct (isQuietEvent e), (isNotLog fixStartMessage e); easy. }
  assert (Hx : Forall (fun e => isNotLog exhaustedMessage e = true) t).
  { eapply Forall_impl; [| exact H]. intros e He. unfold isZeroRetryEvent in He.
    destruct (isQuietEvent e), (isNotLog fixStartMessage e), (isNotLog exhaustedMessage e);
      easy. }
  conjs; [apply (quiet_obs _ Hq) | now apply notLog_logsOf | now apply notLog_logsOf].
Qed.

Lemma firstn_skipn_S {A} (d : A) (l : list A) (i n : nat) :
  i < List.length l ->
  firstn (S n) (skipn i l) = nth i l d :: firstn n (skipn (S i) l).
Proof.
  revert i. induction l as [| x l IH]; intros i Hi; cbn in Hi; [lia |].
  destruct i as [| i]; [reflexivity |].
  cbn [skipn nth]. apply IH. lia.
Qed.

Lemma post_known {A} (m : M A) w (Q : Result A -> World -> list Event -> Prop) :
  (forall r w' t, m w = (r, w', t) -> Q r w' t) -> post m w Q.
Proof. intros H. unfold post. destruct (m w) as [[r w'] t]. now apply H. Qed.

Section ZeroRetries.
Variable env : Env.
Variable self : GenerationPipeline.
Hypothesis Hzero : maxValidationRetries self = 0.

Lemma zr_execute ai req : emitsOnly isZeroRetryEvent (execute env ai req).
Proof.
  intros w.
  pose proof (quiet_execute env ai req w) as Hq.
  pose proof (notLog_execute env ai req fixStartMessage eq_refl eq_refl w) as Hf.
  pose proof (notLog_execute env ai req exhaustedMessage eq_refl eq_refl w) as Hx.
  induction (traceOf (execute env ai req w)) as [| e t IH]; [constructor |].
  inversion Hq; inversion Hf; inversion Hx; subst.
  constructor; [| now apply IH]. unfold isZeroRetryEvent.
  repeat match goal with H : _ = true |- _ => rewrite H; clear H end. reflexivity.
Qed.

Lemma zr_updateSessionStatus sid s d :
  emitsOnly isZeroRetryEvent (updateSessionStatus env sid s d).
Proof.
  intros w. unfold updateSessionStatus, bind, Date_now, dbCall, traceOf. cbn [fst snd app].
  repeat constructor.
Qed.

Lemma zr_getWorkspaceFiles wid : emitsOnly isZeroRetryEvent (getWorkspaceFiles env wid).
Proof. intros w. repeat constructor. Qed.

Hint Resolve zr_execute zr_updateSessionStatus zr_getWorkspaceFiles emitsOnly_Date_now
  : emits.
Hint Extern 1 (emitsOnly _ (pushFile _)) => apply emitsOnly_modifyWorld : emits.

Lemma zr_planPhase : emitsOnly isZeroRetryEvent (planPhase env self).
Proof. unfold planPhase, createPlan. emits_steps; auto 8 with emits. Qed.

Lemma zr_scaffoldPhase : emitsOnly isZeroRetryEvent (scaffoldPhase self).
Proof. unfold scaffoldPhase, applyTemplate. emits_steps; auto with emits. Qed.

Lemma zr_generatePhase p : emitsOnly isZeroRetryEvent (generatePhase env self p).
Proof.
  unfold generatePhase. apply emitsOnly_bind; [auto with emits | intros _].
  apply emitsOnly_bind; [auto with emits | intros _].
  induction (sortFilesByDependency (files p)) as [| f rest IH]; cbn [generateLoop];
    [auto with emits |].
  apply emitsOnly_bind; [| intros _; exact IH].
  unfold generateOne, generateFile. emits_steps; auto 8 with emits.
Qed.

Lemma zr_suggestPhase p : emitsOnly isZeroRetryEvent (suggestPhase env p).
Proof. unfold suggestPhase, suggest. emits_steps; auto with emits. Qed.

Lemma zr_completePhase p sugg : emitsOnly isZeroRetryEvent (completePhase env self p sugg).
Proof. unfold completePhase. emits_steps; auto with emits. Qed.

Lemma zr_runCatch e : emitsOnly isZeroRetryEvent (runCatch env self e).
Proof. unfold runCatch. emits_steps; auto with emits. Qed.

(** With no attempt allowed, the loop over the generated files only reports
    each of them. *)
Lemma forIndices_zero w :
  forall n i,
    i + n <= List.length (generatedFiles w) ->
    forIndices (validateOne env self) i n w =
    (Ok tt, w,
     map (fun g => EvLog Error exhaustedMessage (unvalidatedReport g))
         (firstn n (skipn i (generatedFiles w)))).
Proof.
  induction n as [| n IH]; intros i Hi; [reflexivity |].
  cbn [forIndices]. unfold bind at 1.
  assert (Hone : validateOne env self i w =
                 (Ok tt, w,
                  [EvLog Error exhaustedMessage
                         (unvalidatedReport (nth i (generatedFiles w) dummyFile))])).
  { unfold validateOne. rewrite Hzero. reflexivity. }
  rewrite Hone, IH by lia.
  rewrite (firstn_skipn_S dummyFile) by lia. reflexivity.
Qed.

Lemma validatePhase_zero w :
  validatePhase env self w =
  (Ok tt, w,
   map (fun g => EvLog Error exhaustedMessage (unvalidatedReport g)) (generatedFiles w)).
Proof.
  unfold validatePhase, bind at 1, getWorld.
  rewrite forIndices_zero by (cbn; lia).
  cbn [skipn app]. now rewrite firstn_all.
Qed.

Lemma unvalidatedReports_obs (fs : list GeneratedFile) :
  let t := map (fun g => EvLog Error exhaustedMessage (unvalidatedReport g)) fs in
  validationsOf t = 0 /\ logsOf fixStartMessage t = [] /\
  logsOf exhaustedMessage t = map unvalidatedReport fs.
Proof.
  cbv zeta. induction fs as [| g fs (IH1 & IH2 & IH3)]; [now conjs |].
  cbn [map].
  change (EvLog Error exhaustedMessage (unvalidatedReport g) ::
          map (fun g0 => EvLog Error exhaustedMessage (unvalidatedReport g0)) fs)
    with ([EvLog Error exhaustedMessage (unvalidatedReport g)] ++
          map (fun g0 => EvLog Error exhaustedMessage (unvalidatedReport g0)) fs).
  rewrite validationsOf_app, !logsOf_app, IH1, IH2, IH3. now conjs.
Qed.

Lemma suggestPhase_files p w :
  generatedFiles (worldOf (suggestPhase env p w)) = generatedFiles w.
Proof.
  unfold suggestPhase, tryCatch, bind, getWorld, worldOf.
  pose proof (keepsLocals_suggest env (map gPath (generatedFiles w)) (projectType p) w)
    as (Hs & _).
  unfold worldOf in Hs.
  destruct (suggest env _ _ w) as [[[r | e] w1] t1]; cbn [fst snd] in *; [| exact Hs].
  destruct (parseSuggestions env (content r)); cbn; exact Hs.
Qed.

Ltac known H E :=
  unfold post, resultOf, worldOf, traceOf in H; rewrite E in H; cbn [fst snd] in H.

Ltac use_obs :=
  cbv beta; rewrite ?validationsOf_app, ?logsOf_app;
  repeat match goal with
         | H : validationsOf _ = 0 |- _ => rewrite H; clear H
         | H : logsOf _ _ = [] |- _ => rewrite H; clear H
         end.

Lemma zeroBody_spec w :
  unvalidated (generatedFiles w) ->
  post (runBody env self) w
       (fun r w' t =>
          unvalidated (generatedFiles w') /\
          validationsOf t = 0 /\ logsOf fixStartMessage t = [] /\
          match r with
          | Ok res =>
              resultFiles res = generatedFiles w' /\
              logsOf exhaustedMessage t = map unvalidatedReport (generatedFiles w')
          | Throw _ => True
          end).
Proof.
  intros Hw. unfold runBody.
  (* plan *)
  apply post_bind, post_known. intros r1 w1 t1 E1.
  pose proof (planPhase_spec env self w) as Hp. known Hp E1. destruct Hp as (Hf1 & _).
  pose proof (zeroRetry_obs _ (zr_planPhase w)) as Ho1. known Ho1 E1.
  destruct Ho1 as (Hv1 & Hx1 & Hl1). rewrite <- Hf1 in Hw. clear Hf1 E1.
  destruct r1 as [p | e]; [| use_obs; now conjs].
  (* scaffold *)
  apply post_bind, post_known. intros r2 w2 t2 E2.
  destruct (scaffoldPhase_spec self w1) as (t2' & Heq2 & _).
  pose proof (zeroRetry_obs _ (zr_scaffoldPhase w1)) as Ho2. known Ho2 E2.
  destruct Ho2 as (Hv2 & Hx2 & Hl2).
  rewrite E2 in Heq2. injection Heq2 as -> -> _. clear E2.
  (* generate *)
  apply post_bind, post_known. intros r3 w3 t3 E3.
  pose proof (generatePhase_spec env self p w1) as Hg. known Hg E3.
  destruct Hg as (done & news & _ & Hf3 & _ & Hn3 & _).
  pose proof (zeroRetry_obs _ (zr_generatePhase p w1)) as Ho3. known Ho3 E3.
  destruct Ho3 as (Hv3 & Hx3 & Hl3).
  assert (Hu3 : unvalidated (generatedFiles w3)).
  { rewrite Hf3. apply Forall_app. split; [exact Hw |].
    eapply Forall_impl; [| exact Hn3]. now intros g [Hg _]. }
  clear Hf3 Hn3 E3 Hw.
  destruct r3 as [[] | e]; [| use_obs; now conjs].
  (* the two steps that open the validation phase *)
  apply post_bind. unfold post at 1. cbn [logger emit resultOf worldOf traceOf fst snd].
  apply post_bind, post_known. intros r5 w5 t5 E5.
  pose proof (zeroRetry_obs _ (zr_updateSessionStatus (sessionId self) validating None w3))
    as Ho5. known Ho5 E5. destruct Ho5 as (Hv5 & Hx5 & Hl5).
  assert (Hf5 : generatedFiles w5 = generatedFiles w3).
  { unfold updateSessionStatus, bind, Date_now, dbCall in E5. now injection E5 as _ <- _. }
  rewrite <- Hf5 in Hu3. clear Hf5 E5.
  destruct r5 as [[] | e]; [| use_obs; now conjs].
  (* the validation phase *)
  apply post_bind. unfold post at 1. rewrite validatePhase_zero.
  cbn [resultOf worldOf traceOf fst snd].
  destruct (unvalidatedReports_obs (generatedFiles w5)) as (Hv6 & Hx6 & Hl6). cbv zeta in *.
  (* suggestions *)
  apply post_bind, post_known. intros r7 w7 t7 E7.
  pose proof (suggestPhase_files p w5) as Hf7. unfold worldOf in Hf7. rewrite E7 in Hf7.
  cbn [fst snd] in Hf7.
  pose proof (zeroRetry_obs _ (zr_suggestPhase p w5)) as Ho7. known Ho7 E7.
  destruct Ho7 as (Hv7 & Hx7 & Hl7). clear E7.
  destruct r7 as [sugg | e]; [| rewrite <- Hf7 in Hu3; use_obs; now conjs].
  (* completion *)
  apply post_known. intros r8 w8 t8 E8.
  pose proof (completePhase_spec env self p sugg w7) as Hc. known Hc E8.
  destruct Hc as (_ & Hc).
  pose proof (completePhase_outcome env self p sugg w7) as Hf8. known Hf8 E8.
  destruct Hf8 as (_ & _ & Hf8 & _).
  pose proof (zeroRetry_obs _ (zr_completePhase p sugg w7)) as Ho8. known Ho8 E8.
  destruct Ho8 as (Hv8 & Hx8 & Hl8). clear E8.
  cbv beta. rewrite !validationsOf_app, !logsOf_app, Hf8, Hf7,
    Hv1, Hv2, Hv3, Hv5, Hv6, Hv7, Hv8, Hx1, Hx2, Hx3, Hx5, Hx6, Hx7, Hx8,
    Hl1, Hl2, Hl3, Hl5, Hl6, Hl7, Hl8.
  conjs; try reflexivity; try assumption.
  destruct r8 as [res |]; [| exact I].
  destruct Hc as (_ & Hres). rewrite Hres, Hf7.
  split; [reflexivity |]. cbn. now rewrite !app_nil_r.
Qed.
End ZeroRetries.

Lemma run_parts env self w :
  let out := tryCatch (runBody env self) (runCatch env self) (resetLocals w) in
  resultOf (run env self w) = resultOf out /\
  traceOf (run env self w) =
    [EvLog Info "Pipeline starting" (sessionData (sessionId self))] ++ traceOf out.
Proof. cbv zeta. rewrite run_unfold. now split. Qed.

(** X25: A pipeline with [maxValidationRetries] 0.  Its run starts no
    validation and no fix; every file it returns is unvalidated; and when it
    succeeds it has reported each returned file, in order, with the message
    File validation failed after max retries and 0 attempts. *)
Theorem X25_no_validation_attempts (env : Env) (self : GenerationPipeline) (w : World) :
  maxValidationRetries self = 0 ->
  let out := run env self w in
  let t := traceOf out in
  validationsOf t = 0 /\
  logsOf fixStartMessage t = [] /\
  forall res,
    resultOf out = Ok res ->
    unvalidated (resultFiles res) /\
    (success res = true -> logsOf exhaustedMessage t = map unvalidatedReport (resultFiles res)).
Proof.
  intros Hzero. cbv zeta.
  destruct (run_parts env self w) as [Hr Ht]. cbv zeta in Hr, Ht. rewrite Hr, Ht.
  rewrite validationsOf_app, !logsOf_app.
  change (validationsOf [EvLog Info "Pipeline starting" (sessionData (sessionId self))])
    with 0.
  change (logsOf fixStartMessage [EvLog Info "Pipeline starting"
                                        (sessionData (sessionId self))]) with (@nil LogData).
  change (logsOf exhaustedMessage [EvLog Info "Pipeline starting"
                                         (sessionData (sessionId self))]) with (@nil LogData).
  cbn [app Nat.add]. clear Hr Ht.
  pose proof (zeroBody_spec env self Hzero (resetLocals w) (Forall_nil _)) as Hb.
  unfold post in Hb. unfold tryCatch, resultOf, worldOf, traceOf in *.
  destruct (runBody env self (resetLocals w)) as [[[res0 | e] w1] t1]; cbn [fst snd] in *.
  - destruct Hb as (Hu & Hv & Hx & Hres & Hlog).
    conjs; [exact Hv | exact Hx |]. intros res [= <-]. rewrite Hres, Hlog.
    split; [exact Hu | reflexivity].
  - destruct Hb as (Hu & Hv & Hx & _).
    pose proof (runCatch_outcome env self e w1) as Hc. unfold post in Hc.
    destruct Hc as (_ & Hc).
    destruct (zeroRetry_obs _ (zr_runCatch env self e w1)) as (Hv2 & Hx2 & _).
    destruct (runCatch env self e w1) as [[r2 w2] t2];
      unfold resultOf, worldOf, traceOf in *; cbn [fst snd] in *.
    rewrite validationsOf_app, logsOf_app, Hv, Hv2, Hx, Hx2.
    conjs; try reflexivity. intros res ->.
    destruct Hc as (_ & Hs & _ & Hf & _). rewrite Hf, Hs.
    split; [exact Hu | discriminate].
Qed.

Lemma X25_witness :
  let out := run sampleEnv noValidationPipeline initialWorld in
  let t := traceOf out in
  validationsOf t = 0 /\
  logsOf fixStartMessage t = [] /\
  forall res,
    resultOf out = Ok res ->
    unvalidated (resultFiles res) /\
    (success res = true -> logsOf exhaustedMessage t = map unvalidatedReport (resultFiles res)).
Proof.
  apply (X25_no_validation_attempts sampleEnv noValidationPipeline initialWorld).
  reflexivity.
Defined.

(** ** The clean-up of the coder's output *)

Lemma prefix_before_newline (k p c : string) :
  hasNoNewline k = true ->
  String.prefix k (p ++ String newline c) = String.prefix k p.
Proof.
  revert p. induction k as [| a k IH]; intros p Hk.
  - now destruct p.
  - cbn [hasNoNewline] in Hk. apply andb_prop in Hk. destruct Hk as [Ha Hk].
    destruct p as [| b p]; cbn [append String.prefix].
    + destruct (ascii_dec a newline) as [-> | _]; [| reflexivity].
      now rewrite Ascii.eqb_refl in Ha.
    + destruct (ascii_dec a b); [now apply IH | reflexivity].
Qed.

Lemma startsCode_before_newline (p c : string) :
  startsCode (p ++ String newline c) = startsCode p.
Proof.
  unfold startsCode, codeStarters, startsWith. cbn [existsb].
  now rewrite !prefix_before_newline by reflexivity.
Qed.

Lemma searchCodeStartFrom_eq (b : bool) (i : nat) (s : string) :
  searchCodeStartFrom b i s =
  if b && startsCode s then Some i
  else match s with
       | EmptyString => None
       | String c rest => searchCodeStartFrom (isLineTerminator c) (S i) rest
       end.
Proof. now destruct s. Qed.

Lemma searchCodeStartFrom_after (prose code : string) :
  startsCode code = true ->
  forall b i,
    searchCodeStartFrom b i prose = None ->
    searchCodeStartFrom b i (prose ++ String newline code)
    = Some (i + String.length prose + 1).
Proof.
  intros Hcode. induction prose as [| c prose IH]; intros b i Hnone.
  - cbn [append]. rewrite searchCodeStartFrom_eq.
    change (String newline code) with (EmptyString ++ String newline code)%string at 1.
    rewrite startsCode_before_newline. change (startsCode EmptyString) with false.
    rewrite andb_false_r.
    change (isLineTerminator newline) with true.
    rewrite searchCodeStartFrom_eq, Hcode. cbn. f_equal. lia.
  - rewrite searchCodeStartFrom_eq in Hnone.
    cbn [append]. rewrite searchCodeStartFrom_eq.
    change (String c (prose ++ String newline code))
      with (String c prose ++ String newline code)%string at 1.
    rewrite startsCode_before_newline.
    destruct (b && startsCode (String c prose)); [discriminate Hnone |].
    rewrite (IH _ _ Hnone). cbn [String.length]. f_equal. lia.
Qed.

Lemma slice_after (prose rest : string) (c : ascii) :
  slice (S (String.length prose)) (prose ++ String c rest) = rest.
Proof. induction prose as [| x prose IH]; [reflexivity | exact IH]. Qed.

(** X26: What [cleanCodeOutput] drops.  In an output that is trimmed and not
    fenced, everything before the first line that begins with one of the
    fourteen keywords of the regular expression is dropped, be it an
    explanation or code: when no line of [before] begins with such a keyword
    and [code] does, cleaning [before], a line feed and [code] gives [code]
    trimmed. *)
Theorem X26_text_before_code_is_dropped (before code : string) :
  let text := (before ++ nl ++ code)%string in
  trim text = text ->
  startsWith fence text = false ->
  searchCodeStart before = None ->
  startsCode code = true ->
  cleanCodeOutput text = trim code.
Proof.
  cbv zeta. intros Htrim Hfence Hnone Hcode. unfold cleanCodeOutput.
  rewrite Htrim, Hfence. unfold searchCodeStart, nl. cbn [append].
  rewrite (searchCodeStartFrom_after before code Hcode true 0 Hnone).
  replace (0 + String.length before + 1) with (S (String.length before)) by lia.
  now rewrite slice_after.
Qed.

Lemma X26_witness :
  cleanCodeOutput ("async function main() {" ++ nl ++ "const x = 1;" ++ nl ++ "}")
  = trim ("const x = 1;" ++ nl ++ "}").
Proof.
  apply (X26_text_before_code_is_dropped "async function main() {"
                                          ("const x = 1;" ++ nl ++ "}"));
    reflexivity.
Defined.
